(** * Syllabus analyzer: job pipeline and concurrent PDF downloader

    A shallow embedding of [scripts/polisci_pdf_downloader.py] and of the
    job pipeline of [backend/app.py], with the properties of the design
    document stated and settled against it.

    Conventions of the embedding.
    - A Python [str] is the list of its Unicode code points ([pystr]).
    - A Python [set] of strings is a [gset pystr], a [dict] a [gmap].
    - Library calls whose result is not determined by the repository
      (the network, the PDF and AI extractors, [str.lower], URL parsing)
      are parameters: a record of functions or an operational type class.
    - Code that can raise returns [exn + A]; a [try]/[except] is a case
      analysis on that sum, the state reached before the raise is kept.
    - Progress arithmetic that Python does on floats ([int(i / n * 90)])
      is done on exact rationals. *)

From Stdlib Require Import ZArith QArith Lia List String Ascii.
From stdpp Require Import base decidable option list gmap sets strings pretty.

Close Scope Q_scope.
Local Open Scope list_scope.

(** ** Python strings *)

Module PyStr.

(** A string is the sequence of its code points. *)
Definition pystr : Type := list N.

(** A literal of the source, written as a Rocq string of ASCII
    characters. *)
Definition lit (s : string) : pystr :=
  (λ a, N_of_ascii a) <$> list_ascii_of_string s.

Arguments lit : simpl never.

(** [str(n)] for a non-negative integer. *)
Definition str_nat (n : nat) : pystr := lit (pretty n).

(** [c.isspace()] for a single character: the code points Python treats
    as whitespace in [str.split()] without arguments. *)
Definition isspace (c : N) : bool :=
  (((9 <=? c) && (c <=? 13)) || ((28 <=? c) && (c <=? 32))
   || (c =? 133) || (c =? 160) || (c =? 5760)
   || ((8192 <=? c) && (c <=? 8202))
   || (c =? 8232) || (c =? 8233) || (c =? 8239) || (c =? 8287)
   || (c =? 12288))%N.

(** [s.split()]: the maximal runs of non-whitespace characters, in
    order.  [cur] is the run being read, reversed. *)
Fixpoint split_from (cur : pystr) (s : pystr) : list pystr :=
  match s with
  | [] => match cur with [] => [] | _ => [reverse cur] end
  | c :: s' =>
      if isspace c
      then match cur with
           | [] => split_from [] s'
           | _ => reverse cur :: split_from [] s'
           end
      else split_from (c :: cur) s'
  end.

Definition py_split (s : pystr) : list pystr := split_from [] s.

(** [sep.join(parts)]. *)
Fixpoint py_join (sep : pystr) (parts : list pystr) : pystr :=
  match parts with
  | [] => []
  | [p] => p
  | p :: ps => p ++ sep ++ py_join sep ps
  end.

(** [s.startswith(p)], [s.endswith(p)] and [p in s]. *)
Fixpoint startswith (s p : pystr) : bool :=
  match p, s with
  | [], _ => true
  | _ :: _, [] => false
  | a :: p', b :: s' => (a =? b)%N && startswith s' p'
  end.

Definition endswith (s p : pystr) : bool :=
  startswith (reverse s) (reverse p).

Fixpoint contains (s p : pystr) : bool :=
  startswith s p ||
  match s with
  | [] => false
  | _ :: s' => contains s' p
  end.

(** The line feed. *)
Definition nl : pystr := [10%N].

(** [s == t] as a boolean. *)
Definition py_eqb (s t : pystr) : bool := bool_decide (s = t).

(** The lower-casing of the ASCII range only; used where an instance of
    [str.lower] is needed to run the code on plain ASCII texts. *)
Definition ascii_lower_char (c : N) : N :=
  if ((65 <=? c) && (c <=? 90))%N then (c + 32)%N else c.
Definition ascii_lower (s : pystr) : pystr := ascii_lower_char <$> s.

(** [os.path.splitext] (POSIX flavour): the extension starts at the last
    dot of the last path component, unless that component has only
    leading dots before it. *)
Definition dot : N := 46%N.
Definition slash : N := 47%N.

(** Index of the last occurrence of [c] in [s], or [-1]. *)
Fixpoint rfind_from (i : Z) (c : N) (s : pystr) (found : Z) : Z :=
  match s with
  | [] => found
  | d :: s' => rfind_from (i + 1) c s' (if (d =? c)%N then i else found)
  end.
Definition rfind (s : pystr) (c : N) : Z := rfind_from 0 c s (-1).

Definition splitext (p : pystr) : pystr * pystr :=
  let sepIndex := rfind p slash in
  let dotIndex := rfind p dot in
  if (sepIndex <? dotIndex)%Z then
    let stem := drop (Z.to_nat (sepIndex + 1)) (take (Z.to_nat dotIndex) p) in
    if forallb (λ c, (c =? dot)%N) stem
    then (p, [])
    else (take (Z.to_nat dotIndex) p, drop (Z.to_nat dotIndex) p)
  else (p, []).

End PyStr.
Export PyStr.

(** The library functions the code calls on strings and URLs. *)
Class PyRuntime := {
  (** [s.lower()] *)
  lower : pystr → pystr;
  (** [os.path.basename(urlparse(url).path)] *)
  url_basename : pystr → pystr;
}.

(** An instance to run the code on plain ASCII texts and on URLs that end
    with their path: ASCII lower-casing, and the text after the last
    slash. *)
Definition ascii_runtime : PyRuntime :=
  {| lower := ascii_lower;
     url_basename := λ u, drop (Z.to_nat (rfind u slash + 1)) u |}.

(** ** The downloader of [polisci_pdf_downloader.py] *)

Module Downloader.

(** *** [sanitize_filename] *)

(** The character class of the [re.sub] call, by code point: less-than,
    greater-than, colon, double quote, slash, backslash, vertical bar,
    question mark and asterisk. *)
Definition invalid_chars : list N := [60; 62; 58; 34; 47; 92; 124; 63; 42]%N.

Definition is_invalid (c : N) : bool := bool_decide (c ∈ invalid_chars).

Definition underscore : N := 95%N.
Definition space : N := 32%N.

Definition re_sub_invalid (filename : pystr) : pystr :=
  (λ c, if is_invalid c then underscore else c) <$> filename.

Definition sanitize_filename (filename : pystr) : pystr :=
  let filename := re_sub_invalid filename in
  let filename := take 200 (py_join [space] (py_split filename)) in
  filename.

(** Whitespace in good order up to the last character: no whitespace
    after whitespace or at the start (with [after_space] set), and no
    whitespace character other than the space. *)
Fixpoint tidy_from (after_space : bool) (s : pystr) : bool :=
  match s with
  | [] => true
  | c :: s' =>
      if isspace c
      then (c =? space)%N && negb after_space && tidy_from true s'
      else tidy_from false s'
  end.

Definition tidy (s : pystr) : bool := tidy_from true s.

(** A word of [split]: not empty and free of whitespace. *)
Definition word (w : pystr) : Prop :=
  w ≠ [] ∧ Forall (λ c, isspace c = false) w.

(** The last character, if any, is not whitespace. *)
Definition ends_clean (s : pystr) : bool :=
  match last s with
  | Some c => negb (isspace c)
  | None => true
  end.

(** *** References, network and downloader state *)

(** A discovered reference: the dict with keys ['url'] and ['title']. *)
Record pdf_info := { url : pystr; title : pystr }.

(** What [session.get(url, timeout=30)] followed by
    [response.raise_for_status()] gives: an exception, or a response
    with its [content-type] header (if any) and its body. *)
Inductive net_result :=
| NetError
| Response (content_type : option pystr) (content : list Byte.byte).

(** What a call does to the outside world, in order: the messages it
    prints and the request it sends. *)
Inductive event :=
| Skipped (filename : pystr)        (* Skipping (already exists) *)
| Requested (u : pystr)             (* session.get(url) *)
| NotValidPdf (filename : pystr)    (* Not a valid PDF *)
| Written (filename : pystr)        (* file written, Downloaded *)
| Failed (u : pystr).               (* Error downloading *)

(** [self.downloaded_files], the files of [self.download_folder] (name to
    content) and the events so far. *)
Record dl_state := {
  downloaded_files : gset pystr;
  folder : gmap pystr (list Byte.byte);
  trace : list event;
}.

Definition registry_add (f : pystr) (st : dl_state) : dl_state :=
  {| downloaded_files := {[f]} ∪ downloaded_files st;
     folder := folder st; trace := trace st |}.

Definition registry_discard (f : pystr) (st : dl_state) : dl_state :=
  {| downloaded_files := downloaded_files st ∖ {[f]};
     folder := folder st; trace := trace st |}.

Definition write_file (f : pystr) (content : list Byte.byte) (st : dl_state)
  : dl_state :=
  {| downloaded_files := downloaded_files st;
     folder := <[f := content]> (folder st); trace := trace st |}.

Definition emit (e : event) (st : dl_state) : dl_state :=
  {| downloaded_files := downloaded_files st;
     folder := folder st; trace := trace st ++ [e] |}.

Definition path_exists (f : pystr) (st : dl_state) : bool :=
  bool_decide (is_Some (folder st !! f)).

(** *** [get_pdf_links_from_page], after the page has been scraped *)

(** [d[k] = v] on a dict kept in insertion order. *)
Fixpoint dict_set {V} (k : pystr) (v : V) (d : list (pystr * V))
  : list (pystr * V) :=
  match d with
  | [] => [(k, v)]
  | (k', v') :: d' =>
      if decide (k = k') then (k, v) :: d' else (k', v') :: dict_set k v d'
  end.

(** Remove duplicates based on URL. *)
Definition unique_by_url (pdf_links : list pdf_info) : list pdf_info :=
  snd <$> foldl (λ unique_pdfs pdf, dict_set (url pdf) pdf unique_pdfs)
                [] pdf_links.

(** [l[:m]] for an integer [m] of either sign. *)
Definition slice_to {A} (m : Z) (l : list A) : list A :=
  if (m <? 0)%Z then take (Z.to_nat (Z.of_nat (length l) + m)) l
  else take (Z.to_nat m) l.

(** Limit to first N PDFs. *)
Definition limit_links (max_downloads : Z) (pdf_links : list pdf_info)
  : list pdf_info :=
  if (max_downloads <? Z.of_nat (length pdf_links))%Z
  then slice_to max_downloads pdf_links
  else pdf_links.

(** [scraped] is the list [pdf_links] that the three scanning strategies
    have collected, or [None] when fetching or parsing the page raised;
    the [except] clause then returns the empty list. *)
Definition get_pdf_links_from_page (max_downloads : Z)
    (scraped : option (list pdf_info)) : list pdf_info :=
  match scraped with
  | None => []
  | Some pdf_links => limit_links max_downloads (unique_by_url pdf_links)
  end.

(** *** [download_pdf] *)

Section DownloadPdf.
Context `{PyRuntime}.
Variable net : pystr → net_result.

Definition base_filename_of (info : pdf_info) : pystr :=
  let url_filename := url_basename (url info) in
  let base_filename :=
    if (10 <? length (title info))
       && negb (startswith (lower (title info)) (lit "http"))
    then
      let base_filename := sanitize_filename (title info) in
      if negb (endswith (lower base_filename) (lit ".pdf"))
      then base_filename ++ lit ".pdf"
      else base_filename
    else
      if endswith url_filename (lit ".pdf") then url_filename
      else lit "polisci_syllabus.pdf" in
  if negb (startswith (lower base_filename) (lit "polisci_"))
  then lit "polisci_" ++ base_filename
  else base_filename.

(** The candidate tried after [counter] collisions:
    [name, ext = os.path.splitext(base_filename)] and
    [filename = f"{name}_{counter}{ext}"]. *)
Definition suffixed (base_filename : pystr) (counter : nat) : pystr :=
  let '(name, ext) := splitext base_filename in
  name ++ lit "_" ++ str_nat counter ++ ext.

(** [while filename in self.downloaded_files: ...], at most [fuel]
    rounds; [None] when the rounds are used up. *)
Fixpoint unique_loop (fuel : nat) (files : gset pystr)
    (base_filename : pystr) (counter : nat) (filename : pystr)
  : option pystr :=
  if bool_decide (filename ∈ files) then
    match fuel with
    | O => None
    | S fuel' =>
        unique_loop fuel' files base_filename (S counter)
                    (suffixed base_filename counter)
    end
  else Some filename.

(** One more round than there are registered names is always enough
    ([unique_filename_total] below). *)
Definition unique_filename (files : gset pystr) (base_filename : pystr)
  : option pystr :=
  unique_loop (S (size files)) files base_filename 1 base_filename.

(** The check on a received response: its declared type is not a PDF
    type and its body is below 1024 bytes. *)
Definition not_a_pdf (content_type : option pystr)
    (content : list Byte.byte) : bool :=
  let content_type := lower (default [] content_type) in
  negb (contains content_type (lit "application/pdf"))
  && (length content <? 1024).

(** The part of [download_pdf] after the lock is released: the
    transfer, the check and the write.  [filename] is registered. *)
Definition transfer (info : pdf_info) (filename : pystr) (st : dl_state)
  : bool * dl_state :=
  let st := emit (Requested (url info)) st in
  match net (url info) with
  | NetError =>
      (false, registry_discard filename (emit (Failed (url info)) st))
  | Response content_type content =>
      if not_a_pdf content_type content
      then (false, registry_discard filename (emit (NotValidPdf filename) st))
      else (true, emit (Written filename) (write_file filename content st))
  end.

(** The whole call, run without interference; [None] only if the
    naming loop runs out of rounds. *)
Definition download_pdf (info : pdf_info) (st : dl_state)
  : option (bool * dl_state) :=
  let base_filename := base_filename_of info in
  filename ← unique_filename (downloaded_files st) base_filename;
  if path_exists filename st
  then Some (true, registry_add filename (emit (Skipped filename) st))
  else Some (transfer info filename (registry_add filename st)).

(** *** Concurrent calls

    Several workers run [download_pdf] on one downloader object, as the
    thread pool of the method [run] makes them.  A worker is at one of the
    following points; a step takes it to the next one and makes one access
    to what the workers share (the lock, the registry, the folder).  The
    lock is explicit: a worker enters a [with self.lock] block only when
    nobody owns the lock and is blocked otherwise. *)
Inductive pc :=
| Entered (info : pdf_info)
    (* before the first [with self.lock] *)
| InLoop (info : pdf_info) (counter : nat) (filename : pystr)
    (* owns the lock, at the test of the [while] *)
| AtExists (info : pdf_info) (filename : pystr)
    (* owns the lock, at [if file_path.exists()] *)
| Fetching (info : pdf_info) (filename : pystr)
    (* lock released, name registered, at [session.get] *)
| Releasing (filename : pystr)
    (* failed, before [with self.lock: ... discard(filename)] *)
| Returned (ok : bool) (filename : pystr).

Record shared := {
  lock : option nat;          (* the worker that owns [self.lock] *)
  obj : dl_state;
}.

Definition with_obj (f : dl_state → dl_state) (s : shared) : shared :=
  {| lock := lock s; obj := f (obj s) |}.
Definition acquire (t : nat) (s : shared) : shared :=
  {| lock := Some t; obj := obj s |}.
Definition release (s : shared) : shared :=
  {| lock := None; obj := obj s |}.

(** One step of worker [t]; [None] when it is blocked or has
    returned. *)
Definition thread_step (t : nat) (p : pc) (s : shared)
  : option (pc * shared) :=
  match p with
  | Entered info =>
      match lock s with
      | None => Some (InLoop info 1 (base_filename_of info), acquire t s)
      | Some _ => None
      end
  | InLoop info counter filename =>
      if bool_decide (filename ∈ downloaded_files (obj s))
      then Some (InLoop info (S counter)
                        (suffixed (base_filename_of info) counter), s)
      else Some (AtExists info filename, s)
  | AtExists info filename =>
      if path_exists filename (obj s)
      then Some (Returned true filename,
                 release (with_obj (λ st, registry_add filename
                                            (emit (Skipped filename) st)) s))
      else Some (Fetching info filename,
                 release (with_obj (registry_add filename) s))
  | Fetching info filename =>
      let st := emit (Requested (url info)) (obj s) in
      match net (url info) with
      | NetError =>
          Some (Releasing filename,
                with_obj (λ _, emit (Failed (url info)) st) s)
      | Response content_type content =>
          if not_a_pdf content_type content
          then Some (Releasing filename,
                     with_obj (λ _, emit (NotValidPdf filename) st) s)
          else Some (Returned true filename,
                     with_obj (λ _, emit (Written filename)
                                      (write_file filename content st)) s)
      end
  | Releasing filename =>
      match lock s with
      | None => Some (Returned false filename,
                      with_obj (registry_discard filename) s)
      | Some _ => None
      end
  | Returned _ _ => None
  end.

Record machine := {
  threads : list pc;
  sh : shared;
}.

Definition step (t : nat) (m : machine) : option machine :=
  p ← threads m !! t;
  '(p', s') ← thread_step t p (sh m);
  Some {| threads := <[t := p']> (threads m); sh := s' |}.

(** A schedule names the worker that moves next; naming a worker that
    cannot move leaves the machine as it is. *)
Definition run_schedule (sched : list nat) (m : machine) : machine :=
  foldl (λ m t, default m (step t m)) m sched.

Definition init (infos : list pdf_info) (st : dl_state) : machine :=
  {| threads := Entered <$> infos;
     sh := {| lock := None; obj := st |} |}.

(** *** The invariant of the concurrent calls *)

(** The name a worker has claimed and not given back. *)
Definition holds (p : pc) (f : pystr) : Prop :=
  match p with
  | Fetching _ g | Releasing g | Returned true g => g = f
  | _ => False
  end.

(** The points inside the first [with self.lock] block. *)
Definition in_critical (p : pc) : Prop :=
  match p with
  | InLoop _ _ _ | AtExists _ _ => True
  | _ => False
  end.

Record inv (m : machine) : Prop := {
  (* a worker inside the block owns the lock: mutual exclusion *)
  inv_lock : ∀ t p,
    threads m !! t = Some p → in_critical p → lock (sh m) = Some t;
  (* the name that left the loop is still free at the existence test *)
  inv_free : ∀ t info f,
    threads m !! t = Some (AtExists info f) →
    f ∉ downloaded_files (obj (sh m));
  (* a claimed name is registered *)
  inv_registered : ∀ t p f,
    threads m !! t = Some p → holds p f →
    f ∈ downloaded_files (obj (sh m));
  (* a name is claimed by one worker at most *)
  inv_distinct : ∀ t1 t2 p1 p2 f,
    threads m !! t1 = Some p1 → threads m !! t2 = Some p2 →
    holds p1 f → holds p2 f → t1 = t2;
  (* the file of a successful call is in the folder *)
  inv_on_disk : ∀ t f,
    threads m !! t = Some (Returned true f) →
    is_Some (folder (obj (sh m)) !! f);
}.

End DownloadPdf.

End Downloader.

(** ** The job pipeline of [backend/app.py] *)

Module App.
Import Downloader.

(** *** Exceptions, job entries and the stage monad *)

Inductive exn :=
| FileNotFoundError
| JSONDecodeError
| Exception (msg : pystr).

(** [str(e)] *)
Definition str_exn (e : exn) : pystr :=
  match e with
  | FileNotFoundError => lit "No such file or directory"
  | JSONDecodeError => lit "Expecting value"
  | Exception msg => msg
  end.

(** The values of [jobs_status[job_id]["status"]]. *)
Inductive Status := pending | downloading | processing | completed | error.

#[global] Instance Status_eq_dec : EqDecision Status.
Proof. solve_decision. Defined.

(** The entry [jobs_status[job_id]]: the keys the stages read and write. *)
Record job_entry := {
  status : Status;
  progress : Z;
  message : pystr;
  files_found : option nat;
  files_downloaded : option nat;
  files_processed : option nat;
  selected_fields : option (list pystr);
  results_file : option pystr;
  primo_results_file : option pystr;
}.

Definition set_status (v : Status) (e : job_entry) : job_entry :=
  {| status := v; progress := progress e; message := message e;
     files_found := files_found e; files_downloaded := files_downloaded e;
     files_processed := files_processed e;
     selected_fields := selected_fields e; results_file := results_file e;
     primo_results_file := primo_results_file e |}.
Definition set_progress (v : Z) (e : job_entry) : job_entry :=
  {| status := status e; progress := v; message := message e;
     files_found := files_found e; files_downloaded := files_downloaded e;
     files_processed := files_processed e;
     selected_fields := selected_fields e; results_file := results_file e;
     primo_results_file := primo_results_file e |}.
Definition set_message (v : pystr) (e : job_entry) : job_entry :=
  {| status := status e; progress := progress e; message := v;
     files_found := files_found e; files_downloaded := files_downloaded e;
     files_processed := files_processed e;
     selected_fields := selected_fields e; results_file := results_file e;
     primo_results_file := primo_results_file e |}.
Definition set_files_found (v : nat) (e : job_entry) : job_entry :=
  {| status := status e; progress := progress e; message := message e;
     files_found := Some v; files_downloaded := files_downloaded e;
     files_processed := files_processed e;
     selected_fields := selected_fields e; results_file := results_file e;
     primo_results_file := primo_results_file e |}.
Definition set_files_downloaded (v : nat) (e : job_entry) : job_entry :=
  {| status := status e; progress := progress e; message := message e;
     files_found := files_found e; files_downloaded := Some v;
     files_processed := files_processed e;
     selected_fields := selected_fields e; results_file := results_file e;
     primo_results_file := primo_results_file e |}.
Definition set_files_processed (v : nat) (e : job_entry) : job_entry :=
  {| status := status e; progress := progress e; message := message e;
     files_found := files_found e; files_downloaded := files_downloaded e;
     files_processed := Some v;
     selected_fields := selected_fields e; results_file := results_file e;
     primo_results_file := primo_results_file e |}.
Definition set_selected_fields (v : list pystr) (e : job_entry) : job_entry :=
  {| status := status e; progress := progress e; message := message e;
     files_found := files_found e; files_downloaded := files_downloaded e;
     files_processed := files_processed e;
     selected_fields := Some v; results_file := results_file e;
     primo_results_file := primo_results_file e |}.
Definition set_results_file (v : pystr) (e : job_entry) : job_entry :=
  {| status := status e; progress := progress e; message := message e;
     files_found := files_found e; files_downloaded := files_downloaded e;
     files_processed := files_processed e;
     selected_fields := selected_fields e; results_file := Some v;
     primo_results_file := primo_results_file e |}.
Definition set_primo_results_file (v : pystr) (e : job_entry) : job_entry :=
  {| status := status e; progress := progress e; message := message e;
     files_found := files_found e; files_downloaded := files_downloaded e;
     files_processed := files_processed e;
     selected_fields := selected_fields e; results_file := results_file e;
     primo_results_file := Some v |}.

(** The state a background task works on: the entry of its job, the
    successive values it has written to it ([written], oldest first), the
    values other requests can see while the task is suspended at an
    [await] ([visible]), and the local variables of the task. *)
Record stage_state (L : Type) := StageState {
  entry : job_entry;
  written : list job_entry;
  visible : list job_entry;
  locals : L;
}.
Arguments StageState {L} _ _ _ _.
Arguments entry {L} _.
Arguments written {L} _.
Arguments visible {L} _.
Arguments locals {L} _.

(** A computation that reads and writes the state and returns a value or
    raises. *)
Definition M (L A : Type) : Type := stage_state L → (exn + A) * stage_state L.

Definition ret {L A} (a : A) : M L A := λ s, (inr a, s).

Definition bind {L A B} (m : M L A) (k : A → M L B) : M L B :=
  λ s, match m s with
       | (inl e, s') => (inl e, s')
       | (inr a, s') => k a s'
       end.

Definition raise {L A} (e : exn) : M L A := λ s, (inl e, s).

(** [try: body except Exception as e: handler e] *)
Definition try_except {L A} (body : M L A) (handler : exn → M L A) : M L A :=
  λ s, match body s with
       | (inl e, s') => handler e s'
       | (inr a, s') => (inr a, s')
       end.

#[global] Instance M_ret {L} : MRet (M L) := λ A, ret.
#[global] Instance M_bind {L} : MBind (M L) := λ A B k m, bind m k.

(** An assignment to a key of [jobs_status[job_id]], or one [update]
    call on it. *)
Definition write {L} (f : job_entry → job_entry) : M L unit :=
  λ s, let e := f (entry s) in
       (inr tt, StageState e (written s ++ [e]) (visible s) (locals s)).

(** Reading and assigning local variables. *)
Definition get {L} : M L L := λ s, (inr (locals s), s).
Definition modify {L} (f : L → L) : M L unit :=
  λ s, (inr tt, StageState (entry s) (written s) (visible s) (f (locals s))).

(** The outcome of a call that does not touch the state. *)
Definition call {L A} (r : exn + A) : M L A := λ s, (r, s).

(** [await f(...)]: the task is suspended, the entry is visible as it is,
    and the call gives [r]. *)
Definition await {L A} (r : exn + A) : M L A :=
  λ s, (r, StageState (entry s) (written s) (visible s ++ [entry s]) (locals s)).

(** [for i, x in enumerate(xs): body], counting from [i]. *)
Fixpoint for_each {L X} (body : nat → X → M L unit) (i : nat) (xs : list X)
  : M L unit :=
  match xs with
  | [] => ret tt
  | x :: xs' => body i x;; for_each body (S i) xs'
  end.

(** [int(q)]: truncation towards zero. *)
Definition py_int (q : Q) : Z := Z.quot (Qnum q) (Z.pos (Qden q)).

Definition Qnat (n : nat) : Q := inject_Z (Z.of_nat n).

(** [progress_callback(message, progress)]; the calls of the source pass
    no further keyword. *)
Definition progress_callback {L} (msg : pystr) (p : Z) : M L unit :=
  write (λ e, set_progress p (set_message msg e)).

(** *** Acquisition: [discover_and_download_pdfs] *)

(** The methods of a downloader object that the task calls, on a
    downloader state [D].  [UFLSyllabiDownloader] (the Arts downloader) is
    not part of the sources; it enters through this interface. *)
Record downloader_ops (D : Type) := {
  get_semester_links : D → (exn + list pystr) * D;
  get_pdf_links : pystr → D → (exn + list pdf_info) * D;
  download : pdf_info → D → (exn + bool) * D;
}.
Arguments get_semester_links {D} _.
Arguments get_pdf_links {D} _.
Arguments download {D} _.

(** The local variables of the task; [download_calls] lists the arguments
    of the [download_pdf] calls made so far. *)
Record discover_locals (D : Type) := DiscoverLocals {
  downloader : D;
  all_pdf_links : list pdf_info;
  successful_downloads : nat;
  download_calls : list pdf_info;
}.
Arguments DiscoverLocals {D} _ _ _ _.
Arguments downloader {D} _.
Arguments all_pdf_links {D} _.
Arguments successful_downloads {D} _.
Arguments download_calls {D} _.

Section Discover.
Context {D : Type} (ops : downloader_ops D).

(** A method call on the downloader object. *)
Definition method {A} (op : D → (exn + A) * D) : M (discover_locals D) A :=
  λ s, let l := locals s in
       let '(r, d') := op (downloader l) in
       (r, StageState (entry s) (written s) (visible s)
             (DiscoverLocals d' (all_pdf_links l) (successful_downloads l)
                (download_calls l))).

Definition set_all_pdf_links (v : list pdf_info)
  : M (discover_locals D) unit :=
  modify (λ l, DiscoverLocals (downloader l) v (successful_downloads l)
                 (download_calls l)).

Definition set_successful_downloads (v : nat) : M (discover_locals D) unit :=
  modify (λ l, DiscoverLocals (downloader l) (all_pdf_links l) v
                 (download_calls l)).

(** [downloader.download_pdf(pdf_info)] *)
Definition call_download_pdf (pdf_info : pdf_info)
  : M (discover_locals D) bool :=
  modify (λ l, DiscoverLocals (downloader l) (all_pdf_links l)
                 (successful_downloads l) (download_calls l ++ [pdf_info]));;
  method (download ops pdf_info).

Definition target_url : pystr :=
  lit "https://polisci.ufl.edu/dept-resources/syllabi/fall-2025/".

(** The scan of the Arts pages. *)
Definition scan_page (n : nat) (i : nat) (semester_url : pystr)
  : M (discover_locals D) unit :=
  pdf_links ← method (get_pdf_links ops semester_url);
  l ← get;
  set_all_pdf_links (all_pdf_links l ++ pdf_links);;
  let progress := (20 + 30 * Qnat (i + 1) / Qnat n)%Q in
  progress_callback
    (lit "Scanned " ++ str_nat (i + 1) ++ lit "/" ++ str_nat n ++ lit " pages")
    (py_int progress).

(** The body of the download loop for the reference number [i] of [n]. *)
Definition download_one (n : nat) (i : nat) (pdf_info : pdf_info)
  : M (discover_locals D) unit :=
  try_except
    (let start_progress := (50 + 40 * Qnat i / Qnat n)%Q in
     let end_progress := (50 + 40 * Qnat (i + 1) / Qnat n)%Q in
     let current_progress (step : nat) :=
       (start_progress + (end_progress - start_progress) * Qnat step / 3)%Q in
     (* for step in range(3): steps 0 and 1 report, step 2 only sleeps *)
     progress_callback
       (lit "Starting download " ++ str_nat (i + 1) ++ lit "/" ++ str_nat n
          ++ lit ": " ++ title pdf_info)
       (py_int (current_progress 0));;
     progress_callback
       (lit "Downloading " ++ str_nat (i + 1) ++ lit "/" ++ str_nat n
          ++ lit ": " ++ title pdf_info)
       (py_int (current_progress 1));;
     success ← call_download_pdf pdf_info;
     l ← get;
     (if success : bool
      then set_successful_downloads (successful_downloads l + 1)
      else ret tt);;
     l ← get;
     write (set_files_downloaded (successful_downloads l));;
     progress_callback
       (lit "Downloaded " ++ str_nat (successful_downloads l) ++ lit "/"
          ++ str_nat n ++ lit " files")
       (py_int end_progress))
    (λ e,
     let progress := (50 + 40 * Qnat (i + 1) / Qnat n)%Q in
     l ← get;
     write (set_files_downloaded (successful_downloads l));;
     progress_callback
       (lit "Downloaded " ++ str_nat (successful_downloads l) ++ lit "/"
          ++ str_nat n ++ lit " files")
       (py_int progress)).

(** The [try] block of the task. *)
Definition discover_try (is_polisci : bool) (url : pystr)
  : M (discover_locals D) unit :=
  write (set_status downloading);;
  write (set_message (lit "Discovering PDF files..."));;
  write (set_progress 10);;
  (if is_polisci then
     links ← method (get_pdf_links ops target_url);
     set_all_pdf_links links;;
     progress_callback
       (lit "Found " ++ str_nat (length links) ++ lit " Political Science PDFs")
       50
   else
     semester_links ← method (get_semester_links ops);
     let semester_links :=
       match semester_links with [] => [url] | _ => semester_links end in
     set_all_pdf_links [];;
     progress_callback (lit "Scanning for PDF files...") 20;;
     for_each (scan_page (length semester_links)) 0 semester_links;;
     l ← get;
     set_all_pdf_links (unique_by_url (all_pdf_links l)));;
  l ← get;
  let all_links := all_pdf_links l in
  write (set_files_found (length all_links));;
  progress_callback
    (lit "Found " ++ str_nat (length all_links) ++ lit " PDF files") 50;;
  (* Limit downloads based on department *)
  let limited_pdf_links :=
    if is_polisci then all_links else slice_to 5 all_links in
  progress_callback
    (if is_polisci
     then lit "Political Science: Ready to download "
            ++ str_nat (length limited_pdf_links) ++ lit " files"
     else lit "Arts: Ready to download "
            ++ str_nat (length limited_pdf_links) ++ lit " files (limited from "
            ++ str_nat (length all_links) ++ lit " found)")
    50;;
  set_successful_downloads 0;;
  for_each (download_one (length limited_pdf_links)) 0 limited_pdf_links;;
  l ← get;
  write (set_files_downloaded (successful_downloads l));;
  write (set_status completed);;
  write (set_progress 100);;
  write (set_message
           ((if is_polisci then lit "Political Science download complete! "
             else lit "Arts download complete! ")
              ++ str_nat (successful_downloads l) ++ lit "/"
              ++ str_nat (length limited_pdf_links)
              ++ lit " files downloaded")).

Definition discover_task (is_polisci : bool) (url : pystr)
  : M (discover_locals D) unit :=
  try_except (discover_try is_polisci url)
    (λ e,
     write (set_status error);;
     write (set_message (lit "Error: " ++ str_exn e));;
     write (set_progress 0)).

(** The downloader object after the [download_pdf] calls for [refs]. *)
Definition download_all (refs : list pdf_info) (d : D) : D :=
  foldl (λ d pdf_info, (download ops pdf_info d).2) d refs.

(** The task on a job entry [e] and a new downloader object [d]. *)
Definition start_discover (e : job_entry) (d : D)
  : stage_state (discover_locals D) :=
  StageState e [] [] (DiscoverLocals d [] 0 []).

End Discover.

(** The methods of [CustomPoliticalScienceDownloader], which inherits them
    from [UFLPoliticalScienceDownloader]; it is created with
    [max_downloads=5].  [scrape u] is what the scan of the page at [u]
    collects. *)
Definition polisci_ops `{PyRuntime} (net : pystr → net_result)
    (scrape : pystr → option (list pdf_info)) : downloader_ops dl_state :=
  {| get_semester_links := λ d, (inl (Exception (lit "AttributeError")), d);
     get_pdf_links := λ u d, (inr (get_pdf_links_from_page 5 (scrape u)), d);
     download := λ info d,
       match download_pdf net info d with
       | Some (ok, d') => (inr ok, d')
       | None => (inl (Exception []), d)   (* does not occur *)
       end |}.

(** A new [UFLPoliticalScienceDownloader] on a folder. *)
Definition new_polisci (files : gmap pystr (list Byte.byte)) : dl_state :=
  {| downloaded_files := ∅; folder := files; trace := [] |}.

(** The number of requests sent so far. *)
Definition is_request (ev : event) : bool :=
  match ev with Requested _ => true | _ => false end.
Definition requests (st : dl_state) : nat :=
  length (List.filter is_request (trace st)).

(** What the task leaves behind: the job entry with its history and the
    download calls it made. *)
Definition forget_downloader {D} (r : (exn + unit) * stage_state (discover_locals D))
  : (exn + unit) * stage_state (list pdf_info) :=
  (r.1, StageState (entry r.2) (written r.2) (visible r.2)
          (download_calls (locals r.2))).

(** [discover_and_download_pdfs(url, job_id, download_folder, department)]
    on the entry [e] of the job; [files] are the files of the download
    folder, [arts] and [new_arts url] stand for [CustomDownloader]. *)
Definition discover_and_download_pdfs `{PyRuntime} {DA}
    (arts : downloader_ops DA) (new_arts : pystr → DA)
    (net : pystr → net_result) (scrape : pystr → option (list pdf_info))
    (files : gmap pystr (list Byte.byte))
    (url department : pystr) (e : job_entry)
  : (exn + unit) * stage_state (list pdf_info) :=
  if py_eqb department (lit "polisci")
  then forget_downloader
         (discover_task (polisci_ops net scrape) true url
            (start_discover e (new_polisci files)))
  else forget_downloader
         (discover_task arts false url (start_discover e (new_arts url))).

(** *** Metadata records *)

(** A value of a reading-material entry: a string or [None]. *)
Inductive pyval := VNone | VStr (s : pystr).

#[global] Instance pyval_eq_dec : EqDecision pyval.
Proof. solve_decision. Defined.

(** An element of a reading-materials list: a dict, or anything else,
    given by its [str()]. *)
Inductive material :=
| MDict (d : gmap pystr pyval)
| MOther (s : pystr).

(** A metadata value: a string, or the list of reading materials. *)
Inductive mvalue :=
| MStr (s : pystr)
| MList (l : list material).

Record resource := { res_title : pystr; res_availability : pystr }.
Record library_match := { lm_matches : list resource }.

(** The dict stored under ['primo_check']. *)
Record primo_result := {
  found : bool;
  check_error : option pystr;
  library_matches : list library_match;
}.

(** An element of a results file. *)
Record result := {
  r_filename : pystr;
  r_metadata : gmap pystr mvalue;
  r_primo_check : option primo_result;
  r_library_matches : option (list library_match);
}.

Definition unknown : mvalue := MStr (lit "Unknown").

(** *** Extraction: [extract_metadata_background] *)

Section Extraction.
(** The four functions that [get_extraction_functions()] returns, and
    the writing of a results file ([open] and [json.dump]). *)
Variable extract_text_func : pystr → exn + pystr.
Variable llm_extract_func : pystr → exn + gmap pystr mvalue.
Variable heuristic_func : pystr → exn + gmap pystr mvalue.
Variable extract_tables_func : pystr → exn + list pystr.
Variable save_json : pystr → list result → exn + unit.

(** [metadata = {}; for field in selected_fields: metadata[field] = "Unknown"] *)
Definition unknown_metadata (selected_fields : list pystr)
  : gmap pystr mvalue :=
  foldl (λ metadata field, <[field := unknown]> metadata) ∅ selected_fields.

(** Filter to selected fields only. *)
Definition filter_selected (selected_fields : list pystr)
    (metadata : gmap pystr mvalue) : gmap pystr mvalue :=
  foldl (λ filtered_metadata field,
           match metadata !! field with
           | Some v => <[field := v]> filtered_metadata
           | None => <[field := unknown]> filtered_metadata
           end) ∅ selected_fields.

(** Extract tables and enhance text. *)
Definition enhance_text (pdf_path text : pystr) : pystr :=
  match extract_tables_func pdf_path with
  | inr (t :: ts) =>
      text ++ nl ++ nl ++ lit "# TABLES (markdown format)" ++ nl
        ++ py_join (nl ++ nl) (t :: ts)
  | inr [] => text
  | inl _ => text
  end.

Definition processing_message (pdf_path : pystr) (i n : nat) (what : pystr)
  : pystr :=
  lit "Processing " ++ pdf_path ++ lit " (" ++ str_nat (i + 1) ++ lit "/"
    ++ str_nat n ++ lit ") - " ++ what.

(** Try AI extraction first, fall back to heuristic. *)
Definition extract_with_fallback (selected_fields : list pystr)
    (pdf_path : pystr) (i n : nat) (text : pystr)
  : M (list result) (gmap pystr mvalue) :=
  try_except
    (call (llm_extract_func text))
    (λ e,
     write (set_message
              (processing_message pdf_path i n
                 (lit "Using fallback extraction...")));;
     try_except
       (call (heuristic_func text))
       (λ fallback_error, mret (unknown_metadata selected_fields))).

(** The body of the loop over the PDF files. *)
Definition process_file (selected_fields : list pystr) (n : nat) (i : nat)
    (pdf_path : pystr) : M (list result) unit :=
  try_except
    (let progress := py_int (Qnat i / Qnat n * 90)%Q in
     write (set_progress progress);;
     write (set_message
              (processing_message pdf_path i n (lit "Extracting text...")));;
     write (set_files_processed i);;
     text ← call (extract_text_func pdf_path);
     match text with
     | [] => mret tt                  (* if not text: continue *)
     | _ =>
         let text := enhance_text pdf_path text in
         let progress := py_int (Qnat i / Qnat n * 90 + 5)%Q in
         write (set_progress progress);;
         write (set_message
                  (processing_message pdf_path i n
                     (lit "Extracting metadata with AI...")));;
         metadata ← extract_with_fallback selected_fields pdf_path i n text;
         let filtered_metadata := filter_selected selected_fields metadata in
         modify (λ results,
                 results ++ [ {| r_filename := pdf_path;
                                 r_metadata := filtered_metadata;
                                 r_primo_check := None;
                                 r_library_matches := None |} ]);;
         let completed_progress := py_int (Qnat (i + 1) / Qnat n * 90)%Q in
         write (set_progress completed_progress);;
         write (set_message
                  (lit "Completed " ++ pdf_path ++ lit " (" ++ str_nat (i + 1)
                     ++ lit "/" ++ str_nat n ++ lit ") - Moving to next file..."));;
         write (set_files_processed (i + 1))
     end)
    (λ e,
     let completed_progress := py_int (Qnat (i + 1) / Qnat n * 90)%Q in
     write (set_progress completed_progress);;
     write (set_message
              (lit "Error processing " ++ pdf_path ++ lit " (" ++ str_nat (i + 1)
                 ++ lit "/" ++ str_nat n ++ lit ") - Continuing..."));;
     write (set_files_processed (i + 1))).

Definition process_files (selected_fields : list pystr) (pdf_files : list pystr)
  : M (list result) unit :=
  for_each (process_file selected_fields (length pdf_files)) 0 pdf_files.

Definition metadata_file (job_id : pystr) : pystr :=
  job_id ++ lit "_metadata.json".

(** The task; [pdf_files] is [list(job_folder.glob("*.pdf"))]. *)
Definition extract_metadata_background (job_id : pystr)
    (selected_fields : list pystr) (pdf_files : list pystr)
  : M (list result) unit :=
  try_except
    (match pdf_files with
     | [] =>
         write (set_status error);;
         write (set_message (lit "No PDF files found"))
     | _ =>
         process_files selected_fields pdf_files;;
         results ← get;
         call (save_json (metadata_file job_id) results);;
         write (set_status completed);;
         write (set_progress 100);;
         write (set_message
                  (lit "Metadata extraction complete! Processed "
                     ++ str_nat (length results) ++ lit " files"));;
         write (set_files_processed (length results));;
         write (set_results_file (metadata_file job_id))
     end)
    (λ e,
     write (set_status error);;
     write (set_message (lit "Error: " ++ str_exn e))).

End Extraction.

(** *** Requests *)

(** A scheduled background task. *)
Inductive task :=
| ExtractTask (job_id : pystr) (selected_fields : list pystr)
| PrimoTask (job_id : pystr).

(** The answer to a request: a raised [HTTPException] or the returned
    dict with its keys ['status'] and ['message']. *)
Inductive response :=
| HTTPException (status_code : Z) (detail : pystr)
| Reply (status_key message_key : pystr).

(** What a results file holds when it is read. *)
Inductive json_file :=
| NotJson                      (* [json.load] raises JSONDecodeError *)
| Unreadable (e : exn)         (* reading raises something else *)
| Records (results : list result).

(** The server: the global [jobs_status], the tasks handed to
    [background_tasks.add_task], the folders under [DOWNLOADS_DIR] with
    their PDF files, and the files under [RESULTS_DIR]. *)
Record server := {
  jobs_status : gmap pystr job_entry;
  background_tasks : list task;
  downloads_dir : gmap pystr (list pystr);
  results_dir : gmap pystr json_file;
}.


Definition add_task (t : task) (sv : server) : server :=
  {| jobs_status := jobs_status sv;
     background_tasks := background_tasks sv ++ [t];
     downloads_dir := downloads_dir sv;
     results_dir := results_dir sv |}.


(** [POST /api/check-primo/{job_id}] *)
Definition check_primo_resources `{PyRuntime} (job_id : pystr) (sv : server)
  : response * server :=
  match jobs_status sv !! job_id with
  | None => (HTTPException 404 (lit "Job not found"), sv)
  | Some job =>
      (* Check if job is already processing library matching *)
      let current_status := status job in
      let current_message := message job in
      if bool_decide (current_status = processing)
         && (contains current_message (lit "Primo")
             || contains (lower current_message) (lit "library"))
      then (Reply (lit "already_running")
              (lit "Library matching is already in progress"), sv)
      else
        match results_dir sv !! metadata_file job_id with
        | None =>
            (HTTPException 404
               (lit "Metadata results not found. Please ensure metadata extraction completed successfully."),
             sv)
        | Some NotJson =>
            (HTTPException 400 (lit "Invalid metadata results file"), sv)
        | Some (Unreadable e) =>
            (HTTPException 500
               (lit "Error reading metadata results: " ++ str_exn e), sv)
        | Some (Records []) =>
            (* the HTTPException(400) raised in the [try] is caught by
               its [except Exception] *)
            (HTTPException 500
               (lit "Error reading metadata results: 400: No metadata results found to process"),
             sv)
        | Some (Records _) =>
            (Reply (lit "started")
               (lit "Library resource matching started successfully"),
             add_task (PrimoTask job_id) sv)
        end
  end.

(** *** Cross-reference: [check_primo_background] *)

Record primo_locals := PrimoLocals {
  results : list result;
  processed_files : nat;
  successful_matches : nat;
}.

Section Primo.
(** [check_metadata_availability] of the catalogue integration, and the
    writing of a results file. *)
Variable check_metadata_availability : gmap pystr mvalue → exn + primo_result.
Variable save_json : pystr → list result → exn + unit.

(** Truth value of [metadata.get('reading_materials', [])]. *)
Definition has_materials (metadata : gmap pystr mvalue) : bool :=
  match metadata !! lit "reading_materials" with
  | None | Some (MStr []) | Some (MList []) => false
  | Some _ => true
  end.

(** [result['primo_check'] = check; result['library_matches'] = matches]
    on the element number [i] of [results]. *)
Definition annotate (i : nat) (check : primo_result)
    (matches : list library_match) : M primo_locals unit :=
  modify (λ l,
    PrimoLocals
      (alter (λ r, {| r_filename := r_filename r; r_metadata := r_metadata r;
                      r_primo_check := Some check;
                      r_library_matches := Some matches |}) i (results l))
      (processed_files l) (successful_matches l)).

Definition count_processed : M primo_locals unit :=
  modify (λ l, PrimoLocals (results l) (processed_files l + 1)
                 (successful_matches l)).

Definition count_match : M primo_locals unit :=
  modify (λ l, PrimoLocals (results l) (processed_files l)
                 (successful_matches l + 1)).

(** The body of the loop over the results. *)
Definition check_one (total_files : nat) (i : nat) (r : result)
  : M primo_locals unit :=
  try_except
    (let progress := py_int (Qnat i / Qnat total_files * 90)%Q in
     write (set_progress progress);;
     write (set_message
              (lit "Checking resources for " ++ r_filename r ++ lit " ("
                 ++ str_nat (i + 1) ++ lit "/" ++ str_nat total_files
                 ++ lit ")"));;
     if negb (has_materials (r_metadata r)) then
       annotate i
         {| found := false;
            check_error := Some (lit "No reading materials found in metadata");
            library_matches := [] |} []      (* continue *)
     else
       primo_result ← await (check_metadata_availability (r_metadata r));
       annotate i primo_result (library_matches primo_result);;
       (match library_matches primo_result with
        | [] => mret tt
        | _ => count_match
        end);;
       count_processed)
    (λ e,
     annotate i
       {| found := false;
          check_error := Some (lit "API error: " ++ str_exn e);
          library_matches := [] |} [];;
     count_processed).

Definition primo_file (job_id : pystr) : pystr :=
  job_id ++ lit "_primo_results.json".

(** The task; [file] is the state of the metadata results file when the
    task reads it. *)
Definition check_primo_background (job_id : pystr) (file : option json_file)
  : M primo_locals unit :=
  try_except
    (match file with
     | None =>
         write (set_status error);;
         write (set_message (lit "Metadata results file not found"))
     | Some NotJson => raise JSONDecodeError
     | Some (Unreadable e) => raise e
     | Some (Records []) =>
         write (set_status error);;
         write (set_message (lit "No results found to process"))
     | Some (Records rs) =>
         modify (λ _, PrimoLocals rs 0 0);;
         write (set_status processing);;
         write (set_progress 0);;
         write (set_message
                  (lit "Starting library resource matching via Primo API..."));;
         for_each (check_one (length rs)) 0 rs;;
         (* Final processing *)
         write (set_progress 95);;
         write (set_message (lit "Saving library matching results..."));;
         l ← get;
         call (save_json (primo_file job_id) (results l));;
         write (set_status completed);;
         write (set_progress 100);;
         write (set_message
                  (lit "Library matching complete! Found matches for "
                     ++ str_nat (successful_matches l) ++ lit "/"
                     ++ str_nat (processed_files l) ++ lit " syllabi"));;
         write (set_primo_results_file (primo_file job_id))
     end)
    (λ e,
     match e with
     | FileNotFoundError =>
         write (set_status error);;
         write (set_message
                  (lit "Results file not found. Please ensure metadata extraction completed successfully."))
     | JSONDecodeError =>
         write (set_status error);;
         write (set_message
                  (lit "Invalid results file format. Please re-run metadata extraction."))
     | Exception _ =>
         write (set_status error);;
         write (set_message (lit "Library matching failed: " ++ str_exn e))
     end).

End Primo.

(** *** CSV export: the reading-materials columns of
    [generate_csv_from_results] *)

Section Csv.
Context `{PyRuntime}.

(** [str(v)] and the truth value of a [pyval]. *)
Definition str_val (v : pyval) : pystr :=
  match v with VNone => lit "None" | VStr s => s end.
Definition truthy (v : pyval) : bool :=
  match v with VNone | VStr [] => false | VStr _ => true end.

(** [item.get(key, dflt)] *)
Definition item_get (item : gmap pystr pyval) (key : pystr) (dflt : pyval)
  : pyval :=
  default dflt (item !! key).

(** The rendering of a dict item. *)
Definition material_str (item : gmap pystr pyval) : pystr :=
  let title := item_get item (lit "title") (VStr (lit "Unknown Title")) in
  let author :=
    (* item.get('creator') or item.get('author', '') *)
    if truthy (item_get item (lit "creator") VNone)
    then item_get item (lit "creator") VNone
    else item_get item (lit "author") (VStr []) in
  let material_type := item_get item (lit "type") (VStr (lit "book")) in
  let url := item_get item (lit "url") (VStr []) in
  let material_str := str_val title in
  let material_str :=
    if truthy author then material_str ++ lit " by " ++ str_val author
    else material_str in
  let material_str := material_str ++ lit " (" ++ str_val material_type ++ lit ")" in
  if truthy url
     && negb (bool_decide (lower (str_val url)
                             ∈ [lit "unknown"; lit "none"; lit ""]))
  then material_str ++ lit " [URL: " ++ str_val url ++ lit "]"
  else material_str.

Definition is_required (item : gmap pystr pyval) : bool :=
  bool_decide (item_get item (lit "requirement") (VStr (lit "optional"))
               = VStr (lit "required")).

(** The three lists built by the loop over the items. *)
Record material_lists := {
  required_list : list pystr;
  optional_list : list pystr;
  all_list : list pystr;
}.

Definition add_material (acc : material_lists) (item : material)
  : material_lists :=
  match item with
  | MDict d =>
      let material_str := material_str d in
      if is_required d
      then {| required_list := required_list acc ++ [material_str];
              optional_list := optional_list acc;
              all_list := all_list acc ++ [material_str] |}
      else {| required_list := required_list acc;
              optional_list := optional_list acc ++ [material_str];
              all_list := all_list acc ++ [material_str] |}
  | MOther s =>
      {| required_list := required_list acc;
         optional_list := optional_list acc ++ [s];
         all_list := all_list acc ++ [s] |}
  end.

(** The items the loop sees: the elements of a list, the characters of
    a string. *)
Definition items_of (v : mvalue) : list material :=
  match v with
  | MList l => l
  | MStr s => (λ c, MOther [c]) <$> s
  end.

(** The four reading-materials cells of a row. *)
Record materials_columns := {
  reading_materials_count : nat;
  required_materials : pystr;
  optional_materials : pystr;
  reading_materials_list : pystr;
}.

Definition reading_materials_columns (r : result) : materials_columns :=
  let metadata := r_metadata r in
  match metadata !! lit "reading_materials" with
  | None | Some (MStr []) | Some (MList []) =>
      {| reading_materials_count := 0; required_materials := [];
         optional_materials := []; reading_materials_list := [] |}
  | Some reading_materials =>
      let lists :=
        foldl add_material
          {| required_list := []; optional_list := []; all_list := [] |}
          (items_of reading_materials) in
      {| reading_materials_count := length (items_of reading_materials);
         required_materials := py_join (lit "; ") (required_list lists);
         optional_materials := py_join (lit "; ") (optional_list lists);
         reading_materials_list := py_join (lit "; ") (all_list lists) |}
  end.

End Csv.

End App.

(** ** Concrete data on which the code is run *)

Module Examples.
Import Downloader.

(** Two references with the same title and a third with a short one. *)
Definition ref_one : pdf_info :=
  {| url := lit "https://x.org/a/one.pdf"; title := lit "Intro to Politics" |}.
Definition ref_two : pdf_info :=
  {| url := lit "https://x.org/a/two.pdf"; title := lit "Intro to Politics" |}.
Definition ref_three : pdf_info :=
  {| url := lit "https://x.org/a/three.pdf"; title := lit "short" |}.

Definition name_one : pystr := lit "polisci_Intro to Politics.pdf".
Definition name_two : pystr := lit "polisci_Intro to Politics_1.pdf".

(** A server that answers every request with a PDF, and one that answers
    with a short HTML page. *)
Definition pdf_body : list Byte.byte := replicate 2048 Byte.x25.
Definition serves_pdf (u : pystr) : net_result :=
  Response (Some (lit "application/pdf")) pdf_body.
Definition serves_html (u : pystr) : net_result :=
  Response (Some (lit "text/html; charset=utf-8")) [Byte.x3c].

(** A new downloader object on an empty folder, and one on a folder that
    already has the first file. *)
Definition fresh : dl_state :=
  {| downloaded_files := ∅; folder := ∅; trace := [] |}.
Definition with_one : dl_state :=
  {| downloaded_files := ∅; folder := {[ name_one := pdf_body ]}; trace := [] |}.

(** An interleaving of two workers in which the second claims its name
    while the first is still transferring. *)
Definition interleaved : list nat := [0; 1; 0; 0; 1; 1; 1; 1; 0; 1].

Import App.

(** A job after a completed acquisition of one file. *)
Definition job : pystr := lit "job-1".

Definition acquired : job_entry :=
  {| status := completed; progress := 100;
     message := lit "Political Science download complete! 1/1 files downloaded";
     files_found := Some 1; files_downloaded := Some 1;
     files_processed := None; selected_fields := None;
     results_file := None; primo_results_file := None |}.

Definition fields : list pystr := [lit "year"; lit "reading_materials"].

(** The entry after an accepted extraction request. *)
Definition extracting : job_entry :=
  set_selected_fields fields
    (set_message (lit "Starting metadata extraction...")
       (set_progress 0 (set_status processing acquired))).

(** Extractors that work, and the writing of results files that works or
    fails. *)
Definition a_book : gmap pystr pyval :=
  {[ lit "title" := VStr (lit "The Prince");
     lit "creator" := VStr (lit "Machiavelli");
     lit "requirement" := VStr (lit "required") ]}.
Definition an_article : gmap pystr pyval :=
  {[ lit "title" := VStr (lit "Notes");
     lit "type" := VStr (lit "article");
     lit "requirement" := VStr (lit "recommended") ]}.

Definition extracted : gmap pystr mvalue :=
  {[ lit "year" := MStr (lit "2025");
     lit "semester" := MStr (lit "Fall");
     lit "reading_materials" := MList [MDict a_book; MDict an_article] ]}.

Definition text_ok (pdf_path : pystr) : exn + pystr :=
  inr (lit "POS 2041 American Federal Government").
Definition tables_none (pdf_path : pystr) : exn + list pystr := inr [].
Definition llm_ok (text : pystr) : exn + gmap pystr mvalue := inr extracted.
Definition heuristic_down (text : pystr) : exn + gmap pystr mvalue :=
  inl (Exception (lit "no match")).
Definition save_ok (file : pystr) (rs : list result) : exn + unit := inr tt.
Definition save_fails (file : pystr) (rs : list result) : exn + unit :=
  inl (Exception (lit "No space left on device")).

(** A folder of nineteen PDF files. *)
Definition nineteen : list pystr :=
  (λ i, lit "polisci_" ++ str_nat i ++ lit ".pdf") <$> seq 1 19.

(** The record of the one file, as the extraction stage stores it. *)
Definition stored : result :=
  {| r_filename := name_one;
     r_metadata := {[ lit "year" := MStr (lit "2025");
                      lit "reading_materials" :=
                        MList [MDict a_book; MDict an_article] ]};
     r_primo_check := None; r_library_matches := None |}.

(** The entry after a completed extraction. *)
Definition extracted_entry : job_entry :=
  set_results_file (metadata_file job)
    (set_files_processed 1
       (set_message (lit "Metadata extraction complete! Processed 1 files")
          (set_progress 100 (set_status completed extracting)))).

(** A catalogue that finds one match. *)
Definition catalogue (metadata : gmap pystr mvalue) : exn + primo_result :=
  inr {| found := true; check_error := None;
         library_matches :=
           [ {| lm_matches := [ {| res_title := lit "The Prince";
                                   res_availability := lit "available" |} ] |} ] |}.

(** The server while the cross-reference task of the job is suspended in
    its call of the catalogue, and the server with the job acquired into
    a folder without any PDF. *)
Definition in_flight_message : pystr :=
  lit "Checking resources for polisci_Intro to Politics.pdf (1/1)".

Definition in_flight : job_entry :=
  set_message in_flight_message
    (set_progress 0 (set_status processing extracted_entry)).

Definition server_in_flight : server :=
  {| jobs_status := {[ job := in_flight ]};
     background_tasks := [PrimoTask job];
     downloads_dir := {[ job := [name_one] ]};
     results_dir := {[ metadata_file job := Records [stored] ]} |}.



End Examples.

(** ** Further definitions: helpers of the statements below and the rest
    of the two source files *)

From Stdlib Require Import Sorted Qround Lqa.
From stdpp Require Import sorting.

Module More.
Import Downloader App.

(** A string without its last character when that is whitespace. *)
Definition strip_end (s : pystr) : pystr :=
  match last s with
  | Some c => if isspace c then removelast s else s
  | None => s
  end.

(** *** More on the concurrent calls *)

(** The worker has left [download_pdf]. *)
Definition finished (p : pc) : bool :=
  match p with
  | Returned _ _ => true
  | _ => false
  end.

Record inv_more (m : machine) : Prop := {
  (* the lock is owned by a worker inside the first block only *)
  more_owner : ∀ t,
    lock (sh m) = Some t → ∃ p, threads m !! t = Some p ∧ in_critical p;
  (* the file a worker is about to fetch is not in the folder *)
  more_unwritten : ∀ t info f,
    threads m !! t = Some (Fetching info f) →
    folder (obj (sh m)) !! f = None;
}.

(** *** More on the CSV export *)

Section MoreCsv.
Context `{PyRuntime}.

(** The text an item of a reading-materials list contributes, and
    whether it is put on the list of required materials. *)
Definition rendering (item : material) : pystr :=
  match item with
  | MDict d => material_str d
  | MOther s => s
  end.

Definition required_item (item : material) : bool :=
  match item with
  | MDict d => is_required d
  | MOther _ => false
  end.

(** The library-matching columns of [generate_csv_from_results].  A
    match is a dict with the key ['matches'], a resource a dict with the
    keys ['title'] and ['availability']. *)
Record resource_lists := {
  available_list : list pystr;
  unavailable_list : list pystr;
}.

Definition add_resource (acc : resource_lists) (res : resource)
  : resource_lists :=
  let title := res_title res in
  let availability := res_availability res in
  if py_eqb availability (lit "available")
  then {| available_list := available_list acc ++ [title];
          unavailable_list := unavailable_list acc |}
  else {| available_list := available_list acc;
          unavailable_list :=
            unavailable_list acc
              ++ [title ++ lit " (" ++ availability ++ lit ")"] |}.

Definition add_match (acc : resource_lists) (m : library_match)
  : resource_lists :=
  foldl add_resource acc (lm_matches m).

Record library_columns := {
  library_matches_count : nat;
  available_resources : pystr;
  unavailable_resources : pystr;
}.

Definition library_matching_columns (r : result) : library_columns :=
  match r_library_matches r with
  | None | Some [] =>
      {| library_matches_count := 0; available_resources := [];
         unavailable_resources := [] |}
  | Some library_matches =>
      let lists :=
        foldl add_match {| available_list := []; unavailable_list := [] |}
          library_matches in
      {| library_matches_count := length library_matches;
         available_resources := py_join (lit "; ") (available_list lists);
         unavailable_resources := py_join (lit "; ") (unavailable_list lists) |}
  end.

(** Whether a resource is listed as available, and the text of one that
    is not. *)
Definition is_available (res : resource) : bool :=
  py_eqb (res_availability res) (lit "available").

Definition unavailable_text (res : resource) : pystr :=
  res_title res ++ lit " (" ++ res_availability res ++ lit ")".

End MoreCsv.

(** *** More on the acquisition *)

(** The number of [download_pdf] calls that return [True] when the
    references are downloaded in order, starting from the downloader
    object [d]: what the loop adds to [successful_downloads]. *)
Fixpoint count_successes {D} (ops : downloader_ops D)
    (refs : list pdf_info) (d : D) : nat :=
  match refs with
  | [] => 0
  | pdf_info :: refs' =>
      match download ops pdf_info d with
      | (inr true, d') => 1 + count_successes ops refs' d'
      | (_, d') => count_successes ops refs' d'
      end
  end.

(** *** The fallback functions of [get_extraction_functions]

    When the extractor module cannot be imported the four functions are
    [basic_extract_text] (which reads the text with the PDF library and
    stays a parameter), [no_llm_extract], [basic_heuristic] and
    [no_tables]. *)

Definition no_llm_extract (text : pystr) : exn + gmap pystr mvalue :=
  inl (Exception
         (lit "OpenAI LLM extraction not available - missing dependencies or API key")).

Definition basic_heuristic (text : pystr) : exn + gmap pystr mvalue :=
  inr (<[lit "year" := unknown]>
       (<[lit "semester" := unknown]>
       (<[lit "class_name" := unknown]>
       (<[lit "class_number" := unknown]>
       (<[lit "instructor" := unknown]>
       (<[lit "university" := unknown]>
       (<[lit "department" := unknown]>
       (<[lit "main_topic" := unknown]>
       (<[lit "reading_materials" := MList []]> ∅))))))))).

Definition no_tables (pdf_path : pystr) : exn + list pystr := inr [].

(** *** More on the cross-reference *)

Section MorePrimo.
Variable check_metadata_availability : gmap pystr mvalue → exn + primo_result.

(** What the body of the loop stores under ['primo_check'] and under
    ['library_matches'] for a record. *)
Definition check_outcome (r : result) : primo_result * list library_match :=
  if negb (has_materials (r_metadata r))
  then ({| found := false;
           check_error := Some (lit "No reading materials found in metadata");
           library_matches := [] |}, [])
  else
    match check_metadata_availability (r_metadata r) with
    | inr primo_result => (primo_result, library_matches primo_result)
    | inl e =>
        ({| found := false;
            check_error := Some (lit "API error: " ++ str_exn e);
            library_matches := [] |}, [])
    end.

Definition checked (r : result) : result :=
  {| r_filename := r_filename r;
     r_metadata := r_metadata r;
     r_primo_check := Some (check_outcome r).1;
     r_library_matches := Some (check_outcome r).2 |}.

(** The records that the loop counts in [processed_files]: the catalogue
    is asked about them; and those it counts in [successful_matches]. *)
Definition looked_up (r : result) : bool := has_materials (r_metadata r).

Definition matched (r : result) : bool :=
  has_materials (r_metadata r)
  && match check_metadata_availability (r_metadata r) with
     | inr primo_result =>
         match library_matches primo_result with
         | [] => false
         | _ => true
         end
     | inl _ => false
     end.

End MorePrimo.

(** *** Reading the results: [get_results] and [download_results] *)

(** [json.load] on a results file. *)
Definition json_load (file : json_file) : exn + list result :=
  match file with
  | NotJson => inl JSONDecodeError
  | Unreadable e => inl e
  | Records results => inr results
  end.

(** The answer of an endpoint that returns a value of type [A]: a raised
    [HTTPException], another exception that leaves the handler, or the
    value. *)
Inductive answer (A : Type) :=
| Refused (status_code : Z) (detail : pystr)
| Uncaught (e : exn)
| Answer (a : A).
Arguments Refused {A} _ _.
Arguments Uncaught {A} _.
Arguments Answer {A} _.

(** [GET /api/results/{job_id}]: the value under the key ['results']. *)
Definition get_results (job_id : pystr) (sv : server)
  : answer (list result) :=
  let primo_file := primo_file job_id in
  let regular_file := metadata_file job_id in
  match results_dir sv !! primo_file with
  | Some file =>
      match json_load file with
      | inr results => Answer results
      | inl e => Uncaught e
      end
  | None =>
      match results_dir sv !! regular_file with
      | Some file =>
          match json_load file with
          | inr results => Answer results
          | inl e => Uncaught e
          end
      | None => Refused 404 (lit "Results not found")
      end
  end.

(** [GET /api/download-results/{job_id}]: the path of the file that is
    sent and the name it is sent under. *)
Definition download_results (job_id : pystr) (sv : server)
  : answer (pystr * pystr) :=
  match jobs_status sv !! job_id with
  | None => Refused 404 (lit "Job not found")
  | Some _ =>
      let primo_file := primo_file job_id in
      let regular_file := metadata_file job_id in
      match results_dir sv !! primo_file with
      | Some _ =>
          Answer (primo_file,
                  lit "syllabus_analysis_" ++ job_id ++ lit "_complete.json")
      | None =>
          match results_dir sv !! regular_file with
          | Some _ =>
              Answer (regular_file,
                      lit "syllabus_analysis_" ++ job_id
                        ++ lit "_metadata.json")
          | None => Refused 404 (lit "Results not found")
          end
      end
  end.

(** What [json.dump] into a results file does to the results folder. *)
Definition json_dump (file : pystr) (results : list result) (sv : server)
  : server :=
  {| jobs_status := jobs_status sv;
     background_tasks := background_tasks sv;
     downloads_dir := downloads_dir sv;
     results_dir := <[file := Records results]> (results_dir sv) |}.

(** *** The progress a task reports *)

(** The task has written the entries [old] and then further ones; the
    progress values of these, after the values [base], never decrease,
    the last of them is the progress of the entry, and that is at most
    [b]. *)
Definition rising {L} (base : list Z) (old : list job_entry) (b : Z)
    (s : stage_state L) : Prop :=
  ∃ new,
    written s = old ++ new
    ∧ Sorted Z.le (base ++ (progress <$> new))
    ∧ last (base ++ (progress <$> new)) = Some (progress (entry s))
    ∧ (progress (entry s) ≤ b)%Z.

(** A computation keeps the progress rising, from a bound [b] to a
    bound [b'], whether it returns or raises. *)
Definition climbs {L A} (base : list Z) (old : list job_entry) (b b' : Z)
    (m : M L A) : Prop :=
  ∀ s, rising base old b s → rising base old b' (m s).2.

(** The progress at the start of round [i] of the download loop, of the
    scan of the pages, and of the loops over the files and the records,
    for [n] rounds. *)
Definition download_bound (n i : nat) : Z :=
  py_int (50 + 40 * Qnat i / Qnat n)%Q.
Definition scan_bound (n i : nat) : Z :=
  py_int (20 + 30 * Qnat i / Qnat n)%Q.

(** *** The table of [generate_csv_from_results]

    The function returns the text that [csv.DictWriter] makes of the
    field names and of one dict for each record; the table below is what
    the writer is given. *)

(** [s <= t] on strings: the order of [sorted], by code points. *)
Fixpoint str_leb (s t : pystr) : bool :=
  match s, t with
  | [], _ => true
  | _ :: _, [] => false
  | a :: s', b :: t' => (a <? b)%N || ((a =? b)%N && str_leb s' t')
  end.

Definition str_le (s t : pystr) : Prop := str_leb s t = true.

#[global] Instance str_le_dec : RelDecision str_le.
Proof. intros s t. unfold str_le. apply _. Defined.

(** [sorted(fields)] for a set of strings. *)
Definition sorted (fields : gset pystr) : list pystr :=
  merge_sort str_le (elements fields).

Definition reading_materials_fields : list pystr :=
  [lit "reading_materials_count"; lit "required_materials";
   lit "optional_materials"; lit "reading_materials_list"].

Definition library_fields : list pystr :=
  [lit "library_matches_count"; lit "available_resources";
   lit "unavailable_resources"].

(** Determine all possible fields from all results. *)
Definition all_fields (results : list result) : gset pystr :=
  foldl (λ all_fields result, all_fields ∪ dom (r_metadata result))
        {[lit "filename"]} results.

Definition regular_fields (results : list result) : list pystr :=
  filter (λ f, f ≠ lit "reading_materials") (sorted (all_fields results)).

Definition fieldnames (results : list result) : list pystr :=
  regular_fields results ++ reading_materials_fields ++ library_fields.

Section CsvTable.
Context `{PyRuntime}.
(** [str(d)] for a dict [d]. *)
Variable str_dict : gmap pystr pyval → pystr.

Definition str_material (item : material) : pystr :=
  match item with
  | MDict d => str_dict d
  | MOther s => s
  end.

(** The cell of a regular field, from [metadata.get(field, '')]. *)
Definition regular_cell (value : option mvalue) : pystr :=
  match value with
  | None => []
  | Some (MStr s) => s
  | Some (MList l) => py_join (lit "; ") (str_material <$> l)
  end.

(** The dict [row] of a record. *)
Definition csv_row (regular_fields : list pystr) (r : result)
  : gmap pystr pystr :=
  let row := <[lit "filename" := r_filename r]> ∅ in
  let metadata := r_metadata r in
  let row :=
    foldl (λ row field,
             if decide (field = lit "filename") then row
             else <[field := regular_cell (metadata !! field)]> row)
          row regular_fields in
  let materials := reading_materials_columns r in
  let row := <[lit "reading_materials_count" :=
                 str_nat (reading_materials_count materials)]> row in
  let row := <[lit "required_materials" := required_materials materials]> row in
  let row := <[lit "optional_materials" := optional_materials materials]> row in
  let row := <[lit "reading_materials_list" :=
                 reading_materials_list materials]> row in
  let library := library_matching_columns r in
  let row := <[lit "library_matches_count" :=
                 str_nat (library_matches_count library)]> row in
  let row := <[lit "available_resources" := available_resources library]> row in
  let row := <[lit "unavailable_resources" :=
                 unavailable_resources library]> row in
  row.

(** The text for no results, or the field names and the cells of each
    row in the order of the field names. *)
Definition csv_table (results : list result)
  : pystr + (list pystr * list (list pystr)) :=
  match results with
  | [] => inl (lit "No data available")
  | _ =>
      let regular_fields := regular_fields results in
      let fieldnames := fieldnames results in
      inr (fieldnames,
           (λ r, (λ f, default [] (csv_row regular_fields r !! f))
                   <$> fieldnames) <$> results)
  end.

End CsvTable.

End More.

(** * Properties of the downloader *)

#[local] Set Warnings "-clear-no-such-hyp".

Section DownloaderProofs.
Import Downloader.
Context `{PyRuntime}.

(** ** Literals and number rendering *)

Lemma N_of_ascii_inj : Inj (=) (=) N_of_ascii.
Proof.
  intros a b Hab.
  rewrite <- (ascii_N_embedding a), <- (ascii_N_embedding b). congruence.
Qed.

Lemma lit_inj : Inj (=) (=) lit.
Proof.
  intros s1 s2 Heq. unfold lit in Heq.
  apply (list_fmap_eq_inj _ N_of_ascii_inj) in Heq.
  rewrite <- (string_of_list_ascii_of_string s1),
    <- (string_of_list_ascii_of_string s2). by rewrite Heq.
Qed.

Lemma str_nat_inj : Inj (=) (=) str_nat.
Proof. intros n m Hnm. apply lit_inj in Hnm. by apply (inj pretty) in Hnm. Qed.

(** Distinct counters give distinct candidates. *)
Lemma suffixed_inj base_filename : Inj (=) (=) (suffixed base_filename).
Proof.
  intros n m. unfold suffixed. destruct (splitext base_filename) as [name ext].
  intros Heq. apply app_inv_head in Heq. apply app_inv_head in Heq.
  apply app_inv_tail in Heq. by apply str_nat_inj.
Qed.

(** ** [sanitize_filename]: what holds of every result *)

Lemma split_from_words cur s :
  Forall (λ c, isspace c = false) cur →
  Forall word (split_from cur s).
Proof.
  revert cur. induction s as [|c s IH]; intros cur Hcur; cbn [split_from].
  - destruct cur as [|a cur]; [done|]. apply Forall_singleton. split.
    + rewrite reverse_cons. by destruct (reverse cur).
    + by apply Forall_reverse.
  - destruct (isspace c) eqn:Hc.
    + destruct cur as [|a cur]; [by apply IH|].
      apply Forall_cons. split; [|by apply IH]. split.
      * rewrite reverse_cons. by destruct (reverse cur).
      * by apply Forall_reverse.
    + apply IH. by apply Forall_cons.
Qed.

Lemma split_from_chars cur s w c :
  w ∈ split_from cur s → c ∈ w → c ∈ cur ∨ c ∈ s.
Proof.
  revert cur w. induction s as [|d s IH]; intros cur w; cbn [split_from].
  - destruct cur as [|a cur]; [by intros ?%elem_of_nil|].
    intros ->%list_elem_of_singleton Hc. left.
    by apply elem_of_reverse.
  - destruct (isspace d).
    + destruct cur as [|a cur].
      * intros Hw Hc. destruct (IH _ _ Hw Hc) as [?%elem_of_nil|?]; [done|].
        right. by right.
      * intros [->|Hw]%elem_of_cons Hc.
        -- left. by apply elem_of_reverse.
        -- destruct (IH _ _ Hw Hc) as [?%elem_of_nil|?]; [done|].
           right. by right.
    + intros Hw Hc. destruct (IH _ _ Hw Hc) as [[->|?]%elem_of_cons|?].
      * right. by left.
      * by left.
      * right. by right.
Qed.

Lemma join_chars sep ws c :
  c ∈ py_join sep ws → c ∈ sep ∨ ∃ w, w ∈ ws ∧ c ∈ w.
Proof.
  induction ws as [|w ws IH]; simpl; [by intros ?%elem_of_nil|].
  destruct ws as [|w' ws].
  - intros Hc. right. exists w. split; [by left|done].
  - intros [Hc|[Hc|Hc]%elem_of_app]%elem_of_app.
    + right. exists w. split; [by left|done].
    + by left.
    + destruct (IH Hc) as [?|(w0 & Hw0 & ?)]; [by left|].
      right. exists w0. split; [by right|done].
Qed.

Lemma tidy_from_word b w rest :
  word w → tidy_from b (w ++ rest) = tidy_from false rest.
Proof.
  intros [Hne Hw]. revert b. induction w as [|c w IH]; intros b; [done|].
  apply Forall_cons in Hw as [Hc Hw]. simpl. rewrite Hc.
  destruct w as [|c' w]; [done|]. by apply IH.
Qed.

Lemma tidy_from_join b ws :
  Forall word ws → tidy_from b (py_join [space] ws) = true.
Proof.
  intros Hws. revert b. induction Hws as [|w ws Hw Hws IH]; intros b;
    [done|].
  simpl. destruct ws as [|w' ws].
  - rewrite <- (app_nil_r w). by rewrite tidy_from_word.
  - rewrite tidy_from_word by done. simpl. apply IH.
Qed.

Lemma tidy_from_take b n s :
  tidy_from b s = true → tidy_from b (take n s) = true.
Proof.
  revert b n. induction s as [|c s IH]; intros b [|n]; simpl; try done.
  destruct (isspace c); [|by apply IH].
  intros [[-> ->]%andb_true_iff Hs]%andb_true_iff. simpl. by apply IH.
Qed.

Lemma ends_clean_join ws :
  Forall word ws → ends_clean (py_join [space] ws) = true.
Proof.
  unfold ends_clean. induction 1 as [|w ws [Hne Hw] Hws IH]; [done|].
  simpl. destruct ws as [|w' ws].
  - destruct (last w) as [c|] eqn:Hlast; [|done].
    apply last_Some_elem_of in Hlast.
    eapply Forall_forall in Hw; [|done]. by rewrite Hw.
  - rewrite last_app, last_cons.
    destruct (last (py_join [space] (w' :: ws))) as [c|] eqn:Hlast; [done|].
    apply last_None in Hlast. apply Forall_cons in Hws as [[Hw' _] _].
    simpl in Hlast. destruct ws; [done|by destruct w'].
Qed.

(** The result has at most 200 characters, none of them one of the
    forbidden nine; it does not start with whitespace, has no two
    whitespace characters in a row and no whitespace character but the
    space.  When the normalised text has at most 200 characters (nothing
    is cut off) the result does not end with whitespace either. *)
Lemma sanitize_filename_always (filename : pystr) :
  length (sanitize_filename filename) ≤ 200
  ∧ Forall (λ c, is_invalid c = false) (sanitize_filename filename)
  ∧ tidy (sanitize_filename filename) = true
  ∧ (length (py_join [space] (py_split (re_sub_invalid filename))) ≤ 200 →
     ends_clean (sanitize_filename filename) = true).
Proof.
  unfold sanitize_filename.
  assert (Forall word (py_split (re_sub_invalid filename))) as Hwords.
  { by apply split_from_words. }
  split_and!.
  - rewrite length_take. lia.
  - apply Forall_forall. intros c Hc%subseteq_take.
    apply join_chars in Hc as [->%list_elem_of_singleton|(w & Hw & Hc)];
      [done|].
    destruct (split_from_chars _ _ _ _ Hw Hc) as [?%elem_of_nil|Hin]; [done|].
    unfold re_sub_invalid in Hin.
    apply list_elem_of_fmap in Hin as (c0 & -> & _).
    by destruct (is_invalid c0) eqn:?.
  - apply tidy_from_take. by apply tidy_from_join.
  - intros Hlen. rewrite take_ge by done. by apply ends_clean_join.
Qed.

(** ** The naming loop *)

Lemma unique_loop_fresh fuel files base_filename counter filename f :
  unique_loop fuel files base_filename counter filename = Some f →
  f ∉ files.
Proof.
  revert counter filename.
  induction fuel as [|fuel IH]; intros counter filename; simpl;
    case_bool_decide; try done; try (intros; by simplify_eq).
  apply IH.
Qed.

(** The loop returns the first candidate that is not registered. *)
Lemma unique_loop_first fuel files base_filename counter filename f :
  unique_loop fuel files base_filename counter filename = Some f →
  (f = filename ∧ filename ∉ files)
  ∨ (filename ∈ files
     ∧ ∃ k, counter ≤ k ∧ f = suffixed base_filename k
            ∧ ∀ j, counter ≤ j < k → suffixed base_filename j ∈ files).
Proof.
  revert counter filename.
  induction fuel as [|fuel IH]; intros counter filename; simpl;
    case_bool_decide as Hin; try done; try (intros; simplify_eq; by left).
  intros [[-> Hf]|(Hc & k & Hk & -> & Hall)]%IH; right; split; try done.
  - exists counter. split_and!; [lia|done|intros; lia].
  - exists k. split_and!; [lia|done|].
    intros j Hj. destruct (decide (j = counter)) as [->|]; [done|].
    apply Hall. lia.
Qed.

Lemma unique_loop_enough fuel files base_filename counter filename :
  (∃ k, counter ≤ k < counter + fuel ∧ suffixed base_filename k ∉ files) →
  is_Some (unique_loop fuel files base_filename counter filename).
Proof.
  revert counter filename.
  induction fuel as [|fuel IH]; intros counter filename (k & Hk & Hfree);
    [lia|].
  simpl. case_bool_decide; [|by eexists].
  destruct (decide (k = counter)) as [->|Hne].
  - destruct fuel; simpl; rewrite bool_decide_eq_false_2; by eauto.
  - apply IH. exists k. split; [lia|done].
Qed.

(** Among [size files + 1] consecutive counters one gives a candidate
    that is not registered: the candidates are pairwise distinct. *)
Lemma fresh_suffix_exists (files : gset pystr) base_filename counter :
  ∃ k, counter ≤ k < counter + S (size files)
       ∧ suffixed base_filename k ∉ files.
Proof.
  set (cands := suffixed base_filename <$> seq counter (S (size files))).
  destruct (decide (Forall (λ f, f ∈ files) cands)) as [Hall|Hex].
  - assert (NoDup cands) as Hnd.
    { eapply @NoDup_fmap_2; [apply suffixed_inj|apply NoDup_seq]. }
    assert (list_to_set cands ⊆ files) as Hsub.
    { intros f Hf%elem_of_list_to_set. by eapply Forall_forall in Hall. }
    apply subseteq_size in Hsub.
    rewrite size_list_to_set in Hsub by done.
    unfold cands in Hsub. rewrite length_fmap, length_seq in Hsub. lia.
  - apply not_Forall_Exists in Hex; [|apply _].
    apply Exists_exists in Hex as (f & Hf & Hnot).
    apply list_elem_of_fmap in Hf as (k & -> & Hk).
    apply elem_of_seq in Hk. exists k. split; [lia|done].
Qed.

(** The loop always ends, with a name that is not registered. *)
Lemma unique_filename_total (files : gset pystr) base_filename :
  ∃ filename, unique_filename files base_filename = Some filename
              ∧ filename ∉ files.
Proof.
  destruct (unique_loop_enough (S (size files)) files base_filename 1
              base_filename) as [f Hf].
  { apply fresh_suffix_exists. }
  exists f. split; [done|]. by eapply unique_loop_fresh.
Qed.

Lemma download_pdf_total net info st :
  is_Some (download_pdf net info st).
Proof.
  unfold download_pdf.
  destruct (unique_filename_total (downloaded_files st)
              (base_filename_of info)) as (f & -> & _).
  simpl. by case_match.
Qed.

(** ** Files that are already there, and the check of a response *)

(** When the path of the claimed name exists at claim time,
    [download_pdf] returns success, sends no request (the only new
    event is the skip message), leaves every file of the folder as it
    was, and registers the name. *)
Lemma download_pdf_existing net info st filename :
  unique_filename (downloaded_files st) (base_filename_of info)
    = Some filename →
  path_exists filename st = true →
  ∃ st', download_pdf net info st = Some (true, st')
         ∧ folder st' = folder st
         ∧ trace st' = trace st ++ [Skipped filename]
         ∧ downloaded_files st' = {[filename]} ∪ downloaded_files st.
Proof.
  intros Hname Hex. unfold download_pdf. rewrite Hname. simpl.
  rewrite Hex. by eexists.
Qed.

(** A second downloader object on the folder a successful call has left
    behind: the call for the same reference succeeds again, without a
    request and without touching the folder, whatever the network now
    answers. *)
Lemma download_pdf_rerun net net' info fo tr st1 :
  download_pdf net info
    {| downloaded_files := ∅; folder := fo; trace := tr |} = Some (true, st1) →
  ∃ st2, download_pdf net' info
           {| downloaded_files := ∅; folder := folder st1; trace := [] |}
         = Some (true, st2)
         ∧ folder st2 = folder st1
         ∧ trace st2 = [Skipped (base_filename_of info)].
Proof.
  unfold download_pdf, unique_filename. simpl.
  rewrite !bool_decide_eq_false_2 by set_solver. simpl.
  set (f := base_filename_of info).
  assert (path_exists f
            {| downloaded_files := ∅; folder := folder st1; trace := [] |}
          = true → ∃ st2,
            (if path_exists f
               {| downloaded_files := ∅; folder := folder st1; trace := [] |}
             then Some (true, registry_add f (emit (Skipped f)
                    {| downloaded_files := ∅; folder := folder st1;
                       trace := [] |}))
             else Some (transfer net' info f (registry_add f
                    {| downloaded_files := ∅; folder := folder st1;
                       trace := [] |})))
            = Some (true, st2) ∧ folder st2 = folder st1
            ∧ trace st2 = [Skipped f]) as Hgo.
  { intros ->. by eexists. }
  destruct (path_exists f {| downloaded_files := ∅; folder := fo; trace := tr |})
    eqn:Hex.
  - intros [= <-]. apply Hgo. apply Hex.
  - unfold transfer. simpl.
    destruct (net (url info)) as [|ct content]; [done|].
    destruct (not_a_pdf ct content); [done|].
    intros [= <-]. apply Hgo. unfold path_exists. simpl.
    apply bool_decide_eq_true_2. rewrite lookup_insert_eq. by eexists.
Qed.

Lemma discard_add_fresh (files : gset pystr) f :
  f ∉ files → ({[f]} ∪ files) ∖ {[f]} = files.
Proof. set_solver. Qed.



(** ** Concurrent calls: no two successful calls share a name *)

Lemma init_inv infos st : inv (init infos st).
Proof.
  split; simpl.
  - by intros t p (info & -> & _)%list_lookup_fmap_Some.
  - by intros t info f (info' & ? & _)%list_lookup_fmap_Some.
  - by intros t p f (info & -> & _)%list_lookup_fmap_Some.
  - by intros t1 t2 p1 p2 f (info & -> & _)%list_lookup_fmap_Some.
  - by intros t f (info & ? & _)%list_lookup_fmap_Some.
Qed.

(** A look-up in the worker list after worker [t] has moved. *)
Lemma lookup_moved (ths : list pc) t p' t0 p0 :
  t < length ths →
  <[t := p']> ths !! t0 = Some p0 →
  (t0 = t ∧ p0 = p') ∨ (t0 ≠ t ∧ ths !! t0 = Some p0).
Proof.
  intros Hlt Hlk. destruct (decide (t0 = t)) as [->|Hne].
  - rewrite list_lookup_insert_eq in Hlk by done. left. by simplify_eq.
  - rewrite list_lookup_insert_ne in Hlk by done. by right.
Qed.

Ltac moved H :=
  let E := fresh "E" in
  apply lookup_moved in H as [[-> E]|[? H]];
  [try subst | |by eapply lookup_lt_Some].

Ltac mv H := moved H; simplify_eq/=; try done.

Lemma step_inv net t m m' :
  inv m → step net t m = Some m' → inv m'.
Proof.
  intros [Hlock Hfree Hreg Hdist Hdisk]. unfold step.
  destruct (threads m !! t) as [p|] eqn:Hp; [simpl|done].
  destruct (thread_step net t p (sh m)) as [[p' s']|] eqn:Hstep; [simpl|done].
  intros [= <-].
  assert (t < length (threads m)) as Hlt by by eapply lookup_lt_Some.
  destruct p as [info|info counter filename|info filename|info filename
                 |filename|ok filename]; simpl in Hstep.
  - (* taking the lock *)
    destruct (lock (sh m)) eqn:Hl; simplify_eq.
    split; simpl.
    + intros t0 p0 Hlk Hc. mv Hlk.
      specialize (Hlock _ _ Hlk Hc). congruence.
    + intros t0 i0 f0 Hlk. mv Hlk. eauto.
    + intros t0 p0 f0 Hlk Hh. mv Hlk. eauto.
    + intros t1 t2 p1 p2 f H1 H2 Hh1 Hh2. mv H1. mv H2. eauto.
    + intros t0 f0 Hlk. mv Hlk. eauto.
  - (* a round of the loop, or leaving it *)
    pose proof (Hlock _ _ Hp I) as Hown.
    case_bool_decide as Hin; simplify_eq; split; simpl.
    all: try (intros t0 p0 Hlk Hc; mv Hlk; by eauto).
    all: try (intros t0 i0 f0 Hlk; mv Hlk; by eauto).
    all: try (intros t0 p0 f0 Hlk Hh; mv Hlk; by eauto).
    all: try (intros t1 t2 p1 p2 f H1 H2 Hh1 Hh2; mv H1; mv H2; by eauto).
    all: try (intros t0 f0 Hlk; mv Hlk; by eauto).
  - (* the existence test: the name is registered, the lock released *)
    pose proof (Hfree _ _ _ Hp) as Hfresh.
    pose proof (Hlock _ _ Hp I) as Hown.
    assert (∀ t0 p0, t0 ≠ t → threads m !! t0 = Some p0 → ¬ in_critical p0)
      as Hothers.
    { intros t0 p0 Hne Hlk Hc. specialize (Hlock _ _ Hlk Hc). congruence. }
    destruct (path_exists filename (obj (sh m))) eqn:Hex; simplify_eq;
      split; simpl.
    all: try (intros t0 p0 Hlk Hc; mv Hlk; by edestruct Hothers).
    all: try (intros t0 i0 f0 Hlk; mv Hlk;
              by edestruct (Hothers t0 (AtExists i0 f0))).
    all: try (intros t0 p0 f0 Hlk Hh; mv Hlk;
              [apply elem_of_union_l; by apply elem_of_singleton
              |apply elem_of_union_r; by eauto]).
    all: try (intros t1 t2 p1 p2 f H1 H2 Hh1 Hh2; mv H1; mv H2;
              try (exfalso; apply Hfresh; by eauto); by eauto).
    + intros t0 f0 Hlk. mv Hlk; [|by eauto].
      unfold path_exists in Hex. by apply bool_decide_eq_true_1 in Hex.
    + intros t0 f0 Hlk. mv Hlk. eauto.
  - (* the transfer *)
    pose proof (Hreg _ _ filename Hp eq_refl) as Hmine.
    destruct (net (url info)) as [|ct content]; simplify_eq;
      [|destruct (not_a_pdf ct content); simplify_eq]; split; simpl.
    all: try (intros t0 p0 Hlk Hc; mv Hlk; by eauto).
    all: try (intros t0 i0 f0 Hlk; mv Hlk; by eauto).
    all: try (intros t0 p0 f0 Hlk Hh; mv Hlk; by eauto).
    all: try (intros t1 t2 p1 p2 f H1 H2 Hh1 Hh2; mv H1; mv H2;
              try (symmetry; by eapply (Hdist t2 t));
              try (by eapply (Hdist t1 t)); by eauto).
    all: try (intros t0 f0 Hlk; mv Hlk; by eauto).
    intros t0 f0 Hlk. mv Hlk.
    + rewrite lookup_insert_eq. by eexists.
    + destruct (decide (filename = f0)) as [->|];
        [rewrite lookup_insert_eq; by eexists|].
      rewrite lookup_insert_ne by done. eauto.
  - (* giving the name back *)
    destruct (lock (sh m)) eqn:Hl; simplify_eq.
    split; simpl.
    + intros t0 p0 Hlk Hc. mv Hlk.
      specialize (Hlock _ _ Hlk Hc). congruence.
    + intros t0 i0 f0 Hlk. mv Hlk.
      specialize (Hlock _ _ Hlk I). congruence.
    + intros t0 p0 f0 Hlk Hh. mv Hlk.
      apply elem_of_difference. split; [by eauto|].
      intros ->%elem_of_singleton.
      assert (t0 = t); [|done].
      by eapply (Hdist t0 t _ _ filename).
    + intros t1 t2 p1 p2 f H1 H2 Hh1 Hh2. mv H1. mv H2. eauto.
    + intros t0 f0 Hlk. mv Hlk. eauto.
  - done.
Qed.

Lemma run_inv net sched m : inv m → inv (run_schedule net sched m).
Proof.
  revert m. induction sched as [|t sched IH]; intros m Hm; [done|].
  simpl. apply IH. destruct (step net t m) as [m'|] eqn:Hs; [|done].
  simpl. by eapply step_inv.
Qed.

(** C1. Whatever the number of workers, the references, the state of the
    downloader and the folder they start from, the answers of the network
    and the interleaving of the workers' steps, in every state that is
    reached:
    - at most one worker is inside the claim-and-check block (the test of
      the registry, the suffixing loop, the existence test and the
      registration), and the name it has found free is still free when it
      reaches the existence test: the sequence is atomic;
    - two distinct calls that have returned success have claimed distinct
      filenames, both names are registered and both files are in the
      folder. *)
Theorem committed_filenames_distinct net infos st sched :
  (∀ t1 t2 p1 p2,
     threads (run_schedule net sched (init infos st)) !! t1 = Some p1 →
     threads (run_schedule net sched (init infos st)) !! t2 = Some p2 →
     in_critical p1 → in_critical p2 → t1 = t2)
  ∧ (∀ t info f,
       threads (run_schedule net sched (init infos st)) !! t
         = Some (AtExists info f) →
       lock (sh (run_schedule net sched (init infos st))) = Some t
       ∧ f ∉ downloaded_files (obj (sh (run_schedule net sched (init infos st)))))
  ∧ (∀ t1 t2 f1 f2,
       t1 ≠ t2 →
       threads (run_schedule net sched (init infos st)) !! t1
         = Some (Returned true f1) →
       threads (run_schedule net sched (init infos st)) !! t2
         = Some (Returned true f2) →
       f1 ≠ f2
       ∧ {[f1; f2]}
           ⊆ downloaded_files (obj (sh (run_schedule net sched (init infos st))))
       ∧ {[f1; f2]}
           ⊆ dom (folder (obj (sh (run_schedule net sched (init infos st)))))).
Proof.
  pose proof (run_inv net sched _ (init_inv infos st))
    as [Hlock Hfree Hreg Hdist Hdisk].
  split_and!.
  - intros t1 t2 p1 p2 H1 H2 Hc1 Hc2.
    pose proof (Hlock _ _ H1 Hc1). pose proof (Hlock _ _ H2 Hc2). congruence.
  - intros t info f Ht. split; [by apply (Hlock _ _ Ht)|by eapply Hfree].
  - intros t1 t2 f1 f2 Hne H1 H2. split_and!.
    + intros ->. apply Hne. by eapply (Hdist t1 t2 _ _ f2).
    + pose proof (Hreg _ _ f1 H1 eq_refl).
      pose proof (Hreg _ _ f2 H2 eq_refl). set_solver.
    + pose proof (Hdisk _ _ H1) as ?%elem_of_dom.
      pose proof (Hdisk _ _ H2) as ?%elem_of_dom. set_solver.
Qed.

(** ** One worker alone: the machine does what [download_pdf] computes *)

Lemma run_app net l1 l2 m : run_schedule net (l1 ++ l2) m = run_schedule net l2 (run_schedule net l1 m).
Proof. unfold run_schedule. by rewrite foldl_app. Qed.

Lemma solo_loop net info fuel st counter filename f :
  unique_loop fuel (downloaded_files st) (base_filename_of info)
    counter filename = Some f →
  ∃ n, run_schedule net (replicate n 0)
         {| threads := [InLoop info counter filename];
            sh := {| lock := Some 0; obj := st |} |}
       = {| threads := [AtExists info f];
            sh := {| lock := Some 0; obj := st |} |}.
Proof.
  revert counter filename.
  induction fuel as [|fuel IH]; intros counter filename; simpl;
    case_bool_decide as Hin; try done.
  - intros [= <-]. exists 1. simpl. unfold step. simpl.
    by rewrite bool_decide_eq_false_2.
  - intros [n Hn]%IH. exists (S n). simpl. unfold step. simpl.
    by rewrite bool_decide_eq_true_2.
  - intros [= <-]. exists 1. simpl. unfold step. simpl.
    by rewrite bool_decide_eq_false_2.
Qed.

Lemma solo_run net info st ok st' :
  download_pdf net info st = Some (ok, st') →
  ∃ n f, run_schedule net (replicate n 0) (init [info] st)
         = {| threads := [Returned ok f];
              sh := {| lock := None; obj := st' |} |}.
Proof.
  unfold download_pdf.
  destruct (unique_filename _ _) as [f|] eqn:Hname; [simpl|done].
  apply (solo_loop net) in Hname as [n Hn].
  intros Hres.
  assert (∃ k, run_schedule net (replicate k 0)
                 {| threads := [AtExists info f];
                    sh := {| lock := Some 0; obj := st |} |}
               = {| threads := [Returned ok f];
                    sh := {| lock := None; obj := st' |} |}) as [k Hk].
  { destruct (path_exists f st) eqn:Hex.
    - simplify_eq. exists 1. simpl. unfold step. simpl. by rewrite Hex.
    - unfold transfer in Hres.
      destruct (net (url info)) as [|ct content] eqn:Hnet;
        [|destruct (not_a_pdf ct content) eqn:Hbad]; simplify_eq.
      + exists 3. simpl. unfold step. simpl. rewrite Hex. simpl.
        by rewrite Hnet.
      + exists 3. simpl. unfold step. simpl. rewrite Hex. simpl.
        by rewrite Hnet, Hbad.
      + exists 2. simpl. unfold step. simpl. rewrite Hex. simpl.
        by rewrite Hnet, Hbad. }
  exists (1 + n + k), f.
  rewrite !replicate_add, !run_app. simpl. unfold acquire. simpl.
  by rewrite Hn.
Qed.

End DownloaderProofs.

(** ** The downloader on concrete data *)

Section DownloaderExamples.
Import Downloader Examples.

Lemma committed_filenames_distinct_witness :
  name_one ≠ name_two
  ∧ {[name_one; name_two]} ⊆ downloaded_files (obj (sh
      (run_schedule (H := ascii_runtime) serves_pdf interleaved
         (init [ref_one; ref_two] fresh))))
  ∧ {[name_one; name_two]} ⊆ dom (folder (obj (sh
      (run_schedule (H := ascii_runtime) serves_pdf interleaved
         (init [ref_one; ref_two] fresh))))).
Proof.
  destruct (committed_filenames_distinct (H := ascii_runtime) serves_pdf
              [ref_one; ref_two] fresh interleaved) as (_ & _ & Hdistinct).
  apply (Hdistinct 0 1 name_one name_two).
  - lia.
  - vm_compute. reflexivity.
  - vm_compute. reflexivity.
Defined.


(** C10. [sanitize_filename] can return a string that ends with a space:
    on a name of 199 letters, a space and one more letter, the joined
    text has 201 characters and the cut at 200 leaves the space last. *)
Theorem sanitize_filename_trailing_space :
  sanitize_filename (replicate 199 97%N ++ lit " b")
    = replicate 199 97%N ++ [space]
  ∧ last (sanitize_filename (replicate 199 97%N ++ lit " b")) = Some space
  ∧ isspace space = true
  ∧ length (sanitize_filename (replicate 199 97%N ++ lit " b")) = 200.
Proof. vm_compute. auto. Qed.

End DownloaderExamples.

(** * Properties of the job pipeline *)

Section AppProofs.
Import Downloader App.
Context `{PyRuntime}.

(** Unfolds the monad operations and runs the state through them. *)
Ltac run_stage :=
  unfold mbind, M_bind, bind, mret, M_ret, ret, progress_callback, write,
    call, modify, get, await, raise, try_except;
  cbn [entry written visible locals fst snd downloader all_pdf_links
         successful_downloads download_calls results processed_files
         successful_matches].

(** A loop whose body never raises and keeps [P] never raises and
    keeps [P]. *)
Lemma for_each_inv {L X} (body : nat → X → M L unit)
    (P : stage_state L → Prop) :
  (∀ i x s, P s → ∃ s', body i x s = (inr tt, s') ∧ P s') →
  ∀ xs i s, P s → ∃ s', for_each body i xs s = (inr tt, s') ∧ P s'.
Proof.
  intros Hbody xs. induction xs as [|x xs IH]; intros i s Hs; cbn [for_each].
  - by exists s.
  - destruct (Hbody i x s Hs) as (s1 & Hx & Hs1).
    destruct (IH (S i) s1 Hs1) as (s2 & Hxs & Hs2).
    exists s2. split; [|done]. run_stage. by rewrite Hx.
Qed.

(** ** Acquisition *)

Lemma limit_links_5 (pdf_links : list pdf_info) :
  limit_links 5 pdf_links = take 5 pdf_links.
Proof.
  unfold limit_links, slice_to. case_match eqn:Hlen; [done|].
  apply Z.ltb_ge in Hlen. rewrite take_ge; [done|lia].
Qed.

Lemma slice_to_5 {A} (l : list A) : slice_to 5 l = take 5 l.
Proof. done. Qed.

Section DiscoverProofs.
Context {D : Type} (ops : downloader_ops D).

(** One round of the download loop: it does not raise, and it makes one
    [download_pdf] call, for its reference. *)
Lemma download_one_spec n i pdf_info (s : stage_state (discover_locals D)) :
  ∃ s', download_one ops n i pdf_info s = (inr tt, s')
    ∧ download_calls (locals s') = download_calls (locals s) ++ [pdf_info]
    ∧ all_pdf_links (locals s') = all_pdf_links (locals s)
    ∧ downloader (locals s') = (download ops pdf_info (downloader (locals s))).2.
Proof.
  unfold download_one, call_download_pdf, set_successful_downloads, method.
  run_stage.
  destruct (download ops pdf_info (downloader (locals s))) as [[e|[]] d'];
    run_stage; by eexists.
Qed.

(** A call that returns success is counted: a file that is skipped because
    it is already there counts as downloaded. *)
Lemma download_one_counts n i pdf_info (s : stage_state (discover_locals D)) d' :
  download ops pdf_info (downloader (locals s)) = (inr true, d') →
  ∃ s', download_one ops n i pdf_info s = (inr tt, s')
    ∧ successful_downloads (locals s') = successful_downloads (locals s) + 1
    ∧ files_downloaded (entry s') = Some (successful_downloads (locals s) + 1).
Proof.
  intros Hok.
  unfold download_one, call_download_pdf, set_successful_downloads, method.
  run_stage. rewrite Hok. run_stage. by eexists.
Qed.

Lemma download_loop_spec n refs i (s : stage_state (discover_locals D)) :
  ∃ s', for_each (download_one ops n) i refs s = (inr tt, s')
    ∧ download_calls (locals s') = download_calls (locals s) ++ refs
    ∧ all_pdf_links (locals s') = all_pdf_links (locals s)
    ∧ downloader (locals s') = download_all ops refs (downloader (locals s)).
Proof.
  revert i s. induction refs as [|r refs IH]; intros i s; cbn [for_each].
  - exists s. by rewrite app_nil_r.
  - destruct (download_one_spec n i r s) as (s1 & H1 & Hc1 & Ha1 & Hd1).
    destruct (IH (S i) s1) as (s2 & H2 & Hc2 & Ha2 & Hd2).
    exists s2. run_stage. rewrite H1. split; [done|].
    rewrite Hc2, Hc1, Ha2, Ha1, Hd2, Hd1, <- app_assoc. done.
Qed.

(** The scan of the pages makes no [download_pdf] call. *)
Lemma scan_page_spec n i u (s : stage_state (discover_locals D)) :
  download_calls (locals (scan_page ops n i u s).2) = download_calls (locals s).
Proof.
  unfold scan_page, set_all_pdf_links, method. run_stage.
  by destruct (get_pdf_links ops u (downloader (locals s))) as [[e|links] d'].
Qed.

Lemma scan_loop_spec n urls i (s : stage_state (discover_locals D)) :
  download_calls (locals (for_each (scan_page ops n) i urls s).2)
  = download_calls (locals s).
Proof.
  revert i s. induction urls as [|u urls IH]; intros i s; cbn [for_each];
    [done|].
  run_stage. pose proof (scan_page_spec n i u s) as Hstep.
  destruct (scan_page ops n i u s) as [[e|[]] s1]; [done|].
  rewrite IH. done.
Qed.

(** The task never raises.  It ends in [error] with progress 0 and without
    any [download_pdf] call, or in [completed] with progress 100 after
    one call for each of the references it kept: all of them for
    Political Science, where the downloader has limited the list, the
    first five otherwise. *)
Lemma discover_task_spec (is_polisci : bool) url e d :
  ∃ s', discover_task ops is_polisci url (start_discover e d) = (inr tt, s')
    ∧ ((status (entry s') = error ∧ progress (entry s') = 0%Z
        ∧ download_calls (locals s') = []
        ∧ (is_polisci = true →
             ∃ err d1, get_pdf_links ops target_url d = (inl err, d1)))
       ∨ (status (entry s') = completed ∧ progress (entry s') = 100%Z
          ∧ download_calls (locals s')
            = (if is_polisci then all_pdf_links (locals s')
               else take 5 (all_pdf_links (locals s')))
          ∧ (is_polisci = true →
               ∃ d1, get_pdf_links ops target_url d
                       = (inr (all_pdf_links (locals s')), d1)
                     ∧ downloader (locals s')
                       = download_all ops (all_pdf_links (locals s')) d1))).
Proof.
  unfold discover_task, discover_try, start_discover, set_all_pdf_links,
    set_successful_downloads, method.
  destruct is_polisci; run_stage.
  - destruct (get_pdf_links ops target_url d) as [[err|links] d1] eqn:Hlinks;
      run_stage.
    + eexists. split; [done|]. left. cbn. split_and!; try done.
      intros _. by eexists _, _.
    + match goal with
      | |- context [for_each (download_one ops ?n) ?i ?refs ?s] =>
          destruct (download_loop_spec n refs i s)
            as (s2 & -> & Hcalls & Hall & Hdl)
      end.
      cbn in Hcalls, Hall, Hdl.
      eexists. split; [done|]. right. cbn. rewrite Hall.
      split_and!; try done. intros _. by exists d1.
  - destruct (get_semester_links ops d) as [[err|semester_links] d1];
      run_stage.
    + eexists. split; [done|]. left. by cbn.
    + match goal with
      | |- context [for_each (scan_page ops ?n) ?i ?urls ?s] =>
          pose proof (scan_loop_spec n urls i s) as Hscan;
          destruct (for_each (scan_page ops n) i urls s) as [[err|[]] s1]
      end; cbn in Hscan.
      * eexists. split; [done|]. left. by cbn.
      * match goal with
        | |- context [for_each (download_one ops ?n) ?i ?refs ?s] =>
            destruct (download_loop_spec n refs i s)
              as (s2 & -> & Hcalls & Hall & Hdl)
        end.
        cbn in Hcalls, Hall, Hdl.
        eexists. split; [done|]. right. cbn. rewrite Hall, Hcalls, Hscan.
        by split_and!.
Qed.

End DiscoverProofs.




(** C6. When the path of the claimed name exists at claim time,
    [download_pdf] returns success, sends no request (the only new event
    is the skip message), leaves every file of the folder as it was, and
    registers the name; and the round of the acquisition loop that makes
    this call counts the reference as downloaded, without any request. *)
Theorem download_pdf_skips_existing net scrape info st filename :
  unique_filename (downloaded_files st) (base_filename_of info)
    = Some filename →
  path_exists filename st = true →
  (∃ st', download_pdf net info st = Some (true, st')
          ∧ folder st' = folder st
          ∧ trace st' = trace st ++ [Skipped filename]
          ∧ downloaded_files st' = {[filename]} ∪ downloaded_files st)
  ∧ (∀ n i (s : stage_state (discover_locals dl_state)),
       downloader (locals s) = st →
       ∃ s', download_one (polisci_ops net scrape) n i info s = (inr tt, s')
             ∧ successful_downloads (locals s')
               = successful_downloads (locals s) + 1
             ∧ files_downloaded (entry s')
               = Some (successful_downloads (locals s) + 1)
             ∧ folder (downloader (locals s')) = folder st
             ∧ requests (downloader (locals s')) = requests st).
Proof.
  intros Hname Hex.
  destruct (download_pdf_existing net info st filename Hname Hex)
    as (st' & Hrun & Hfolder & Htrace & Hreg).
  split; [by exists st'|].
  intros n i s Hs.
  assert (download (polisci_ops net scrape) info (downloader (locals s))
          = (inr true, st')) as Hcall.
  { simpl. by rewrite Hs, Hrun. }
  destruct (download_one_counts (polisci_ops net scrape) n i info s st' Hcall)
    as (s' & Hone & Hcount & Hentry).
  destruct (download_one_spec (polisci_ops net scrape) n i info s)
    as (s'' & Hone' & _ & _ & Hdl).
  rewrite Hone in Hone'. injection Hone' as <-.
  exists s'. split_and!; try done.
  - by rewrite Hdl, Hcall.
  - rewrite Hdl, Hcall. unfold requests. simpl. rewrite Htrace.
    rewrite List.filter_app, length_app. simpl. lia.
Qed.

(** Whatever the department, the task makes five [download_pdf] calls at
    most. *)
Lemma discover_and_download_pdfs_calls {DA} (arts : downloader_ops DA)
    (new_arts : pystr → DA) net scrape files url department e :
  length (locals (discover_and_download_pdfs arts new_arts net scrape files
                    url department e).2) ≤ 5.
Proof.
  unfold discover_and_download_pdfs, forget_downloader.
  destruct (py_eqb department (lit "polisci")); cbn [snd locals].
  - destruct (discover_task_spec (polisci_ops net scrape) true url e
                (new_polisci files))
      as (s' & Hrun & [(_ & _ & Hcalls & _)|(_ & _ & Hcalls & Hok)]);
      rewrite Hrun; cbn [snd]; rewrite Hcalls; [simpl; lia|].
    destruct (Hok eq_refl) as (d1 & [= <- <-] & _).
    unfold get_pdf_links_from_page. destruct (scrape target_url); simpl;
      [|lia].
    rewrite limit_links_5, length_take. lia.
  - destruct (discover_task_spec arts false url e (new_arts url))
      as (s' & Hrun & [(_ & _ & Hcalls & _)|(_ & _ & Hcalls & _)]);
      rewrite Hrun; cbn [snd]; rewrite Hcalls; [simpl; lia|].
    rewrite length_take. lia.
Qed.

(** ** Cross-reference *)



(** ** Requests *)


(** ** CSV export *)




(** ** Extraction *)

Lemma unknown_metadata_lookup (selected : list pystr) (f : pystr) :
  unknown_metadata selected !! f
  = if decide (f ∈ selected) then Some unknown else None.
Proof.
  unfold unknown_metadata.
  assert (∀ acc : gmap pystr mvalue,
            foldl (λ metadata field, <[field := unknown]> metadata) acc selected
              !! f
            = if decide (f ∈ selected) then Some unknown else acc !! f) as Hgen.
  { induction selected as [|g selected IH]; intros acc; cbn [foldl].
    - by rewrite decide_False by apply not_elem_of_nil.
    - rewrite IH. destruct (decide (f ∈ selected)) as [Hin|Hnin].
      + by rewrite decide_True by by right.
      + destruct (decide (f = g)) as [->|Hne].
        * rewrite decide_True by by left. by rewrite lookup_insert_eq.
        * rewrite decide_False by (intros [?|?]%elem_of_cons; done).
          by rewrite lookup_insert_ne. }
  rewrite Hgen. by rewrite lookup_empty.
Qed.

Lemma filter_selected_lookup (selected : list pystr)
    (metadata : gmap pystr mvalue) (f : pystr) :
  filter_selected selected metadata !! f
  = if decide (f ∈ selected) then Some (default unknown (metadata !! f))
    else None.
Proof.
  unfold filter_selected.
  set (F := λ (filtered_metadata : gmap pystr mvalue) (field : pystr),
              match metadata !! field with
              | Some v => <[field := v]> filtered_metadata
              | None => <[field := unknown]> filtered_metadata
              end).
  assert (∀ acc : gmap pystr mvalue,
            foldl F acc selected !! f
            = if decide (f ∈ selected)
              then Some (default unknown (metadata !! f)) else acc !! f)
    as Hgen.
  { induction selected as [|g selected IH]; intros acc; cbn [foldl].
    - by rewrite decide_False by apply not_elem_of_nil.
    - rewrite IH. destruct (decide (f ∈ selected)) as [Hin|Hnin].
      + by rewrite decide_True by by right.
      + destruct (decide (f = g)) as [->|Hne].
        * rewrite decide_True by by left. unfold F.
          destruct (metadata !! g); by rewrite lookup_insert_eq.
        * rewrite decide_False by (intros [?|?]%elem_of_cons; done).
          unfold F. destruct (metadata !! g); by rewrite lookup_insert_ne. }
  rewrite Hgen. by rewrite lookup_empty.
Qed.

(** The filtered mapping has exactly the selected fields as its keys. *)
Lemma filter_selected_dom (selected : list pystr)
    (metadata : gmap pystr mvalue) :
  dom (filter_selected selected metadata) = list_to_set selected.
Proof.
  apply set_eq. intros f.
  rewrite elem_of_dom, elem_of_list_to_set, filter_selected_lookup.
  destruct (decide (f ∈ selected)); split; try done.
Qed.

Lemma filter_selected_field (selected : list pystr)
    (metadata : gmap pystr mvalue) (f : pystr) :
  f ∈ selected →
  filter_selected selected metadata !! f
  = Some (default unknown (metadata !! f)).
Proof. intros Hin. by rewrite filter_selected_lookup, decide_True. Qed.

Lemma filter_selected_unknown (selected : list pystr) (f : pystr) :
  f ∈ selected →
  filter_selected selected (unknown_metadata selected) !! f = Some unknown.
Proof.
  intros Hin. rewrite filter_selected_field by done.
  by rewrite unknown_metadata_lookup, decide_True.
Qed.

Section ExtractionProofs.
Variable extract_text_func : pystr → exn + pystr.
Variable llm_extract_func : pystr → exn + gmap pystr mvalue.
Variable heuristic_func : pystr → exn + gmap pystr mvalue.
Variable extract_tables_func : pystr → exn + list pystr.

Abbreviation process_file :=
  (process_file extract_text_func llm_extract_func heuristic_func
     extract_tables_func).
Abbreviation process_files :=
  (process_files extract_text_func llm_extract_func heuristic_func
     extract_tables_func).

(** What one round of the loop does to the list of records. *)
Lemma process_file_spec selected n i pdf_path (s : stage_state (list result)) :
  ∃ s', process_file selected n i pdf_path s = (inr tt, s')
    ∧ (locals s' = locals s
       ∨ ∃ text md,
           extract_text_func pdf_path = inr text ∧ text ≠ []
           ∧ locals s' = locals s ++ [ {| r_filename := pdf_path;
                                          r_metadata := md;
                                          r_primo_check := None;
                                          r_library_matches := None |} ]
           ∧ dom md = list_to_set selected
           ∧ (∀ out f,
                llm_extract_func (enhance_text extract_tables_func pdf_path text)
                  = inr out →
                f ∈ selected → md !! f = Some (default unknown (out !! f)))
           ∧ (∀ e out f,
                llm_extract_func (enhance_text extract_tables_func pdf_path text)
                  = inl e →
                heuristic_func (enhance_text extract_tables_func pdf_path text)
                  = inr out →
                f ∈ selected → md !! f = Some (default unknown (out !! f)))
           ∧ (∀ e1 e2 f,
                llm_extract_func (enhance_text extract_tables_func pdf_path text)
                  = inl e1 →
                heuristic_func (enhance_text extract_tables_func pdf_path text)
                  = inl e2 →
                f ∈ selected → md !! f = Some unknown)).
Proof.
  unfold App.process_file, extract_with_fallback. run_stage.
  destruct (extract_text_func pdf_path) as [e|text] eqn:Htext; run_stage.
  - eexists. split; [done|]. by left.
  - destruct text as [|c text]; run_stage.
    + eexists. split; [done|]. by left.
    + set (text' := enhance_text extract_tables_func pdf_path (c :: text)).
      destruct (llm_extract_func text') as [e1|out] eqn:Hllm; run_stage;
        [destruct (heuristic_func text') as [e2|out] eqn:Hheur; run_stage|].
      all: eexists; split; [done|]; right; run_stage.
      all: eexists (c :: text), _; split_and!; try done.
      all: try apply filter_selected_dom.
      all: intros; subst text'; try congruence.
      all: repeat match goal with
             | H1 : ?x = inr ?a, H2 : ?x = inr ?b |- _ =>
                 assert (a = b) by congruence; subst; clear H2
             end.
      all: try by apply filter_selected_field.
      by apply filter_selected_unknown.
Qed.




End ExtractionProofs.

End AppProofs.

(** ** The pipeline on concrete data *)

Section AppExamples.
Import Downloader App Examples.

(** C2. A transition to [error] that keeps the progress.  The extraction
    of one file whose results file cannot be written ends with status
    [error] and progress 90; the cross-reference of its record when the
    results cannot be written ends with status [error] and progress 95.
    (The acquisition task, on the contrary, sets the progress to 0 in its
    handler: [discover_task_spec].) *)
Theorem error_keeps_progress :
  let extraction :=
    extract_metadata_background text_ok llm_ok heuristic_down tables_none
      save_fails job fields [name_one] (StageState extracting [] [] []) in
  let cross_reference :=
    check_primo_background catalogue save_fails job (Some (Records [stored]))
      (StageState extracted_entry [] [] (PrimoLocals [] 0 0)) in
  extraction.1 = inr tt
  ∧ status (entry extraction.2) = error
  ∧ progress (entry extraction.2) = 90%Z
  ∧ progress <$> written extraction.2
    = [0; 0; 0; 5; 5; 90; 90; 90; 90; 90]%Z
  ∧ cross_reference.1 = inr tt
  ∧ status (entry cross_reference.2) = error
  ∧ progress (entry cross_reference.2) = 95%Z
  ∧ progress <$> written cross_reference.2
    = [100; 0; 0; 0; 0; 95; 95; 95; 95]%Z.
Proof. vm_compute. by split_and!. Qed.

(** With nineteen files or more the progress written for a file after its
    text is read (five points above the start of the file) is above the
    progress written when the file is done: 5 and then 4 for the first of
    nineteen.  The five downloads a job is limited to keep the loop away
    from this. *)
Example extraction_progress_nineteen :
  take 6 (progress <$> written
            (extract_metadata_background text_ok llm_ok heuristic_down
               tables_none save_ok job fields nineteen
               (StageState extracting [] [] [])).2)
  = [0; 0; 0; 5; 5; 4]%Z.
Proof. vm_compute. reflexivity. Qed.

(** C3. A cross-reference request for a job whose cross-reference task is
    in flight is accepted.  While the task is suspended in its call of
    the catalogue the entry of the job has status [processing] and the
    message [Checking resources for ...], in which the request looks for
    [Primo] and [library] in vain: it answers [started] and schedules a
    second task for the job. *)
Theorem duplicate_cross_reference_accepted :
  let task :=
    check_primo_background catalogue save_ok job (Some (Records [stored]))
      (StageState extracted_entry [] [] (PrimoLocals [] 0 0)) in
  let request :=
    check_primo_resources (H := ascii_runtime) job server_in_flight in
  visible task.2 = [in_flight]
  ∧ jobs_status server_in_flight !! job = Some in_flight
  ∧ status in_flight = processing
  ∧ background_tasks server_in_flight = [PrimoTask job]
  ∧ request.1 = Reply (lit "started")
                      (lit "Library resource matching started successfully")
  ∧ background_tasks request.2 = [PrimoTask job; PrimoTask job].
Proof. vm_compute. by split_and!. Qed.

(** The request is rejected while the entry carries the first message of
    the task, which names the catalogue. *)
Lemma cross_reference_rejected_at_start :
  (check_primo_resources (H := ascii_runtime) job
     {| jobs_status :=
          {[ job := set_message
                      (lit "Starting library resource matching via Primo API...")
                      in_flight ]};
        background_tasks := [PrimoTask job];
        downloads_dir := {[ job := [name_one] ]};
        results_dir := {[ metadata_file job := Records [stored] ]} |}).1
  = Reply (lit "already_running")
          (lit "Library matching is already in progress").
Proof. vm_compute. reflexivity. Qed.


Lemma download_pdf_skips_existing_witness :
  ∃ st', download_pdf (H := ascii_runtime) serves_html ref_one with_one
         = Some (true, st')
         ∧ folder st' = folder with_one
         ∧ trace st' = trace with_one ++ [Skipped name_one]
         ∧ downloaded_files st' = {[name_one]} ∪ downloaded_files with_one.
Proof.
  apply (download_pdf_skips_existing (H := ascii_runtime) serves_html
           (λ _, None) ref_one with_one name_one).
  - vm_compute. reflexivity.
  - vm_compute. reflexivity.
Defined.




End AppExamples.

(** * Further properties of the downloader *)

Section MoreDownloader.
Import Downloader App More.
Context `{PyRuntime}.

(** ** Removing duplicates by URL *)

Lemma dict_set_keys {V} (k : pystr) (v : V) (d : list (pystr * V)) :
  (dict_set k v d).*1 = if decide (k ∈ d.*1) then d.*1 else d.*1 ++ [k].
Proof.
  induction d as [|[k' v'] d IH].
  - destruct (decide (k ∈ ([] : list (pystr * V)).*1)) as [Hin|_]; [|done].
    by apply elem_of_nil in Hin.
  - cbn [dict_set]. rewrite !fmap_cons. cbn [fst].
    destruct (decide (k = k')) as [->|Hne].
    + destruct (decide (k' ∈ k' :: d.*1)) as [_|Hnin]; [done|].
      exfalso. apply Hnin. by left.
    + rewrite fmap_cons, IH. cbn [fst].
      destruct (decide (k ∈ d.*1)) as [Hin|Hnin];
        destruct (decide (k ∈ k' :: d.*1)) as [Hin'|Hnin']; try done.
      * exfalso. apply Hnin'. by right.
      * apply elem_of_cons in Hin' as [?|?]; done.
Qed.

Lemma dict_set_NoDup {V} (k : pystr) (v : V) (d : list (pystr * V)) :
  NoDup d.*1 → NoDup (dict_set k v d).*1.
Proof.
  intros Hnd. rewrite dict_set_keys. case_decide; [done|].
  apply NoDup_app. split_and!; [done| |apply NoDup_singleton].
  intros x Hx ->%list_elem_of_singleton. done.
Qed.

Lemma dict_set_elem {V} (k : pystr) (v : V) (d : list (pystr * V)) k' v' :
  NoDup d.*1 →
  (k', v') ∈ dict_set k v d
  ↔ (k' = k ∧ v' = v) ∨ (k' ≠ k ∧ (k', v') ∈ d).
Proof.
  induction d as [|[k0 v0] d IH]; simpl; intros Hnd.
  - rewrite list_elem_of_singleton. split.
    + intros [= -> ->]. by left.
    + intros [[-> ->]|[_ ?%elem_of_nil]]; done.
  - apply NoDup_cons in Hnd as [Hk0 Hnd].
    destruct (decide (k = k0)) as [->|Hne].
    + rewrite !elem_of_cons. split.
      * intros [[= -> ->]|Hin]; [by left|].
        right. split; [|by right]. intros ->. apply Hk0.
        apply list_elem_of_fmap. by exists (k0, v').
      * intros [[-> ->]|[Hne [[= -> ->]|Hin]]]; [by left|done|by right].
    + rewrite !elem_of_cons, IH by done. split.
      * intros [[= -> ->]|[[-> ->]|[? ?]]]; [|by left|].
        -- right. split; [done|by left].
        -- right. split; [done|by right].
      * intros [[-> ->]|[? [[= -> ->]|?]]]; [right; by left|by left|].
        right. right. done.
Qed.

(** The dict after the loop over [l], started from [d]: it has one entry
    for a key, and the entry of a key is the last reference of [l] with
    that URL, or the one of [d] when [l] has none. *)
Lemma unique_loop_entries (l : list pdf_info) (d : list (pystr * pdf_info)) :
  NoDup d.*1 →
  NoDup (foldl (λ unique_pdfs pdf, dict_set (url pdf) pdf unique_pdfs) d l).*1
  ∧ ∀ k v,
      (k, v) ∈ foldl (λ unique_pdfs pdf, dict_set (url pdf) pdf unique_pdfs) d l
      ↔ last (filter (λ q, url q = k) l) = Some v
        ∨ (filter (λ q, url q = k) l = [] ∧ (k, v) ∈ d).
Proof.
  revert d. induction l as [|p l IH]; intros d Hnd; simpl.
  - split; [done|]. intros k v. split; [by right|by intros [|[_ ?]]].
  - destruct (IH (dict_set (url p) p d)) as [Hnd' Hiff];
      [by apply dict_set_NoDup|].
    split; [done|]. intros k v. rewrite Hiff, dict_set_elem by done.
    rewrite filter_cons. destruct (decide (url p = k)) as [<-|Hne].
    + rewrite last_cons.
      destruct (last (filter (λ q, url q = url p) l)) as [w|] eqn:Hlast.
      * split; (intros [?|[Hnil _]]; [by left|]); [|done].
        rewrite Hnil in Hlast. done.
      * apply last_None in Hlast. rewrite Hlast. split.
        -- intros [?|[_ [[_ ->]|[? _]]]]; [done|by left|done].
        -- intros [[= ->]|[? _]]; [|done]. right. split; [done|by left].
    + split.
      * intros [?|[Hnil [[-> _]|[_ ?]]]]; [by left|done|by right].
      * intros [?|[Hnil ?]]; [by left|]. right. split; [done|].
        right. split; [congruence|done].
Qed.

Lemma last_filter_elem (l : list pdf_info) k v :
  last (filter (λ q, url q = k) l) = Some v → v ∈ l ∧ url v = k.
Proof.
  intros Hlast%last_Some_elem_of. by apply list_elem_of_filter in Hlast as [? ?].
Qed.

Lemma unique_by_url_elem (l : list pdf_info) p :
  p ∈ unique_by_url l ↔ last (filter (λ q, url q = url p) l) = Some p.
Proof.
  unfold unique_by_url. destruct (unique_loop_entries l []) as [_ Hiff];
    [constructor|].
  rewrite list_elem_of_fmap. split.
  - intros ([k v] & -> & Hin). simpl.
    apply Hiff in Hin as [Hlast|[_ ?%elem_of_nil]]; [|done].
    by destruct (last_filter_elem _ _ _ Hlast) as [_ ->].
  - intros Hlast. exists (url p, p). split; [done|]. apply Hiff. by left.
Qed.

Lemma unique_by_url_NoDup (l : list pdf_info) :
  NoDup (url <$> unique_by_url l).
Proof.
  unfold unique_by_url. destruct (unique_loop_entries l []) as [Hnd Hiff];
    [constructor|].
  set (D := foldl _ _ _) in *.
  assert (url <$> D.*2 = D.*1) as ->; [|done].
  rewrite <- list_fmap_compose. apply list_fmap_ext.
  intros i [k v] Hkv. simpl.
  apply list_elem_of_lookup_2 in Hkv.
  apply Hiff in Hkv as [Hlast|[_ ?%elem_of_nil]]; [|done].
  by destruct (last_filter_elem _ _ _ Hlast) as [_ ->].
Qed.

Lemma unique_by_url_urls (l : list pdf_info) u :
  u ∈ url <$> unique_by_url l ↔ u ∈ url <$> l.
Proof.
  rewrite !list_elem_of_fmap. split.
  - intros (p & -> & Hp%unique_by_url_elem).
    exists p. split; [done|]. by apply last_filter_elem in Hp as [? _].
  - intros (p & -> & Hp).
    destruct (last (filter (λ q, url q = url p) l)) as [w|] eqn:Hlast.
    + destruct (last_filter_elem _ _ _ Hlast) as [_ Hw].
      exists w. split; [done|]. apply unique_by_url_elem. by rewrite Hw.
    + apply last_None in Hlast.
      assert (p ∈ filter (λ q, url q = url p) l) as Hin
        by by apply list_elem_of_filter.
      rewrite Hlast in Hin. by apply elem_of_nil in Hin.
Qed.

(** X1. The list without duplicates has no two references with the same
    URL, has exactly the URLs of the list it is made from, and holds for
    each URL the last reference of that list with this URL (the last
    title seen wins). *)
Theorem unique_by_url_spec (pdf_links : list pdf_info) :
  NoDup (url <$> unique_by_url pdf_links)
  ∧ (∀ u, u ∈ url <$> unique_by_url pdf_links ↔ u ∈ url <$> pdf_links)
  ∧ (∀ p, p ∈ unique_by_url pdf_links
          ↔ last (filter (λ q, url q = url p) pdf_links) = Some p).
Proof.
  split_and!; [apply unique_by_url_NoDup|apply unique_by_url_urls
              |apply unique_by_url_elem].
Qed.

(** ** The limit on the links of a page *)

Lemma limit_links_prefix max_downloads (l : list pdf_info) :
  limit_links max_downloads l `prefix_of` l.
Proof.
  unfold limit_links, slice_to.
  repeat case_match; try done; apply prefix_take.
Qed.

(** X2. For a limit that is not negative, the references a page gives are
    at most [max_downloads], they are the first ones of the page's
    references without duplicates (all of them when these are not more
    than the limit), no two of them have the same URL, and a page that
    could not be fetched or parsed gives none. *)
Theorem get_pdf_links_from_page_limit max_downloads scraped :
  (0 ≤ max_downloads)%Z →
  (length (get_pdf_links_from_page max_downloads scraped)
     ≤ Z.to_nat max_downloads)
  ∧ get_pdf_links_from_page max_downloads scraped
      = take (Z.to_nat max_downloads) (unique_by_url (default [] scraped))
  ∧ NoDup (url <$> get_pdf_links_from_page max_downloads scraped)
  ∧ (scraped = None → get_pdf_links_from_page max_downloads scraped = []).
Proof.
  intros Hmax.
  assert (get_pdf_links_from_page max_downloads scraped
          = take (Z.to_nat max_downloads) (unique_by_url (default [] scraped)))
    as Heq.
  { destruct scraped as [l|]; simpl; [|by destruct (Z.to_nat max_downloads)].
    unfold limit_links, slice_to.
    destruct (Z.ltb_spec max_downloads 0) as [?|_]; [lia|].
    destruct (Z.ltb_spec max_downloads
                (Z.of_nat (length (unique_by_url l)))) as [?|Hge]; [done|].
    rewrite take_ge; [done|]. lia. }
  split_and!; [| done | |by intros ->].
  - rewrite Heq, length_take. lia.
  - rewrite Heq, fmap_take.
    eapply sublist_NoDup; [apply unique_by_url_NoDup|apply sublist_take].
Qed.

Lemma get_pdf_links_from_page_limit_witness :
  let scraped :=
    Some [ {| url := lit "u/a.pdf"; title := lit "A" |};
           {| url := lit "u/b.pdf"; title := lit "B" |};
           {| url := lit "u/a.pdf"; title := lit "A again" |};
           {| url := lit "u/c.pdf"; title := lit "C" |} ] in
  (0 ≤ 2)%Z
  ∧ get_pdf_links_from_page 2 scraped
    = [ {| url := lit "u/a.pdf"; title := lit "A again" |};
        {| url := lit "u/b.pdf"; title := lit "B" |} ]
  ∧ length (get_pdf_links_from_page 2 scraped) ≤ Z.to_nat 2.
Proof.
  intros scraped. split; [lia|]. split; [by vm_compute|].
  apply (get_pdf_links_from_page_limit 2 scraped). lia.
Defined.

(** ** Names that [sanitize_filename] leaves alone *)

Lemma re_sub_invalid_valid (s : pystr) :
  Forall (λ c, is_invalid c = false) s → re_sub_invalid s = s.
Proof.
  unfold re_sub_invalid. induction 1 as [|c s Hc _ IH]; [done|].
  rewrite fmap_cons, IH, Hc. done.
Qed.

Lemma strip_end_clean (s : pystr) : ends_clean s = true → strip_end s = s.
Proof.
  unfold ends_clean, strip_end. destruct (last s) as [c|]; [|done].
  by intros ->%negb_true_iff.
Qed.

Lemma strip_end_app (l1 l2 : pystr) :
  l2 ≠ [] → strip_end (l1 ++ l2) = l1 ++ strip_end l2.
Proof.
  intros Hne. unfold strip_end. rewrite last_app.
  destruct (last l2) as [c|] eqn:Hlast.
  - destruct (isspace c); [|done]. by apply removelast_app.
  - by apply last_None in Hlast.
Qed.

Lemma strip_end_length (s : pystr) : length (strip_end s) ≤ length s.
Proof.
  unfold strip_end. destruct (last s) as [c|]; [|done].
  destruct (isspace c); [|done].
  destruct s as [|a s] using rev_ind; [done|].
  rewrite removelast_last, length_app. lia.
Qed.

Lemma split_from_nonempty cur s : cur ≠ [] → split_from cur s ≠ [].
Proof.
  revert cur. induction s as [|c s IH]; intros cur Hcur; cbn [split_from].
  - by destruct cur.
  - destruct (isspace c); [by destruct cur|]. by apply IH.
Qed.

Lemma py_join_cons sep (p q : pystr) ps :
  py_join sep (p :: q :: ps) = p ++ sep ++ py_join sep (q :: ps).
Proof. done. Qed.

(** On a text whose whitespace is in good order, splitting and joining
    with single spaces removes a space at the end and nothing else. *)
Lemma join_split_from cur s :
  Forall (λ c, isspace c = false) cur →
  tidy_from (bool_decide (cur = [])) s = true →
  py_join [space] (split_from cur s) = strip_end (reverse cur ++ s).
Proof.
  revert cur. induction s as [|c s IH]; intros cur Hcur Htidy.
  - cbn [split_from]. rewrite app_nil_r.
    destruct cur as [|a cur]; [done|]. cbn [py_join].
    symmetry. apply strip_end_clean. unfold ends_clean.
    rewrite reverse_cons, last_snoc.
    apply Forall_cons_1 in Hcur as [-> _]. done.
  - cbn [split_from tidy_from] in *. destruct (isspace c) eqn:Hc.
    + apply andb_true_iff in Htidy as [[->%N.eqb_eq Hne]%andb_true_iff Hs].
      apply negb_true_iff, bool_decide_eq_false in Hne.
      destruct cur as [|a cur]; [done|].
      specialize (IH [] ltac:(constructor) Hs). rewrite reverse_nil in IH.
      simpl in IH. destruct s as [|c' s].
      * cbn [split_from py_join].
        unfold strip_end. rewrite last_snoc. change (isspace space) with true.
        cbn iota. by rewrite removelast_last.
      * rewrite strip_end_app by done.
        cbn [tidy_from] in Hs. destruct (isspace c') eqn:Hc'.
        { by rewrite andb_false_r in Hs. }
        assert (split_from [] (c' :: s) ≠ []) as Hsplit.
        { cbn [split_from]. rewrite Hc'. by apply split_from_nonempty. }
        destruct (split_from [] (c' :: s)) as [|w ws] eqn:Hws; [done|].
        rewrite py_join_cons, IH.
        change (space :: c' :: s) with ([space] ++ c' :: s).
        by rewrite strip_end_app.
    + rewrite IH.
      * by rewrite reverse_cons, <- app_assoc.
      * by constructor.
      * done.
Qed.

Lemma join_split_tidy (s : pystr) :
  tidy s = true → py_join [space] (py_split s) = strip_end s.
Proof. intros Hs. by apply (join_split_from [] s). Qed.

Lemma sanitize_filename_clean (s : pystr) :
  Forall (λ c, is_invalid c = false) s →
  tidy s = true → ends_clean s = true → length s ≤ 200 →
  sanitize_filename s = s.
Proof.
  intros Hvalid Htidy Hend Hlen. unfold sanitize_filename.
  rewrite re_sub_invalid_valid, join_split_tidy, strip_end_clean by done.
  by apply take_ge.
Qed.

(** X3. Whatever the text, the sanitised name has at most 200 characters,
    none of the nine forbidden characters, no whitespace at its start, no
    two whitespace characters in a row and no whitespace character other
    than the space. *)
Theorem sanitize_filename_shape (filename : pystr) :
  length (sanitize_filename filename) ≤ 200
  ∧ Forall (λ c, c ∉ invalid_chars) (sanitize_filename filename)
  ∧ tidy (sanitize_filename filename) = true.
Proof.
  destruct (sanitize_filename_always filename) as (Hlen & Hvalid & Htidy & _).
  split_and!; [done| |done].
  eapply Forall_impl; [exact Hvalid|]. intros c Hc. unfold is_invalid in Hc.
  by apply bool_decide_eq_false in Hc.
Qed.

(** X4. A name that needs no repair is returned as it is: no forbidden
    character, whitespace in good order, no whitespace at the end and at
    most 200 characters. *)
Theorem sanitize_filename_fixed_point (filename : pystr) :
  Forall (λ c, c ∉ invalid_chars) filename →
  tidy filename = true →
  ends_clean filename = true →
  length filename ≤ 200 →
  sanitize_filename filename = filename.
Proof.
  intros Hvalid. apply sanitize_filename_clean.
  eapply Forall_impl; [exact Hvalid|]. intros c Hc.
  by apply bool_decide_eq_false.
Qed.

Lemma sanitize_filename_fixed_point_witness :
  sanitize_filename (lit "POS 2041 American Government.pdf")
  = lit "POS 2041 American Government.pdf".
Proof.
  apply sanitize_filename_fixed_point.
  - apply (bool_decide_unpack _). vm_compute. reflexivity.
  - vm_compute. reflexivity.
  - vm_compute. reflexivity.
  - vm_compute. lia.
Defined.

(** X5. Sanitising a second time does no more than drop a space left at
    the end by the cut at 200 characters; the name then has no
    whitespace at its end and further applications do not change it. *)
Theorem sanitize_filename_settles (filename : pystr) :
  sanitize_filename (sanitize_filename filename)
    = strip_end (sanitize_filename filename)
  ∧ ends_clean (sanitize_filename (sanitize_filename filename)) = true
  ∧ sanitize_filename (sanitize_filename (sanitize_filename filename))
    = sanitize_filename (sanitize_filename filename).
Proof.
  destruct (sanitize_filename_always filename) as (Hlen & Hvalid & Htidy & _).
  set (t := sanitize_filename filename) in *.
  destruct (sanitize_filename_always t) as (Hlen' & Hvalid' & Htidy' & Hend).
  assert (py_join [space] (py_split (re_sub_invalid t)) = strip_end t)
    as Hjoin.
  { by rewrite re_sub_invalid_valid, join_split_tidy. }
  pose proof (strip_end_length t) as Hstrip.
  assert (sanitize_filename t = strip_end t) as Heq.
  { unfold sanitize_filename. rewrite Hjoin. apply take_ge. lia. }
  split_and!; [done| |].
  - apply Hend. rewrite Hjoin. lia.
  - apply sanitize_filename_clean; [done|done| |done].
    apply Hend. rewrite Hjoin. lia.
Qed.

(** ** The name a call claims *)

(** X6. The naming loop always ends, with the first candidate that is
    not registered: the base name when it is free, and otherwise the base
    name with the least counter from 1 on whose suffixed name is free. *)
Theorem unique_filename_first_free (files : gset pystr) base_filename :
  ∃ filename,
    unique_filename files base_filename = Some filename
    ∧ (filename ∉ files)
    ∧ (base_filename ∉ files → filename = base_filename)
    ∧ (base_filename ∈ files →
       ∃ k, 1 ≤ k ∧ filename = suffixed base_filename k
            ∧ ∀ j, 1 ≤ j < k → suffixed base_filename j ∈ files).
Proof.
  destruct (unique_filename_total files base_filename) as (f & Hf & Hfresh).
  exists f. split_and!; [done|done| |];
    apply unique_loop_first in Hf as [[-> ?]|(? & k & ? & -> & ?)];
    try done.
  - by exists k.
Qed.

(** ** What a call does to the folder and to the registry *)

Lemma path_exists_false f st :
  path_exists f st = false → folder st !! f = None.
Proof.
  unfold path_exists. intros Hex%bool_decide_eq_false.
  by apply eq_None_not_Some.
Qed.

Lemma download_pdf_cases net info st :
  ∃ filename,
    unique_filename (downloaded_files st) (base_filename_of info)
      = Some filename
    ∧ (filename ∉ downloaded_files st)
    ∧ download_pdf net info st
      = if path_exists filename st
        then Some (true, registry_add filename (emit (Skipped filename) st))
        else Some (transfer net info filename (registry_add filename st)).
Proof.
  destruct (unique_filename_total (downloaded_files st)
              (base_filename_of info)) as (f & Hf & Hfresh).
  exists f. split_and!; [done|done|]. unfold download_pdf. by rewrite Hf.
Qed.

Lemma download_pdf_frame net info st :
  ∃ ok st',
    download_pdf net info st = Some (ok, st')
    ∧ folder st ⊆ folder st'
    ∧ downloaded_files st ⊆ downloaded_files st'
    ∧ (∃ new, trace st' = trace st ++ new
              ∧ length (List.filter is_request new) ≤ 1)
    ∧ (ok = false →
       folder st' = folder st ∧ downloaded_files st' = downloaded_files st)
    ∧ (ok = true →
       ∃ filename,
         (filename ∉ downloaded_files st)
         ∧ downloaded_files st' = {[filename]} ∪ downloaded_files st
         ∧ filename ∈ dom (folder st')
         ∧ dom (folder st') ⊆ {[filename]} ∪ dom (folder st)).
Proof.
  destruct (download_pdf_cases net info st) as (f & _ & Hfresh & ->).
  destruct (path_exists f st) eqn:Hex.
  - eexists _, _. split; [done|]. simpl. split_and!.
    + done.
    + set_solver.
    + exists [Skipped f]. split; [done|]. simpl. lia.
    + done.
    + intros _. exists f. split_and!; [done|done| |set_solver].
      apply elem_of_dom. unfold path_exists in Hex.
      by apply bool_decide_eq_true in Hex.
  - apply path_exists_false in Hex. unfold transfer. simpl.
    destruct (net (url info)) as [|ct content];
      [|destruct (not_a_pdf ct content)];
      (eexists _, _; split; [done|]); simpl; split_and!.
    + done.
    + set_solver.
    + exists [Requested (url info); Failed (url info)].
      split; [by rewrite <- app_assoc|]. simpl. lia.
    + intros _. split; [done|]. by apply discard_add_fresh.
    + done.
    + done.
    + set_solver.
    + exists [Requested (url info); NotValidPdf f].
      split; [by rewrite <- app_assoc|]. simpl. lia.
    + intros _. split; [done|]. by apply discard_add_fresh.
    + done.
    + by apply insert_subseteq.
    + set_solver.
    + exists [Requested (url info); Written f].
      split; [by rewrite <- app_assoc|]. simpl. lia.
    + done.
    + intros _. exists f. split_and!; [done|done| |].
      * apply elem_of_dom. rewrite lookup_insert_eq. by eexists.
      * by rewrite dom_insert.
Qed.


(** X8. When the request raises (a network error, a timeout or an error
    status), the call returns failure after that one request, prints the
    error, and leaves the folder and the registry as they were: the name
    it had claimed is free again. *)
Theorem download_pdf_network_error net info st filename :
  unique_filename (downloaded_files st) (base_filename_of info)
    = Some filename →
  path_exists filename st = false →
  net (url info) = NetError →
  download_pdf net info st
  = Some (false,
          {| downloaded_files := downloaded_files st;
             folder := folder st;
             trace := trace st ++ [Requested (url info); Failed (url info)] |}).
Proof.
  intros Hname Hex Hnet.
  assert (filename ∉ downloaded_files st) as Hfresh
    by by eapply unique_loop_fresh.
  unfold download_pdf. rewrite Hname. simpl. rewrite Hex.
  unfold transfer. rewrite Hnet.
  unfold registry_discard, emit, registry_add. simpl.
  by rewrite discard_add_fresh, <- app_assoc.
Qed.


(** X10. The interleaving machine agrees with the sequential function: a
    worker that runs alone on a downloader goes from the entry of
    [download_pdf] to its return in finitely many steps, with the result
    and the state the function computes, and leaves the lock free. *)
Theorem download_pdf_one_worker net info st :
  ∃ ok st' n filename,
    download_pdf net info st = Some (ok, st')
    ∧ run_schedule net (replicate n 0) (init [info] st)
      = {| threads := [Returned ok filename];
           sh := {| lock := None; obj := st' |} |}.
Proof.
  destruct (download_pdf_total net info st) as [[ok st'] Hrun].
  destruct (solo_run net info st ok st' Hrun) as (n & f & Hn).
  by exists ok, st', n, f.
Qed.

(** ** Concurrent calls: files are written once, and no deadlock *)

Ltac moved H :=
  let E := fresh "E" in
  apply lookup_moved in H as [[-> E]|[? H]];
  [try subst | |by eapply lookup_lt_Some].

Ltac mv H := moved H; simplify_eq/=; try done.

Lemma init_inv_more infos st : inv_more (init infos st).
Proof.
  split; simpl; [done|].
  by intros t info f (info' & ? & _)%list_lookup_fmap_Some.
Qed.

Lemma step_inv_more net t m m' :
  inv m → inv_more m → step net t m = Some m' →
  inv_more m' ∧ folder (obj (sh m)) ⊆ folder (obj (sh m')).
Proof.
  intros [Hlock Hfree Hreg Hdist Hdisk] [Hown Hun]. unfold step.
  destruct (threads m !! t) as [p|] eqn:Hp; [simpl|done].
  destruct (thread_step net t p (sh m)) as [[p' s']|] eqn:Hstep; [simpl|done].
  intros [= <-].
  assert (t < length (threads m)) as Hlt by by eapply lookup_lt_Some.
  destruct p as [info|info counter filename|info filename|info filename
                 |filename|ok filename]; simpl in Hstep.
  - destruct (lock (sh m)) eqn:Hl; simplify_eq.
    split; [split|done]; simpl.
    + intros t0 [= <-]. eexists. by rewrite list_lookup_insert_eq.
    + intros t0 i0 f0 Hlk. mv Hlk. eauto.
  - pose proof (Hlock _ _ Hp I) as Hmine.
    case_bool_decide as Hin; simplify_eq; (split; [split|done]); simpl.
    all: try (intros t0 Ht0; rewrite Hmine in Ht0; simplify_eq;
              eexists; by rewrite list_lookup_insert_eq).
    all: intros t0 i0 f0 Hlk; mv Hlk; by eauto.
  - destruct (path_exists filename (obj (sh m))) eqn:Hex; simplify_eq;
      (split; [split|done]); simpl; try done.
    + intros t0 i0 f0 Hlk. mv Hlk. eauto.
    + intros t0 i0 f0 Hlk. mv Hlk; [|by eauto].
      by apply path_exists_false.
  - assert (folder (obj (sh m)) !! filename = None) as Hnone by eauto.
    assert (lock (sh m) ≠ Some t) as Hnot.
    { intros (p & Hp' & Hc)%Hown. by simplify_eq. }
    destruct (net (url info)) as [|ct content]; simplify_eq;
      [|destruct (not_a_pdf ct content); simplify_eq]; simpl.
    all: split; [split|]; simpl; try done.
    all: try (intros t0 Ht0; destruct (Hown _ Ht0) as (p0 & Hp0 & Hc);
              exists p0; split; [|done];
              rewrite list_lookup_insert_ne; [done|congruence]).
    all: try (intros t0 i0 f0 Hlk; mv Hlk; by eauto).
    + intros t0 i0 f0 Hlk. mv Hlk.
      rewrite lookup_insert_ne; [by eauto|].
      intros ->. by pose proof (Hdist t t0 _ _ f0 Hp Hlk eq_refl eq_refl).
    + by apply insert_subseteq.
  - destruct (lock (sh m)) eqn:Hl; [done|]. injection Hstep as <- <-.
    split; [split|done]; simpl.
    + intros t0 Ht0. congruence.
    + intros t0 i0 f0 Hlk. mv Hlk. eauto.
  - done.
Qed.

Lemma run_inv_more net sched m :
  inv m → inv_more m →
  inv_more (run_schedule net sched m)
  ∧ folder (obj (sh m)) ⊆ folder (obj (sh (run_schedule net sched m))).
Proof.
  revert m. induction sched as [|t sched IH]; intros m Hm Hmore; [done|].
  simpl. destruct (step net t m) as [m'|] eqn:Hs; simpl; [|by apply IH].
  destruct (step_inv_more net t m m' Hm Hmore Hs) as [Hmore' Hsub].
  destruct (IH m') as [? ?]; [by eapply step_inv|done|].
  split; [done|]. by etrans.
Qed.

(** X11. Concurrent downloads write each file once.  Whatever the
    workers, the references, the answers of the network and the
    interleaving, a file that is in the folder at some point of the run
    (from the start, or written by a worker) is there with the same
    content at every later point: no worker overwrites or removes the
    file of another one or a file that was there before. *)
Theorem concurrent_downloads_keep_files net infos st sched later :
  folder (obj (sh (run_schedule net sched (init infos st))))
  ⊆ folder (obj (sh (run_schedule net (sched ++ later) (init infos st)))).
Proof.
  rewrite run_app.
  destruct (run_inv_more net sched (init infos st)) as [Hmore _];
    [apply init_inv|apply init_inv_more|].
  apply run_inv_more; [|done]. apply run_inv, init_inv.
Qed.

(** X12. The workers cannot deadlock.  In every state that is reached,
    either every worker has returned, and then the lock is free, or some
    worker can take a step. *)
Theorem concurrent_downloads_no_deadlock net infos st sched :
  (Forall (λ p, finished p = true)
          (threads (run_schedule net sched (init infos st)))
   ∧ lock (sh (run_schedule net sched (init infos st))) = None)
  ∨ (∃ t m',
       step net t (run_schedule net sched (init infos st)) = Some m').
Proof.
  pose proof (run_inv net sched _ (init_inv infos st)) as [Hlock _ _ _ _].
  destruct (run_inv_more net sched (init infos st)) as [[Hown _] _];
    [apply init_inv|apply init_inv_more|].
  set (m := run_schedule net sched (init infos st)) in *.
  destruct (lock (sh m)) as [t0|] eqn:Hl.
  - right. destruct (Hown t0 eq_refl) as (p & Hp & Hc). exists t0.
    unfold step. rewrite Hp. simpl.
    destruct p as [| info counter filename | info filename | | |];
      try done; simpl.
    + case_bool_decide; by eexists.
    + destruct (path_exists _ _); by eexists.
  - destruct (decide (Forall (λ p, finished p = true) (threads m)))
      as [Hall|Hsome]; [by left|right].
    apply not_Forall_Exists in Hsome; [|apply _].
    apply Exists_exists in Hsome as (p & Hin & Hp).
    apply list_elem_of_lookup in Hin as [t Ht]. exists t.
    unfold step. rewrite Ht. simpl.
    destruct p as [info|info counter filename|info filename|info filename
                   |filename|ok filename]; simpl; try done.
    + rewrite Hl. by eexists.
    + pose proof (Hlock _ _ Ht I). congruence.
    + pose proof (Hlock _ _ Ht I). congruence.
    + destruct (net (url info)) as [|ct content];
        [|destruct (not_a_pdf ct content)]; by eexists.
    + rewrite Hl. by eexists.
    + by destruct Hp.
Qed.

(** ** Concurrent calls: the workers can always finish *)

Lemma drive_step net t m m1 m2 :
  step net t m = Some m1 →
  (∃ n, run_schedule net (replicate n t) m1 = m2) →
  ∃ n, run_schedule net (replicate n t) m = m2.
Proof. intros Hs [n Hn]. exists (S n). simpl. by rewrite Hs. Qed.

Lemma drive_releasing net t ths st f :
  ths !! t = Some (Releasing f) →
  ∃ n ok f' st',
    run_schedule net (replicate n t)
      {| threads := ths; sh := {| lock := None; obj := st |} |}
    = {| threads := <[t := Returned ok f']> ths;
         sh := {| lock := None; obj := st' |} |}.
Proof.
  intros Ht. exists 1, false, f. eexists. simpl. unfold step. simpl.
  rewrite Ht. simpl. done.
Qed.

Lemma drive_fetching net t ths st info f :
  ths !! t = Some (Fetching info f) →
  ∃ n ok f' st',
    run_schedule net (replicate n t)
      {| threads := ths; sh := {| lock := None; obj := st |} |}
    = {| threads := <[t := Returned ok f']> ths;
         sh := {| lock := None; obj := st' |} |}.
Proof.
  intros Ht.
  assert (t < length ths) as Hlt by by eapply lookup_lt_Some.
  assert (∀ e, ∃ n ok f' st',
            run_schedule net (replicate n t)
              {| threads := <[t := Releasing f]> ths;
                 sh := {| lock := None; obj := e |} |}
            = {| threads := <[t := Returned ok f']> ths;
                 sh := {| lock := None; obj := st' |} |}) as Hrel.
  { intros e.
    destruct (drive_releasing net t (<[t := Releasing f]> ths) e f)
      as (n & ok & f' & st' & Hn); [by rewrite list_lookup_insert_eq|].
    rewrite list_insert_insert_eq in Hn. by exists n, ok, f', st'. }
  destruct (net (url info)) as [|ct content] eqn:Hnet;
    [|destruct (not_a_pdf ct content) eqn:Hbad].
  - destruct (Hrel (emit (Failed (url info))
                      (emit (Requested (url info)) st)))
      as (n & ok & f' & st' & Hn).
    exists (S n), ok, f', st'. simpl. unfold step. simpl.
    rewrite Ht. simpl. rewrite Hnet. simpl. done.
  - destruct (Hrel (emit (NotValidPdf f)
                      (emit (Requested (url info)) st)))
      as (n & ok & f' & st' & Hn).
    exists (S n), ok, f', st'. simpl. unfold step. simpl.
    rewrite Ht. simpl. rewrite Hnet, Hbad. simpl. done.
  - exists 1, true, f. eexists. simpl. unfold step. simpl.
    rewrite Ht. simpl. rewrite Hnet, Hbad. simpl. done.
Qed.

Lemma drive_at_exists net t ths l st info f :
  ths !! t = Some (AtExists info f) →
  ∃ n ok f' st',
    run_schedule net (replicate n t)
      {| threads := ths; sh := {| lock := l; obj := st |} |}
    = {| threads := <[t := Returned ok f']> ths;
         sh := {| lock := None; obj := st' |} |}.
Proof.
  intros Ht.
  assert (t < length ths) as Hlt by by eapply lookup_lt_Some.
  destruct (path_exists f st) eqn:Hex.
  - exists 1, true, f. eexists. simpl. unfold step. simpl.
    rewrite Ht. simpl. rewrite Hex. simpl. done.
  - destruct (drive_fetching net t (<[t := Fetching info f]> ths)
                (registry_add f st) info f)
      as (n & ok & f' & st' & Hn); [by rewrite list_lookup_insert_eq|].
    rewrite list_insert_insert_eq in Hn.
    exists (S n), ok, f', st'. simpl. unfold step. simpl.
    rewrite Ht. simpl. rewrite Hex. simpl. done.
Qed.

Lemma drive_loop net fuel t ths l st info counter filename f :
  ths !! t = Some (InLoop info counter filename) →
  unique_loop fuel (downloaded_files st) (base_filename_of info)
    counter filename = Some f →
  ∃ n, run_schedule net (replicate n t)
         {| threads := ths; sh := {| lock := l; obj := st |} |}
       = {| threads := <[t := AtExists info f]> ths;
            sh := {| lock := l; obj := st |} |}.
Proof.
  revert ths counter filename.
  induction fuel as [|fuel IH]; intros ths counter filename Ht; simpl;
    case_bool_decide as Hin; try done.
  - intros [= <-]. exists 1. simpl. unfold step. simpl. rewrite Ht. simpl.
    by rewrite bool_decide_eq_false_2.
  - intros Hloop.
    assert (t < length ths) as Hlt by by eapply lookup_lt_Some.
    destruct (IH (<[t := InLoop info (S counter)
                          (suffixed (base_filename_of info) counter)]> ths)
                 (S counter) (suffixed (base_filename_of info) counter))
      as [n Hn]; [by rewrite list_lookup_insert_eq|done|].
    rewrite list_insert_insert_eq in Hn.
    exists (S n). simpl. unfold step. simpl. rewrite Ht. simpl.
    by rewrite bool_decide_eq_true_2.
  - intros [= <-]. exists 1. simpl. unfold step. simpl. rewrite Ht. simpl.
    by rewrite bool_decide_eq_false_2.
Qed.

Lemma drive_in_loop net t ths l st info counter filename :
  ths !! t = Some (InLoop info counter filename) →
  ∃ n ok f' st',
    run_schedule net (replicate n t)
      {| threads := ths; sh := {| lock := l; obj := st |} |}
    = {| threads := <[t := Returned ok f']> ths;
         sh := {| lock := None; obj := st' |} |}.
Proof.
  intros Ht.
  assert (t < length ths) as Hlt by by eapply lookup_lt_Some.
  destruct (unique_loop_enough (S (size (downloaded_files st)))
              (downloaded_files st) (base_filename_of info) counter filename)
    as [f Hf]; [apply fresh_suffix_exists|].
  destruct (drive_loop net _ t ths l st info counter filename f Ht Hf)
    as [n Hn].
  destruct (drive_at_exists net t (<[t := AtExists info f]> ths) l st info f)
    as (k & ok & f' & st' & Hk); [by rewrite list_lookup_insert_eq|].
  rewrite list_insert_insert_eq in Hk.
  exists (n + k), ok, f', st'. by rewrite replicate_add, run_app, Hn.
Qed.

Lemma drive_entered net t ths st info :
  ths !! t = Some (Entered info) →
  ∃ n ok f' st',
    run_schedule net (replicate n t)
      {| threads := ths; sh := {| lock := None; obj := st |} |}
    = {| threads := <[t := Returned ok f']> ths;
         sh := {| lock := None; obj := st' |} |}.
Proof.
  intros Ht.
  assert (t < length ths) as Hlt by by eapply lookup_lt_Some.
  destruct (drive_in_loop net t
              (<[t := InLoop info 1 (base_filename_of info)]> ths)
              (Some t) st info 1 (base_filename_of info))
    as (n & ok & f' & st' & Hn); [by rewrite list_lookup_insert_eq|].
  rewrite list_insert_insert_eq in Hn.
  exists (S n), ok, f', st'. simpl. unfold step. simpl.
  rewrite Ht. simpl. done.
Qed.

Lemma run_length net sched m :
  length (threads (run_schedule net sched m)) = length (threads m).
Proof.
  revert m. induction sched as [|t sched IH]; intros m; [done|].
  simpl. rewrite IH. unfold step.
  destruct (threads m !! t) as [p|]; [simpl|done].
  destruct (thread_step net t p (sh m)) as [[p' s']|]; [simpl|done].
  by rewrite length_insert.
Qed.

(** A worker that is not kept out by the lock can be run to its
    return, and leaves the lock free. *)
Lemma drive net t m p :
  inv m → inv_more m →
  threads m !! t = Some p →
  (∀ t', lock (sh m) = Some t' → t' = t) →
  ∃ n ok f,
    threads (run_schedule net (replicate n t) m)
      = <[t := Returned ok f]> (threads m)
    ∧ lock (sh (run_schedule net (replicate n t) m)) = None.
Proof.
  intros [Hlock _ _ _ _] [Hown _] Ht Hmine.
  destruct m as [ths [l st]]. simpl in *.
  assert (¬ in_critical p → l = None) as Hfree.
  { intros Hnc. destruct l as [t'|]; [|done].
    destruct (Hown t' eq_refl) as (p' & Hp' & Hc).
    rewrite (Hmine t' eq_refl) in Hp'. by simplify_eq. }
  assert (
    (∃ n ok f st',
       run_schedule net (replicate n t)
         {| threads := ths; sh := {| lock := l; obj := st |} |}
       = {| threads := <[t := Returned ok f]> ths;
            sh := {| lock := None; obj := st' |} |}) →
    ∃ n ok f,
      threads (run_schedule net (replicate n t)
                 {| threads := ths; sh := {| lock := l; obj := st |} |})
        = <[t := Returned ok f]> ths
      ∧ lock (sh (run_schedule net (replicate n t)
                 {| threads := ths; sh := {| lock := l; obj := st |} |}))
        = None) as Hgo.
  { intros (n & ok & f & st' & Hn). exists n, ok, f. by rewrite Hn. }
  apply Hgo. clear Hgo.
  destruct p as [info|info counter filename|info filename|info filename
                 |filename|ok filename].
  - rewrite Hfree by by intros []. by eapply drive_entered.
  - by eapply drive_in_loop.
  - by eapply drive_at_exists.
  - rewrite Hfree by by intros []. by eapply drive_fetching.
  - rewrite Hfree by by intros []. by eapply drive_releasing.
  - rewrite Hfree by by intros []. exists 0, ok, filename, st. simpl.
    by rewrite list_insert_id.
Qed.

Lemma finish_below net k m :
  inv m → inv_more m → lock (sh m) = None →
  ∃ sched,
    lock (sh (run_schedule net sched m)) = None
    ∧ ∀ t p, t < k → threads (run_schedule net sched m) !! t = Some p →
             finished p = true.
Proof.
  intros Hm Hmore Hl. induction k as [|k (sched & Hl' & Hdone)].
  - exists []. split; [done|]. intros; lia.
  - set (m1 := run_schedule net sched m) in *.
    destruct (threads m1 !! k) as [p|] eqn:Hk.
    + destruct (drive net k m1 p) as (n & ok & f & Hths & Hlock);
        [by apply run_inv|by apply run_inv_more|done|intros ? ?; congruence|].
      exists (sched ++ replicate n k). rewrite run_app. fold m1.
      split; [done|]. intros t q Hlt. rewrite Hths.
      destruct (decide (t = k)) as [->|Hne].
      * rewrite list_lookup_insert_eq by by eapply lookup_lt_Some.
        by intros [= <-].
      * rewrite list_lookup_insert_ne by done. apply Hdone. lia.
    + exists sched. split; [done|]. intros t q Hlt Hq.
      destruct (decide (t = k)) as [->|Hne].
      { change (threads m1 !! k = Some q) in Hq. congruence. }
      eapply Hdone; [|done]. lia.
Qed.

(** X13. The downloads can always be completed: from every state that
    is reached, whatever the answers of the network, there is a
    continuation of the schedule after which every worker has returned
    and the lock is free.  In particular the naming loop ends under
    interference as well. *)
Theorem concurrent_downloads_can_finish net infos st sched :
  ∃ more,
    Forall (λ p, finished p = true)
           (threads (run_schedule net (sched ++ more) (init infos st)))
    ∧ lock (sh (run_schedule net (sched ++ more) (init infos st))) = None.
Proof.
  pose proof (run_inv net sched _ (init_inv infos st)) as Hm.
  destruct (run_inv_more net sched (init infos st)) as [Hmore _];
    [apply init_inv|apply init_inv_more|].
  set (m := run_schedule net sched (init infos st)) in *.
  assert (∃ s1, lock (sh (run_schedule net s1 m)) = None) as [s1 Hl1].
  { destruct (lock (sh m)) as [t0|] eqn:Hl; [|by exists []].
    destruct (more_owner m Hmore t0 Hl) as (p & Hp & _).
    destruct (drive net t0 m p) as (n & ok & f & _ & Hlock);
      [done|done|done|intros ? ?; congruence|].
    by exists (replicate n t0). }
  destruct (finish_below net (length (threads (run_schedule net s1 m)))
              (run_schedule net s1 m)) as (s2 & Hl2 & Hdone);
    [by apply run_inv|by apply run_inv_more|done|].
  exists (s1 ++ s2). rewrite !run_app. fold m. split; [|done].
  apply Forall_lookup. intros t p Ht. eapply Hdone; [|done].
  rewrite <- (run_length net s2). by eapply lookup_lt_Some.
Qed.

End MoreDownloader.

Section MoreDownloaderExamples.
Import Downloader App More Examples.

Lemma download_pdf_network_error_witness :
  download_pdf (H := ascii_runtime) (λ _, NetError) ref_one fresh
  = Some (false,
          {| downloaded_files := ∅; folder := ∅;
             trace := [Requested (url ref_one); Failed (url ref_one)] |}).
Proof.
  apply (download_pdf_network_error (H := ascii_runtime) (λ _, NetError)
           ref_one fresh name_one).
  - vm_compute. reflexivity.
  - vm_compute. reflexivity.
  - reflexivity.
Defined.


End MoreDownloaderExamples.

(** * Further properties of the job pipeline *)

Section MoreApp.
Import Downloader App More.
Context `{PyRuntime}.

Ltac run_stage :=
  unfold mbind, M_bind, bind, mret, M_ret, ret, progress_callback, write,
    call, modify, get, await, raise, try_except;
  cbn [entry written visible locals fst snd downloader all_pdf_links
         successful_downloads download_calls results processed_files
         successful_matches].

(** ** CSV export: the reading-materials and library columns *)

Lemma foldl_add_material (items : list material) (acc : material_lists) :
  foldl add_material acc items
  = {| required_list :=
         required_list acc ++ (rendering <$> List.filter required_item items);
       optional_list :=
         optional_list acc
           ++ (rendering <$> List.filter (λ i, negb (required_item i)) items);
       all_list := all_list acc ++ (rendering <$> items) |}.
Proof.
  revert acc. induction items as [|item items IH]; intros acc.
  - simpl. rewrite !app_nil_r. by destruct acc.
  - cbn [foldl]. rewrite IH. destruct item as [d|s]; cbn [add_material].
    + cbn [List.filter required_item rendering].
      destruct (is_required d); cbn [negb required_list optional_list all_list];
        by rewrite ?fmap_cons, <- ?app_assoc.
    + cbn [List.filter required_item rendering negb required_list
             optional_list all_list].
      by rewrite ?fmap_cons, <- ?app_assoc.
Qed.

(** X14. The reading-materials cells of a row, for any list of items that
    is not empty: the count is the number of items; the cell of all
    materials joins the texts of the items in their order; the required
    cell joins the texts of the dict items whose requirement is
    [required], the optional cell the texts of all other items (dicts
    with another or no requirement, and items that are no dicts).  Every
    item is in exactly one of the two. *)
Theorem csv_reading_materials_cells (r : result) (items : list material) :
  r_metadata r !! lit "reading_materials" = Some (MList items) →
  items ≠ [] →
  reading_materials_columns r
  = {| reading_materials_count := length items;
       required_materials :=
         py_join (lit "; ") (rendering <$> List.filter required_item items);
       optional_materials :=
         py_join (lit "; ")
           (rendering <$> List.filter (λ i, negb (required_item i)) items);
       reading_materials_list := py_join (lit "; ") (rendering <$> items) |}
  ∧ length (List.filter required_item items)
    + length (List.filter (λ i, negb (required_item i)) items)
    = length items.
Proof.
  intros Hr Hne. split.
  - unfold reading_materials_columns. rewrite Hr.
    destruct items as [|i items]; [done|].
    cbn [items_of]. by rewrite foldl_add_material.
  - clear. induction items as [|i items IH]; [done|]. simpl.
    destruct (required_item i); simpl; lia.
Qed.

(** X15. A reading-materials value that is a text and not a list is
    taken apart into its characters: the count is the length of the
    text, nothing is required, and the optional cell and the cell of all
    materials list the characters one by one. *)
Theorem csv_reading_materials_text (r : result) (s : pystr) :
  r_metadata r !! lit "reading_materials" = Some (MStr s) →
  s ≠ [] →
  reading_materials_columns r
  = {| reading_materials_count := length s;
       required_materials := [];
       optional_materials := py_join (lit "; ") ((λ c, [c]) <$> s);
       reading_materials_list := py_join (lit "; ") ((λ c, [c]) <$> s) |}.
Proof.
  intros Hr Hne. unfold reading_materials_columns. rewrite Hr.
  destruct s as [|c s]; [done|].
  rewrite foldl_add_material. cbn [items_of required_list optional_list
                                    all_list app].
  set (chars := (λ c0 : N, MOther [c0]) <$> c :: s).
  assert (List.filter required_item chars = []) as ->.
  { unfold chars. clear. induction (c :: s) as [|a l IH]; [done|].
    by rewrite fmap_cons. }
  assert (List.filter (λ i, negb (required_item i)) chars = chars) as ->.
  { unfold chars. clear. induction (c :: s) as [|a l IH]; [done|].
    rewrite fmap_cons. simpl. by rewrite IH. }
  assert (rendering <$> chars = (λ c0 : N, [c0]) <$> c :: s) as ->.
  { unfold chars. rewrite <- list_fmap_compose. done. }
  unfold chars. by rewrite length_fmap.
Qed.

Lemma foldl_add_resource (rs : list resource) (acc : resource_lists) :
  foldl add_resource acc rs
  = {| available_list :=
         available_list acc ++ (res_title <$> List.filter is_available rs);
       unavailable_list :=
         unavailable_list acc
           ++ (unavailable_text
                 <$> List.filter (λ x, negb (is_available x)) rs) |}.
Proof.
  revert acc. induction rs as [|x rs IH]; intros acc.
  - simpl. rewrite !app_nil_r. by destruct acc.
  - cbn [foldl]. rewrite IH. cbn [List.filter].
    assert (add_resource acc x
            = if is_available x
              then {| available_list := available_list acc ++ [res_title x];
                      unavailable_list := unavailable_list acc |}
              else {| available_list := available_list acc;
                      unavailable_list :=
                        unavailable_list acc ++ [unavailable_text x] |})
      as -> by done.
    destruct (is_available x);
      cbn [negb available_list unavailable_list];
      by rewrite ?fmap_cons, <- ?app_assoc.
Qed.

Lemma foldl_add_match (ms : list library_match) (acc : resource_lists) :
  foldl add_match acc ms
  = {| available_list :=
         available_list acc
           ++ (res_title
                 <$> List.filter is_available (concat (lm_matches <$> ms)));
       unavailable_list :=
         unavailable_list acc
           ++ (unavailable_text
                 <$> List.filter (λ x, negb (is_available x))
                       (concat (lm_matches <$> ms))) |}.
Proof.
  revert acc. induction ms as [|m ms IH]; intros acc.
  - simpl. rewrite !app_nil_r. by destruct acc.
  - cbn [foldl]. rewrite IH. unfold add_match. rewrite foldl_add_resource.
    cbn [available_list unavailable_list].
    rewrite fmap_cons. cbn [concat].
    by rewrite !List.filter_app, !fmap_app, <- !app_assoc.
Qed.

(** X16. The library cells of a row, for any list of matches that is not
    empty: the count is the number of matches (one for each reading
    material that was looked up), whatever the number of resources; the
    available cell joins the titles of the resources whose availability
    is [available], in the order of the matches, and the unavailable
    cell the titles of all others, each followed by its availability in
    parentheses.  A record without the key, or with an empty list, has
    count 0 and two empty cells. *)
Theorem csv_library_cells (r : result) :
  match r_library_matches r with
  | None | Some [] =>
      library_matching_columns r
      = {| library_matches_count := 0; available_resources := [];
           unavailable_resources := [] |}
  | Some ms =>
      library_matching_columns r
      = {| library_matches_count := length ms;
           available_resources :=
             py_join (lit "; ")
               (res_title
                  <$> List.filter is_available (concat (lm_matches <$> ms)));
           unavailable_resources :=
             py_join (lit "; ")
               (unavailable_text
                  <$> List.filter (λ x, negb (is_available x))
                        (concat (lm_matches <$> ms))) |}
  end.
Proof.
  unfold library_matching_columns.
  destruct (r_library_matches r) as [[|m ms]|]; [done| |done].
  by rewrite foldl_add_match.
Qed.

(** ** Acquisition: the counters of a job *)

Section MoreDiscover.
Context {D : Type} (ops : downloader_ops D).

Lemma count_successes_le refs d : count_successes ops refs d ≤ length refs.
Proof.
  revert d. induction refs as [|r refs IH]; intros d; simpl; [done|].
  destruct (download ops r d) as [[e|[]] d']; specialize (IH d'); lia.
Qed.

(** One round of the download loop, with what it does to the counters. *)
Lemma download_one_full n i pdf_info (s : stage_state (discover_locals D)) :
  ∃ s', download_one ops n i pdf_info s = (inr tt, s')
    ∧ downloader (locals s')
      = (download ops pdf_info (downloader (locals s))).2
    ∧ successful_downloads (locals s')
      = successful_downloads (locals s)
        + count_successes ops [pdf_info] (downloader (locals s))
    ∧ files_downloaded (entry s') = Some (successful_downloads (locals s'))
    ∧ files_found (entry s') = files_found (entry s)
    ∧ status (entry s') = status (entry s)
    ∧ all_pdf_links (locals s') = all_pdf_links (locals s)
    ∧ download_calls (locals s') = download_calls (locals s) ++ [pdf_info].
Proof.
  unfold download_one, call_download_pdf, set_successful_downloads, method.
  run_stage. cbn [count_successes].
  destruct (download ops pdf_info (downloader (locals s))) as [[e|[]] d'];
    run_stage; eexists; (split; [done|]); cbn; split_and!; try done; lia.
Qed.

Lemma download_loop_full n refs i (s : stage_state (discover_locals D)) :
  ∃ s', for_each (download_one ops n) i refs s = (inr tt, s')
    ∧ successful_downloads (locals s')
      = successful_downloads (locals s)
        + count_successes ops refs (downloader (locals s))
    ∧ files_found (entry s') = files_found (entry s)
    ∧ status (entry s') = status (entry s)
    ∧ all_pdf_links (locals s') = all_pdf_links (locals s)
    ∧ download_calls (locals s') = download_calls (locals s) ++ refs.
Proof.
  revert i s. induction refs as [|r refs IH]; intros i s; cbn [for_each].
  - exists s. rewrite app_nil_r. simpl. by rewrite Nat.add_0_r.
  - destruct (download_one_full n i r s)
      as (s1 & H1 & Hd1 & Hs1 & _ & Hf1 & Hst1 & Ha1 & Hc1).
    destruct (IH (S i) s1) as (s2 & H2 & Hs2 & Hf2 & Hst2 & Ha2 & Hc2).
    exists s2. run_stage. rewrite H1. split; [done|].
    rewrite Hs2, Hs1, Hf2, Hf1, Hst2, Hst1, Ha2, Ha1, Hc2, Hc1, Hd1,
      <- app_assoc.
    split_and!; try done. cbn [count_successes].
    destruct (download ops r (downloader (locals s))) as [[e|[]] d'];
      simpl; lia.
Qed.

(** The scan of the pages leaves the counters of the entry alone. *)
Lemma scan_page_entry n i u (s : stage_state (discover_locals D)) :
  files_found (entry (scan_page ops n i u s).2) = files_found (entry s)
  ∧ files_downloaded (entry (scan_page ops n i u s).2)
    = files_downloaded (entry s).
Proof.
  unfold scan_page, set_all_pdf_links, method. run_stage.
  by destruct (get_pdf_links ops u (downloader (locals s))) as [[e|links] d'].
Qed.

Lemma scan_loop_entry n urls i (s : stage_state (discover_locals D)) :
  files_found (entry (for_each (scan_page ops n) i urls s).2)
    = files_found (entry s)
  ∧ files_downloaded (entry (for_each (scan_page ops n) i urls s).2)
    = files_downloaded (entry s).
Proof.
  revert i s. induction urls as [|u urls IH]; intros i s; cbn [for_each];
    [done|].
  run_stage. pose proof (scan_page_entry n i u s) as [Hf Hd].
  destruct (scan_page ops n i u s) as [[e|[]] s1]; [done|].
  destruct (IH (S i) s1) as [Hf' Hd']. cbn [snd] in *.
  by rewrite Hf', Hd', Hf, Hd.
Qed.

Lemma discover_task_counters (is_polisci : bool) url e d :
  ∃ s', discover_task ops is_polisci url (start_discover e d) = (inr tt, s')
    ∧ ((status (entry s') = error
        ∧ download_calls (locals s') = []
        ∧ files_found (entry s') = files_found e
        ∧ files_downloaded (entry s') = files_downloaded e)
       ∨ (status (entry s') = completed
          ∧ files_found (entry s') = Some (length (all_pdf_links (locals s')))
          ∧ ∃ d1 (ok : nat),
              ok = count_successes ops (download_calls (locals s')) d1
              ∧ (is_polisci = true →
                 d1 = (get_pdf_links ops target_url d).2)
              ∧ files_downloaded (entry s') = Some ok
              ∧ ok ≤ length (download_calls (locals s'))
              ∧ length (download_calls (locals s'))
                ≤ length (all_pdf_links (locals s'))
              ∧ message (entry s')
                = (if is_polisci
                   then lit "Political Science download complete! "
                   else lit "Arts download complete! ")
                    ++ str_nat ok ++ lit "/"
                    ++ str_nat (length (download_calls (locals s')))
                    ++ lit " files downloaded")).
Proof.
  unfold discover_task, discover_try, start_discover, set_all_pdf_links,
    set_successful_downloads, method.
  destruct is_polisci; run_stage.
  - destruct (get_pdf_links ops target_url d) as [[err|links] d1] eqn:Hlinks;
      run_stage.
    + eexists. split; [done|]. left. by cbn.
    + match goal with
      | |- context [for_each (download_one ops ?n) ?i ?refs ?s] =>
          destruct (download_loop_full n refs i s)
            as (s2 & -> & Hok & Hfound & _ & Hall & Hcalls)
      end.
      cbn in Hok, Hfound, Hall, Hcalls.
      eexists. split; [done|]. right. cbn. rewrite Hfound, Hall, Hcalls.
      split_and!; try done.
      exists d1, (successful_downloads (locals s2)).
      rewrite Hok. split_and!; try done. apply count_successes_le.
  - destruct (get_semester_links ops d) as [[err|semester_links] d1];
      run_stage.
    + eexists. split; [done|]. left. by cbn.
    + match goal with
      | |- context [for_each (scan_page ops ?n) ?i ?urls ?s] =>
          pose proof (scan_loop_spec ops n urls i s) as Hscan;
          pose proof (scan_loop_entry n urls i s) as [Hsf Hsd];
          destruct (for_each (scan_page ops n) i urls s) as [[err|[]] s1]
      end; cbn in Hscan, Hsf, Hsd.
      * eexists. split; [done|]. left. by cbn.
      * match goal with
        | |- context [for_each (download_one ops ?n) ?i ?refs ?s] =>
            destruct (download_loop_full n refs i s)
              as (s2 & -> & Hok & Hfound & _ & Hall & Hcalls)
        end.
        cbn in Hok, Hfound, Hall, Hcalls.
        eexists. split; [done|]. right. cbn.
        rewrite Hfound, Hall, Hcalls, Hscan.
        split_and!; try done.
        exists (downloader (locals s1)), (successful_downloads (locals s2)).
        rewrite Hok. cbn [app]. split_and!; try done.
        -- apply count_successes_le.
        -- rewrite length_take. lia.
Qed.

(** X17. The counters of an acquisition.  The task never raises.  When
    it ends in [error] nothing was downloaded and the two counters of
    the entry are as they were.  When it ends in [completed],
    [files_found] is the number of references found, [files_downloaded]
    is the number of [download_pdf] calls that returned [True] (a call
    that raised counts as a failure and the loop goes on), it is at most
    the number of calls, and the final message reports the two
    numbers. *)
Theorem acquisition_counters (is_polisci : bool) url e d :
  ∃ s', discover_task ops is_polisci url (start_discover e d) = (inr tt, s')
    ∧ ((status (entry s') = error
        ∧ download_calls (locals s') = []
        ∧ files_found (entry s') = files_found e
        ∧ files_downloaded (entry s') = files_downloaded e)
       ∨ (status (entry s') = completed
          ∧ files_found (entry s') = Some (length (all_pdf_links (locals s')))
          ∧ ∃ d1 (ok : nat),
              ok = count_successes ops (download_calls (locals s')) d1
              ∧ (is_polisci = true →
                 d1 = (get_pdf_links ops target_url d).2)
              ∧ files_downloaded (entry s') = Some ok
              ∧ ok ≤ length (download_calls (locals s'))
              ∧ length (download_calls (locals s'))
                ≤ length (all_pdf_links (locals s'))
              ∧ message (entry s')
                = (if is_polisci
                   then lit "Political Science download complete! "
                   else lit "Arts download complete! ")
                    ++ str_nat ok ++ lit "/"
                    ++ str_nat (length (download_calls (locals s')))
                    ++ lit " files downloaded")).
Proof.
  unfold discover_task, discover_try, start_discover, set_all_pdf_links,
    set_successful_downloads, method.
  destruct is_polisci; run_stage.
  - destruct (get_pdf_links ops target_url d) as [[err|links] d1] eqn:Hlinks;
      run_stage.
    + eexists. split; [done|]. left. by cbn.
    + match goal with
      | |- context [for_each (download_one ops ?n) ?i ?refs ?s] =>
          destruct (download_loop_full n refs i s)
            as (s2 & -> & Hok & Hfound & _ & Hall & Hcalls)
      end.
      cbn in Hok, Hfound, Hall, Hcalls.
      eexists. split; [done|]. right. cbn. rewrite Hfound, Hall, Hcalls.
      split_and!; try done.
      exists d1, (successful_downloads (locals s2)).
      rewrite Hok. split_and!; try done. apply count_successes_le.
  - destruct (get_semester_links ops d) as [[err|semester_links] d1];
      run_stage.
    + eexists. split; [done|]. left. by cbn.
    + match goal with
      | |- context [for_each (scan_page ops ?n) ?i ?urls ?s] =>
          pose proof (scan_loop_spec ops n urls i s) as Hscan;
          pose proof (scan_loop_entry n urls i s) as [Hsf Hsd];
          destruct (for_each (scan_page ops n) i urls s) as [[err|[]] s1]
      end; cbn in Hscan, Hsf, Hsd.
      * eexists. split; [done|]. left. by cbn.
      * match goal with
        | |- context [for_each (download_one ops ?n) ?i ?refs ?s] =>
            destruct (download_loop_full n refs i s)
              as (s2 & -> & Hok & Hfound & _ & Hall & Hcalls)
        end.
        cbn in Hok, Hfound, Hall, Hcalls.
        eexists. split; [done|]. right. cbn.
        rewrite Hfound, Hall, Hcalls, Hscan.
        split_and!; try done.
        exists (downloader (locals s1)), (successful_downloads (locals s2)).
        rewrite Hok. cbn [app]. split_and!; try done.
        -- apply count_successes_le.
        -- rewrite length_take. lia.
Qed.

End MoreDiscover.

(** ** Acquisition for Political Science: the files behind the counter *)

Lemma polisci_download_all_files (net : pystr → net_result)
    (scrape : pystr → option (list pdf_info)) refs st :
  downloaded_files st ⊆ dom (folder st) →
  downloaded_files (download_all (polisci_ops net scrape) refs st)
    ⊆ dom (folder (download_all (polisci_ops net scrape) refs st))
  ∧ size (downloaded_files (download_all (polisci_ops net scrape) refs st))
    = size (downloaded_files st)
      + count_successes (polisci_ops net scrape) refs st
  ∧ folder st ⊆ folder (download_all (polisci_ops net scrape) refs st).
Proof.
  revert st. induction refs as [|r refs IH]; intros st Hst.
  - simpl. split_and!; [done|lia|done].
  - destruct (download_pdf_frame net r st)
      as (ok & st1 & Hrun & Hfolder & _ & _ & Hfail & Hok).
    assert (download (polisci_ops net scrape) r st = (inr ok, st1)) as Hcall.
    { simpl. by rewrite Hrun. }
    change (download_all (polisci_ops net scrape) (r :: refs) st)
      with (download_all (polisci_ops net scrape) refs
              (download (polisci_ops net scrape) r st).2).
    cbn [count_successes]. rewrite Hcall. cbn [snd].
    assert (downloaded_files st1 ⊆ dom (folder st1)
            ∧ size (downloaded_files st1)
              = size (downloaded_files st) + (if ok then 1 else 0))
      as [Hst1 Hsize].
    { destruct ok.
      - destruct (Hok eq_refl) as (f & Hfresh & Hreg & Hin & _).
        rewrite Hreg. split.
        + apply subseteq_dom in Hfolder. set_solver.
        + rewrite size_union by set_solver. rewrite size_singleton. lia.
      - destruct (Hfail eq_refl) as [-> ->]. split; [done|lia]. }
    destruct (IH st1 Hst1) as (Hsub & Hcount & Hgrow).
    split_and!; [done| |by etrans].
    rewrite Hcount, Hsize. destruct ok; lia.
Qed.

(** X26. An acquisition for Political Science always ends in
    [completed], also when the page cannot be fetched or parsed: it then
    reports 0 files found.  What it reports as downloaded is backed by
    files: [files_downloaded] is the number of names the downloader has
    registered, they are five at most, each of them is the name of a
    file in the job folder, and the files the folder had before are all
    still there with their content. *)
Theorem polisci_acquisition_files (net : pystr → net_result)
    (scrape : pystr → option (list pdf_info))
    (files : gmap pystr (list Byte.byte)) (url : pystr) (e : job_entry) :
  ∃ s',
    discover_task (polisci_ops net scrape) true url
      (start_discover e (new_polisci files)) = (inr tt, s')
    ∧ status (entry s') = completed
    ∧ files_found (entry s')
      = Some (length (get_pdf_links_from_page 5 (scrape target_url)))
    ∧ files_downloaded (entry s')
      = Some (size (downloaded_files (downloader (locals s'))))
    ∧ size (downloaded_files (downloader (locals s'))) ≤ 5
    ∧ downloaded_files (downloader (locals s'))
      ⊆ dom (folder (downloader (locals s')))
    ∧ files ⊆ folder (downloader (locals s')).
Proof.
  destruct (discover_task_spec (polisci_ops net scrape) true url e
              (new_polisci files))
    as (s' & Hrun & [(_ & _ & _ & Hfail)|(Hst & _ & Hcalls & Hok)]).
  { destruct (Hfail eq_refl) as (err & d1 & [=]). }
  destruct (Hok eq_refl) as (d1 & [= Hall <-] & Hdl).
  destruct (discover_task_counters (polisci_ops net scrape) true url e
              (new_polisci files))
    as (s'' & Hrun' & [(Herr & _)|(_ & Hfound & d2 & ok & -> & Hd2 & Hdown
                                   & Hle & _)]);
    rewrite Hrun in Hrun'; injection Hrun' as <-; [congruence|].
  rewrite (Hd2 eq_refl) in Hdown. cbn [get_pdf_links polisci_ops snd] in Hdown.
  destruct (polisci_download_all_files net scrape
              (all_pdf_links (locals s')) (new_polisci files))
    as (Hsub & Hsize & Hgrow).
  { simpl. set_solver. }
  rewrite <- Hdl in Hsub, Hsize, Hgrow.
  change (size (downloaded_files (new_polisci files))) with (size (∅ : gset pystr))
    in Hsize.
  rewrite size_empty in Hsize. cbn [plus] in Hsize.
  exists s'. rewrite Hfound, Hdown, Hsize, Hcalls, <- Hall.
  split_and!; try done.
  etrans; [apply count_successes_le|].
  unfold get_pdf_links_from_page. destruct (scrape target_url); simpl; [|lia].
  rewrite limit_links_5, length_take. lia.
Qed.

(** ** Extraction: what a finished task leaves behind *)

Section MoreExtraction.
Variable extract_text_func : pystr → exn + pystr.
Variable llm_extract_func : pystr → exn + gmap pystr mvalue.
Variable heuristic_func : pystr → exn + gmap pystr mvalue.
Variable extract_tables_func : pystr → exn + list pystr.
Variable save_json : pystr → list result → exn + unit.

Abbreviation process_file :=
  (process_file extract_text_func llm_extract_func heuristic_func
     extract_tables_func).
Abbreviation extract_metadata_background :=
  (extract_metadata_background extract_text_func llm_extract_func
     heuristic_func extract_tables_func save_json).

(** A round of the loop writes neither the status nor the name of the
    results file. *)
Lemma process_file_entry selected n i pdf_path
    (s : stage_state (list result)) :
  results_file (entry (process_file selected n i pdf_path s).2)
    = results_file (entry s)
  ∧ status (entry (process_file selected n i pdf_path s).2)
    = status (entry s).
Proof.
  unfold App.process_file, extract_with_fallback. run_stage.
  destruct (extract_text_func pdf_path) as [e|[|c text]]; run_stage;
    try done.
  destruct (llm_extract_func _) as [e1|out]; run_stage; [|done].
  by destruct (heuristic_func _) as [e2|out]; run_stage.
Qed.

Lemma process_loop_full selected n xs i (s : stage_state (list result)) :
  ∃ s' new,
    for_each (process_file selected n) i xs s = (inr tt, s')
    ∧ locals s' = locals s ++ new
    ∧ r_filename <$> new `sublist_of` xs
    ∧ Forall (λ r, dom (r_metadata r) = list_to_set selected
                   ∧ r_primo_check r = None
                   ∧ r_library_matches r = None) new
    ∧ results_file (entry s') = results_file (entry s)
    ∧ status (entry s') = status (entry s).
Proof.
  revert i s. induction xs as [|x xs IH]; intros i s; cbn [for_each].
  - exists s, []. by rewrite app_nil_r.
  - destruct (process_file_spec extract_text_func llm_extract_func
                heuristic_func extract_tables_func selected n i x s)
      as (s1 & H1 & Hrec).
    pose proof (process_file_entry selected n i x s) as [Hrf Hst].
    rewrite H1 in Hrf, Hst. cbn [snd] in Hrf, Hst.
    destruct (IH (S i) s1) as (s2 & new & H2 & Hloc & Hsub & Hall & Hrf2 & Hst2).
    run_stage. rewrite H1.
    destruct Hrec as [Hsame|(text & md & _ & _ & Happ & Hdom & _)].
    + exists s2, new. rewrite Hloc, Hsame, Hrf2, Hst2.
      split_and!; try done. by apply sublist_cons.
    + eexists s2, (_ :: new). rewrite Hloc, Happ, <- app_assoc, Hrf2, Hst2.
      split_and!; try done.
      * rewrite fmap_cons. by apply sublist_skip.
      * by constructor.
Qed.

Lemma extract_metadata_background_full job_id selected pdf_files
    (s : stage_state (list result)) :
  ∃ s' new,
    extract_metadata_background job_id selected pdf_files s = (inr tt, s')
    ∧ locals s' = locals s ++ new
    ∧ r_filename <$> new `sublist_of` pdf_files
    ∧ Forall (λ r, dom (r_metadata r) = list_to_set selected
                   ∧ r_primo_check r = None
                   ∧ r_library_matches r = None) new
    ∧ ((status (entry s') = completed
        ∧ pdf_files ≠ []
        ∧ save_json (metadata_file job_id) (locals s') = inr tt
        ∧ results_file (entry s') = Some (metadata_file job_id)
        ∧ progress (entry s') = 100%Z
        ∧ files_processed (entry s') = Some (length (locals s')))
       ∨ (status (entry s') = error
          ∧ results_file (entry s') = results_file (entry s)
          ∧ (pdf_files = []
             ∨ ∃ e, save_json (metadata_file job_id) (locals s') = inl e
                    ∧ message (entry s') = lit "Error: " ++ str_exn e))).
Proof.
  unfold App.extract_metadata_background, process_files.
  destruct pdf_files as [|p ps].
  - run_stage. eexists _, []. split; [done|]. cbn. rewrite app_nil_r.
    split_and!; try done. right. split_and!; try done. by left.
  - destruct (process_loop_full selected (length (p :: ps)) (p :: ps) 0 s)
      as (s1 & new & Hrun & Hloc & Hsub & Hall & Hrf & Hst).
    run_stage. rewrite Hrun.
    destruct (save_json (metadata_file job_id) (locals s1)) as [e|[]] eqn:Hsave;
      (eexists _, new; split; [done|]); cbn; split_and!; try done.
    + right. split_and!; try done. right. by exists e.
    + left. by split_and!.
Qed.

(** X18. What an extraction task leaves behind.  It never raises.  The
    records it has added are in the order of the files, one at most for
    a file and under the name of that file, each with exactly the
    selected fields and without library annotations.  It ends in
    [completed] only after the results file has been written with
    exactly these records: the entry then names that file, its progress
    is 100 and [files_processed] is the number of records.  Otherwise it
    ends in [error], and the entry names the results file it named
    before: the folder had no PDF, or writing the file raised and the
    message reports that exception. *)
Theorem extraction_outcome job_id selected pdf_files
    (s : stage_state (list result)) :
  ∃ s' new,
    extract_metadata_background job_id selected pdf_files s = (inr tt, s')
    ∧ locals s' = locals s ++ new
    ∧ r_filename <$> new `sublist_of` pdf_files
    ∧ Forall (λ r, dom (r_metadata r) = list_to_set selected
                   ∧ r_primo_check r = None
                   ∧ r_library_matches r = None) new
    ∧ ((status (entry s') = completed
        ∧ pdf_files ≠ []
        ∧ save_json (metadata_file job_id) (locals s') = inr tt
        ∧ results_file (entry s') = Some (metadata_file job_id)
        ∧ progress (entry s') = 100%Z
        ∧ files_processed (entry s') = Some (length (locals s')))
       ∨ (status (entry s') = error
          ∧ results_file (entry s') = results_file (entry s)
          ∧ (pdf_files = []
             ∨ ∃ e, save_json (metadata_file job_id) (locals s') = inl e
                    ∧ message (entry s') = lit "Error: " ++ str_exn e))).
Proof.
  unfold App.extract_metadata_background, process_files.
  destruct pdf_files as [|p ps].
  - run_stage. eexists _, []. split; [done|]. cbn. rewrite app_nil_r.
    split_and!; try done. right. split_and!; try done. by left.
  - destruct (process_loop_full selected (length (p :: ps)) (p :: ps) 0 s)
      as (s1 & new & Hrun & Hloc & Hsub & Hall & Hrf & Hst).
    run_stage. rewrite Hrun.
    destruct (save_json (metadata_file job_id) (locals s1)) as [e|[]] eqn:Hsave;
      (eexists _, new; split; [done|]); cbn; split_and!; try done.
    + right. split_and!; try done. right. by exists e.
    + left. by split_and!.
Qed.

(** X19. A task whose files all give no text (the reading raises or
    returns the empty text) adds no record, and when the results file can
    be written it still ends in [completed], with the message that 0
    files were processed.  A cross-reference request for that job is
    then answered with the status code 500: the results file it reads
    holds no record. *)
Theorem extraction_without_text job_id selected pdf_files
    (s : stage_state (list result)) :
  pdf_files ≠ [] →
  Forall (λ p, extract_text_func p = inr [] ∨ ∃ e, extract_text_func p = inl e)
         pdf_files →
  locals s = [] →
  save_json (metadata_file job_id) [] = inr tt →
  ∃ s',
    extract_metadata_background job_id selected pdf_files s = (inr tt, s')
    ∧ locals s' = []
    ∧ status (entry s') = completed
    ∧ message (entry s')
      = lit "Metadata extraction complete! Processed 0 files"
    ∧ ∀ sv,
        jobs_status sv !! job_id = Some (entry s') →
        results_dir sv !! metadata_file job_id = Some (Records (locals s')) →
        check_primo_resources job_id sv
        = (HTTPException 500
             (lit "Error reading metadata results: 400: No metadata results found to process"),
           sv).
Proof.
  intros Hne Hall Hs Hsave.
  assert (∀ xs i (s0 : stage_state (list result)),
            Forall (λ p, extract_text_func p = inr []
                         ∨ ∃ e, extract_text_func p = inl e) xs →
            ∃ s1, for_each (process_file selected (length pdf_files)) i xs s0
                  = (inr tt, s1) ∧ locals s1 = locals s0) as Hloop.
  { induction xs as [|x xs IH]; intros i s0 Hxs; cbn [for_each].
    - by exists s0.
    - apply Forall_cons_1 in Hxs as [Hx Hxs].
      destruct (process_file_spec extract_text_func llm_extract_func
                  heuristic_func extract_tables_func selected
                  (length pdf_files) i x s0)
        as (s1 & H1 & [Hsame|(text & md & Htext & Hnonempty & _)]).
      + destruct (IH (S i) s1 Hxs) as (s2 & H2 & Hloc).
        exists s2. run_stage. rewrite H1. split; [done|]. congruence.
      + destruct Hx as [Hx|[e Hx]]; congruence. }
  destruct (Hloop pdf_files 0 s Hall) as (s1 & Hrun & Hloc).
  unfold App.extract_metadata_background, process_files.
  destruct pdf_files as [|p ps]; [done|].
  run_stage. rewrite Hrun, Hloc, Hs, Hsave.
  eexists. split; [done|]. cbn. split_and!; [done|done|by vm_compute|].
  intros sv Hjob Hfile. unfold check_primo_resources.
  rewrite Hjob. cbn. by rewrite Hfile.
Qed.

End MoreExtraction.

(** ** Extraction without the extractor module *)

Lemma basic_heuristic_lookup text out (f : pystr) :
  basic_heuristic text = inr out →
  default unknown (out !! f)
  = if decide (f = lit "reading_materials") then MList [] else unknown.
Proof.
  intros [= <-]. case_decide as Hf.
  - subst f. by vm_compute.
  - destruct (_ !! f) as [v|] eqn:Hv; [|done]. simpl.
    repeat (apply lookup_insert_Some in Hv as [[<- <-]|[_ Hv]]; [done|]).
    by rewrite lookup_empty in Hv.
Qed.

(** X20. With the fallback functions every record of the extraction
    gives each selected field the value [Unknown], but for the field
    [reading_materials], which is the empty list: the primary extractor
    raises for every text, the heuristic one knows no value, and a
    selected field it does not name is filled in as [Unknown]. *)
Theorem extraction_with_fallback_functions
    (basic_extract_text : pystr → exn + pystr) selected pdf_files
    (s : stage_state (list result)) :
  ∃ s' new,
    process_files basic_extract_text no_llm_extract basic_heuristic no_tables
      selected pdf_files s = (inr tt, s')
    ∧ locals s' = locals s ++ new
    ∧ Forall (λ r, ∀ f,
                f ∈ selected →
                r_metadata r !! f
                = Some (if decide (f = lit "reading_materials")
                        then MList [] else unknown)) new.
Proof.
  unfold process_files.
  destruct (for_each_inv
              (process_file basic_extract_text no_llm_extract basic_heuristic
                 no_tables selected (length pdf_files))
              (λ s', ∃ new,
                 locals s' = locals s ++ new
                 ∧ Forall (λ r, ∀ f,
                             f ∈ selected →
                             r_metadata r !! f
                             = Some (if decide (f = lit "reading_materials")
                                     then MList [] else unknown)) new))
    with (xs := pdf_files) (i := 0) (s := s) as (s' & Hrun & new & Hloc & Hnew).
  - intros j x s0 (new & Hloc & Hnew).
    destruct (process_file_spec basic_extract_text no_llm_extract
                basic_heuristic no_tables selected (length pdf_files) j x s0)
      as (s' & Hrun & [Hsame|(text & md & _ & _ & Happ & _ & _ & Hheur & _)]).
    + exists s'. split; [done|]. exists new. by rewrite Hsame.
    + exists s'. split; [done|]. eexists (new ++ [_]).
      rewrite Happ, Hloc, <- app_assoc. split; [done|].
      apply Forall_app. split; [done|]. apply Forall_singleton.
      intros f Hf. cbn [r_metadata].
      rewrite (Hheur _ _ f eq_refl eq_refl Hf).
      f_equal. by apply (basic_heuristic_lookup []).
  - exists []. by rewrite app_nil_r.
  - by exists s', new.
Qed.

(** ** Cross-reference: the annotated records *)

Section MorePrimoProofs.
Variable check_metadata_availability : gmap pystr mvalue → exn + primo_result.
Variable save_json : pystr → list result → exn + unit.

Abbreviation check_one := (check_one check_metadata_availability).
Abbreviation checked := (checked check_metadata_availability).
Abbreviation matched := (matched check_metadata_availability).

(** One round of the loop, on the record at its index. *)
Lemma check_one_full total before r rest (s : stage_state primo_locals) :
  results (locals s) = before ++ r :: rest →
  ∃ s', check_one total (length before) r s = (inr tt, s')
    ∧ results (locals s') = before ++ checked r :: rest
    ∧ processed_files (locals s')
      = processed_files (locals s) + (if looked_up r then 1 else 0)
    ∧ successful_matches (locals s')
      = successful_matches (locals s) + (if matched r then 1 else 0)
    ∧ length (visible s')
      = length (visible s) + (if looked_up r then 1 else 0)
    ∧ status (entry s') = status (entry s)
    ∧ primo_results_file (entry s') = primo_results_file (entry s).
Proof.
  intros Hres.
  assert (∀ c m,
    alter (λ r0, {| r_filename := r_filename r0; r_metadata := r_metadata r0;
                    r_primo_check := Some c; r_library_matches := Some m |})
      (length before) (before ++ r :: rest)
    = before ++ {| r_filename := r_filename r; r_metadata := r_metadata r;
                   r_primo_check := Some c; r_library_matches := Some m |}
        :: rest) as Halter.
  { intros c m. rewrite <- (Nat.add_0_r (length before)) at 1.
    by rewrite alter_app_r. }
  unfold App.check_one, annotate, count_processed, count_match,
    checked, check_outcome, matched, looked_up.
  run_stage.
  destruct (has_materials (r_metadata r)); run_stage; cbn [negb andb].
  - destruct (check_metadata_availability (r_metadata r)) as [e|pr];
      run_stage.
    + eexists. split; [done|]. cbn. rewrite Hres, Halter, length_app.
      cbn. split_and!; try done; lia.
    + destruct (library_matches pr) eqn:Hlm; run_stage;
        (eexists; split; [done|]); cbn; rewrite Hres, Halter, length_app;
        cbn; rewrite ?Hlm; split_and!; try done; lia.
  - eexists. split; [done|]. cbn. rewrite Hres, Halter.
    split_and!; try done; lia.
Qed.

Lemma check_loop_full total rest before (s : stage_state primo_locals) :
  results (locals s) = before ++ rest →
  ∃ s', for_each (check_one total) (length before) rest s = (inr tt, s')
    ∧ results (locals s') = before ++ (checked <$> rest)
    ∧ processed_files (locals s')
      = processed_files (locals s) + length (List.filter looked_up rest)
    ∧ successful_matches (locals s')
      = successful_matches (locals s) + length (List.filter matched rest)
    ∧ length (visible s')
      = length (visible s) + length (List.filter looked_up rest)
    ∧ status (entry s') = status (entry s)
    ∧ primo_results_file (entry s') = primo_results_file (entry s).
Proof.
  revert before s. induction rest as [|r rest IH]; intros before s Hres;
    cbn [for_each].
  - exists s. simpl. rewrite !Nat.add_0_r. by split_and!.
  - destruct (check_one_full total before r rest s Hres)
      as (s1 & H1 & Hres1 & Hp1 & Hm1 & Hv1 & Hst1 & Hf1).
    destruct (IH (before ++ [checked r]) s1)
      as (s2 & H2 & Hres2 & Hp2 & Hm2 & Hv2 & Hst2 & Hf2).
    { by rewrite Hres1, <- app_assoc. }
    rewrite length_app, Nat.add_1_r in H2.
    exists s2. run_stage. rewrite H1. split; [done|].
    rewrite Hres2, Hp2, Hp1, Hm2, Hm1, Hv2, Hv1, Hst2, Hst1, Hf2, Hf1,
      <- app_assoc.
    cbn [List.filter]. split_and!; try done.
    + destruct (looked_up r); simpl; lia.
    + destruct (matched r); simpl; lia.
    + destruct (looked_up r); simpl; lia.
Qed.

Lemma check_primo_background_full job_id (rs : list result)
    (s : stage_state primo_locals) :
  rs ≠ [] →
  ∃ s',
    check_primo_background check_metadata_availability save_json job_id
      (Some (Records rs)) s = (inr tt, s')
    ∧ results (locals s') = checked <$> rs
    ∧ processed_files (locals s') = length (List.filter looked_up rs)
    ∧ successful_matches (locals s') = length (List.filter matched rs)
    ∧ successful_matches (locals s') ≤ processed_files (locals s')
    ∧ processed_files (locals s') ≤ length rs
    ∧ length (visible s')
      = length (visible s) + length (List.filter looked_up rs)
    ∧ ((status (entry s') = completed
        ∧ save_json (primo_file job_id) (checked <$> rs) = inr tt
        ∧ primo_results_file (entry s') = Some (primo_file job_id)
        ∧ message (entry s')
          = lit "Library matching complete! Found matches for "
              ++ str_nat (length (List.filter matched rs)) ++ lit "/"
              ++ str_nat (length (List.filter looked_up rs))
              ++ lit " syllabi")
       ∨ (status (entry s') = error
          ∧ (∃ e, save_json (primo_file job_id) (checked <$> rs) = inl e)
          ∧ primo_results_file (entry s') = primo_results_file (entry s))).
Proof.
  intros Hne.
  assert (length (List.filter matched rs)
          ≤ length (List.filter looked_up rs)) as Hle1.
  { clear. induction rs as [|r rs IH]; [done|]. cbn [List.filter].
    unfold matched at 1, looked_up at 1.
    destruct (has_materials (r_metadata r)); cbn [andb];
      [destruct (match check_metadata_availability _ with
                 | inl _ => _ | inr _ => _ end)|]; simpl; lia. }
  assert (length (List.filter looked_up rs) ≤ length rs) as Hle2.
  { apply List.filter_length_le. }
  unfold check_primo_background. destruct rs as [|r rs]; [done|].
  run_stage.
  match goal with
  | |- context [for_each ?body 0 ?l ?s0] =>
      destruct (check_loop_full (length (r :: rs)) (r :: rs) [] s0 eq_refl)
        as (s1 & Hrun & Hres & Hp & Hm & Hv & Hst & Hf)
  end.
  change (length (@nil result)) with 0 in Hrun. rewrite Hrun.
  cbn in Hres, Hp, Hm, Hv, Hst, Hf.
  rewrite Hres.
  destruct (save_json (primo_file job_id)
              (checked r :: (checked <$> rs))) as [e|[]] eqn:Hsave.
  - destruct e; run_stage; (eexists; split; [done|]); cbn;
      rewrite Hres, Hp, Hm, Hv, Hf; (split_and!; try done);
      right; split_and!; try done; by eexists.
  - run_stage. eexists. split; [done|]. cbn.
    rewrite Hres, Hp, Hm, Hv. split_and!; try done.
    left. by split_and!.
Qed.

(** X21. The cross-reference of a results file with at least one record.
    The task never raises.  Each record keeps its name and its metadata
    and gets its two annotations: [No reading materials found in
    metadata] without a look-up when it has no reading materials, the
    answer of the catalogue when it has, and [API error: ...] when that
    look-up raised, which does not stop the loop.  The catalogue is
    asked once for each record with reading materials; these are the
    syllabi counted as processed, and those among them with at least one
    match are the ones counted as matched.  The task ends in [completed],
    naming the file of annotated results, exactly when that file could
    be written with the annotated records; the final message reports
    the two counts.  Otherwise it ends in [error] and names the file it
    named before. *)
Theorem cross_reference_outcome job_id (rs : list result)
    (s : stage_state primo_locals) :
  rs ≠ [] →
  ∃ s',
    check_primo_background check_metadata_availability save_json job_id
      (Some (Records rs)) s = (inr tt, s')
    ∧ results (locals s') = checked <$> rs
    ∧ processed_files (locals s') = length (List.filter looked_up rs)
    ∧ successful_matches (locals s') = length (List.filter matched rs)
    ∧ successful_matches (locals s') ≤ processed_files (locals s')
    ∧ processed_files (locals s') ≤ length rs
    ∧ length (visible s')
      = length (visible s) + length (List.filter looked_up rs)
    ∧ ((status (entry s') = completed
        ∧ save_json (primo_file job_id) (checked <$> rs) = inr tt
        ∧ primo_results_file (entry s') = Some (primo_file job_id)
        ∧ message (entry s')
          = lit "Library matching complete! Found matches for "
              ++ str_nat (length (List.filter matched rs)) ++ lit "/"
              ++ str_nat (length (List.filter looked_up rs))
              ++ lit " syllabi")
       ∨ (status (entry s') = error
          ∧ (∃ e, save_json (primo_file job_id) (checked <$> rs) = inl e)
          ∧ primo_results_file (entry s') = primo_results_file (entry s))).
Proof.
  intros Hne.
  assert (length (List.filter matched rs)
          ≤ length (List.filter looked_up rs)) as Hle1.
  { clear. induction rs as [|r rs IH]; [done|]. cbn [List.filter].
    unfold matched at 1, looked_up at 1.
    destruct (has_materials (r_metadata r)); cbn [andb];
      [destruct (match check_metadata_availability _ with
                 | inl _ => _ | inr _ => _ end)|]; simpl; lia. }
  assert (length (List.filter looked_up rs) ≤ length rs) as Hle2.
  { apply List.filter_length_le. }
  unfold check_primo_background. destruct rs as [|r rs]; [done|].
  run_stage.
  match goal with
  | |- context [for_each ?body 0 ?l ?s0] =>
      destruct (check_loop_full (length (r :: rs)) (r :: rs) [] s0 eq_refl)
        as (s1 & Hrun & Hres & Hp & Hm & Hv & Hst & Hf)
  end.
  change (length (@nil result)) with 0 in Hrun. rewrite Hrun.
  cbn in Hres, Hp, Hm, Hv, Hst, Hf.
  rewrite Hres.
  destruct (save_json (primo_file job_id)
              (checked r :: (checked <$> rs))) as [e|[]] eqn:Hsave.
  - destruct e; run_stage; (eexists; split; [done|]); cbn;
      rewrite Hres, Hp, Hm, Hv, Hf; (split_and!; try done);
      right; split_and!; try done; by eexists.
  - run_stage. eexists. split; [done|]. cbn.
    rewrite Hres, Hp, Hm, Hv. split_and!; try done.
    left. by split_and!.
Qed.

End MorePrimoProofs.

(** ** From the extraction to the cross-reference *)

(** X30. The stages fit together.  When an extraction has ended in
    [completed] with at least one record, and the server holds the entry
    and the results file the task has left, a cross-reference request
    for the job is accepted and schedules the task; and that task,
    reading this file, annotates exactly the records of the extraction:
    the same file names in the same order, which is the order of the
    PDF files, each record still with exactly the selected fields and
    now with both library annotations. *)
Theorem extraction_then_cross_reference
    (extract_text_func : pystr → exn + pystr)
    (llm_extract_func heuristic_func : pystr → exn + gmap pystr mvalue)
    (extract_tables_func : pystr → exn + list pystr)
    (save_metadata save_primo : pystr → list result → exn + unit)
    (check_metadata_availability : gmap pystr mvalue → exn + primo_result)
    (job_id : pystr) (selected pdf_files : list pystr) (e : job_entry)
    (seen : list job_entry) (s1 : stage_state (list result)) (sv : server)
    (l0 : primo_locals) :
  extract_metadata_background extract_text_func llm_extract_func
    heuristic_func extract_tables_func save_metadata job_id selected
    pdf_files (StageState e [] seen []) = (inr tt, s1) →
  status (entry s1) = completed →
  locals s1 ≠ [] →
  jobs_status sv !! job_id = Some (entry s1) →
  results_dir sv !! metadata_file job_id = Some (Records (locals s1)) →
  check_primo_resources job_id sv
  = (Reply (lit "started")
       (lit "Library resource matching started successfully"),
     add_task (PrimoTask job_id) sv)
  ∧ ∃ s2,
      check_primo_background check_metadata_availability save_primo job_id
        (results_dir sv !! metadata_file job_id)
        (StageState (entry s1) [] [] l0) = (inr tt, s2)
      ∧ r_filename <$> results (locals s2) = r_filename <$> locals s1
      ∧ r_filename <$> results (locals s2) `sublist_of` pdf_files
      ∧ Forall (λ r, dom (r_metadata r) = list_to_set selected
                     ∧ is_Some (r_primo_check r)
                     ∧ is_Some (r_library_matches r))
          (results (locals s2)).
Proof.
  intros Hrun Hdone Hne Hjob Hfile.
  destruct (extract_metadata_background_full extract_text_func
              llm_extract_func heuristic_func extract_tables_func
              save_metadata job_id selected pdf_files
              (StageState e [] seen []))
    as (s' & new & Hrun' & Hloc & Hsub & Hall & _).
  rewrite Hrun in Hrun'. injection Hrun' as <-. cbn [locals app] in Hloc.
  subst new. split.
  - unfold check_primo_resources. rewrite Hjob, Hdone. cbn.
    rewrite Hfile. by destruct (locals s1).
  - rewrite Hfile.
    destruct (check_primo_background_full check_metadata_availability
                save_primo job_id (locals s1)
                (StageState (entry s1) [] [] l0) Hne)
      as (s2 & Hrun2 & Hres & _).
    exists s2. rewrite Hres, <- list_fmap_compose.
    split_and!; [done|done|done|].
    apply Forall_fmap. eapply Forall_impl; [exact Hall|].
    intros r (Hdom & _ & _). cbn. split_and!; [done|by eexists|by eexists].
Qed.

(** ** The results files of the jobs *)

Lemma metadata_file_inj : Inj (=) (=) metadata_file.
Proof. intros j1 j2 Heq. by apply app_inv_tail in Heq. Qed.

Lemma primo_file_inj : Inj (=) (=) primo_file.
Proof. intros j1 j2 Heq. by apply app_inv_tail in Heq. Qed.

Lemma primo_file_not_metadata_file j1 j2 : primo_file j1 ≠ metadata_file j2.
Proof.
  unfold primo_file, metadata_file. intros Heq.
  apply (f_equal reverse) in Heq. rewrite !reverse_app in Heq.
  let r := eval vm_compute in (reverse (lit "_primo_results.json")) in
  change (reverse (lit "_primo_results.json")) with r in Heq.
  let r := eval vm_compute in (reverse (lit "_metadata.json")) in
  change (reverse (lit "_metadata.json")) with r in Heq.
  simpl in Heq. by simplify_eq.
Qed.

(** X22. The results files of the jobs do not get mixed up, and the
    annotated results hide the plain ones.  The two files of a job have
    different names, and the files of different jobs have different
    names.  Hence what [get_results] answers for a job does not change
    when a file of another job is written; it is the records of the
    annotated file as soon as that file is written; and once the
    annotated file of the job is there, writing the plain results file
    again (a second extraction) does not change the answer. *)
Theorem get_results_after_writes job_id other (rs : list result)
    (sv : server) :
  primo_file job_id ≠ metadata_file other
  ∧ (primo_file job_id = primo_file other → job_id = other)
  ∧ (metadata_file job_id = metadata_file other → job_id = other)
  ∧ (job_id ≠ other →
     get_results job_id (json_dump (metadata_file other) rs sv)
       = get_results job_id sv
     ∧ get_results job_id (json_dump (primo_file other) rs sv)
       = get_results job_id sv)
  ∧ get_results job_id (json_dump (primo_file job_id) rs sv) = Answer rs
  ∧ (results_dir sv !! primo_file job_id = None →
     get_results job_id (json_dump (metadata_file job_id) rs sv) = Answer rs)
  ∧ (is_Some (results_dir sv !! primo_file job_id) →
     get_results job_id (json_dump (metadata_file job_id) rs sv)
       = get_results job_id sv).
Proof.
  split_and!.
  - apply primo_file_not_metadata_file.
  - apply primo_file_inj.
  - apply metadata_file_inj.
  - intros Hne. unfold get_results, json_dump. cbn [results_dir]. split.
    + rewrite !lookup_insert_ne; [done| |].
      * intros Heq%metadata_file_inj. done.
      * intros Heq. symmetry in Heq.
        by apply primo_file_not_metadata_file in Heq.
    + rewrite !lookup_insert_ne; [done| |].
      * apply primo_file_not_metadata_file.
      * intros Heq%primo_file_inj. done.
  - unfold get_results, json_dump. cbn [results_dir].
    by rewrite lookup_insert_eq.
  - intros Hnone. unfold get_results, json_dump. cbn [results_dir].
    rewrite lookup_insert_ne, Hnone, lookup_insert_eq; [done|].
    intros Heq. symmetry in Heq. by apply primo_file_not_metadata_file in Heq.
  - intros [f Hf]. unfold get_results, json_dump. cbn [results_dir].
    rewrite lookup_insert_ne, Hf; [done|].
    intros Heq. symmetry in Heq. by apply primo_file_not_metadata_file in Heq.
Qed.

(** X27. The two endpoints that hand out the results of a job pick the
    same file.  When [download_results] sends a file, the job is known,
    the file is the annotated results file if there is one and the plain
    one otherwise, and [get_results] answers with the content of that
    very file.  When it refuses, the status code is 404: the job is not
    known to the server (and [get_results], which does not look at the
    jobs, may still answer), or there is no results file and
    [get_results] refuses as well. *)
Theorem download_results_agrees (job_id : pystr) (sv : server) :
  match download_results job_id sv with
  | Answer (path, name) =>
      is_Some (jobs_status sv !! job_id)
      ∧ (∃ file,
           results_dir sv !! path = Some file
           ∧ get_results job_id sv
             = match json_load file with
               | inr results => Answer results
               | inl e => Uncaught e
               end)
      ∧ ((path = primo_file job_id
          ∧ name = lit "syllabus_analysis_" ++ job_id ++ lit "_complete.json")
         ∨ (path = metadata_file job_id
            ∧ name = lit "syllabus_analysis_" ++ job_id
                       ++ lit "_metadata.json"
            ∧ results_dir sv !! primo_file job_id = None))
  | Refused status_code detail =>
      status_code = 404%Z
      ∧ ((jobs_status sv !! job_id = None ∧ detail = lit "Job not found")
         ∨ (is_Some (jobs_status sv !! job_id)
            ∧ detail = lit "Results not found"
            ∧ get_results job_id sv = Refused 404 (lit "Results not found")))
  | Uncaught _ => False
  end.
Proof.
  unfold download_results, get_results.
  destruct (jobs_status sv !! job_id) as [entry|] eqn:Hjob.
  - destruct (results_dir sv !! primo_file job_id) as [file|] eqn:Hprimo.
    + split_and!; [by eexists| |by left]. exists file. by rewrite Hprimo.
    + destruct (results_dir sv !! metadata_file job_id) as [file|] eqn:Hmeta.
      * split_and!; [by eexists| |by right]. exists file. by rewrite Hmeta.
      * split; [done|]. right. split_and!; [by eexists|done|done].
  - split; [done|]. by left.
Qed.

(** ** CSV export: the columns and the rows *)

Lemma str_leb_total (s t : pystr) : str_leb s t = true ∨ str_leb t s = true.
Proof.
  revert t. induction s as [|a s IH]; intros [|b t]; simpl; auto.
  destruct (N.lt_trichotomy a b) as [Hlt|[->|Hgt]].
  - left. apply N.ltb_lt in Hlt. by rewrite Hlt.
  - rewrite N.eqb_refl, N.ltb_irrefl. simpl. apply IH.
  - right. apply N.ltb_lt in Hgt. by rewrite Hgt.
Qed.

Lemma str_leb_trans (s t u : pystr) :
  str_leb s t = true → str_leb t u = true → str_leb s u = true.
Proof.
  revert t u. induction s as [|a s IH]; intros [|b t] [|c u]; simpl;
    try done.
  rewrite !orb_true_iff, !andb_true_iff, !N.ltb_lt, !N.eqb_eq.
  intros [Hab|[-> Hst]] [Hbc|[-> Htu]].
  - left. lia.
  - by left.
  - by left.
  - right. split; [done|]. by eapply IH.
Qed.

#[local] Instance str_le_total : Total str_le.
Proof. intros s t. apply str_leb_total. Qed.

#[local] Instance str_le_trans : Transitive str_le.
Proof. intros s t u. apply str_leb_trans. Qed.

Lemma elem_of_sorted (f : pystr) (fields : gset pystr) :
  f ∈ sorted fields ↔ f ∈ fields.
Proof.
  unfold sorted. rewrite merge_sort_Permutation. apply elem_of_elements.
Qed.

Lemma elem_of_all_fields (f : pystr) (results : list result) :
  f ∈ all_fields results
  ↔ f = lit "filename" ∨ ∃ r, r ∈ results ∧ f ∈ dom (r_metadata r).
Proof.
  unfold all_fields.
  assert (∀ acc : gset pystr,
            f ∈ foldl (λ all_fields result,
                         all_fields ∪ dom (r_metadata result)) acc results
            ↔ f ∈ acc ∨ ∃ r, r ∈ results ∧ f ∈ dom (r_metadata r)) as Hgen.
  { induction results as [|r results IH]; intros acc; cbn [foldl].
    - split; [by left|]. intros [?|(r & Hr & _)]; [done|].
      by apply elem_of_nil in Hr.
    - rewrite IH, elem_of_union. split.
      + intros [[?|?]|(r' & Hr' & ?)]; [by left| |].
        * right. exists r. split; [by left|done].
        * right. exists r'. split; [by right|done].
      + intros [?|(r' & [->|Hr']%elem_of_cons & ?)].
        * left. by left.
        * left. by right.
        * right. by exists r'. }
  rewrite Hgen, elem_of_singleton. done.
Qed.

Lemma StronglySorted_filter {A} (R : relation A) (P : A → Prop)
    `{∀ x, Decision (P x)} (l : list A) :
  StronglySorted R l → StronglySorted R (filter P l).
Proof.
  induction 1 as [|x l Hl IH Hx]; [constructor|].
  rewrite filter_cons. case_decide; [|done].
  constructor; [done|].
  apply Forall_forall. intros y [_ Hy]%list_elem_of_filter.
  by eapply Forall_forall in Hx.
Qed.

Lemma csv_row_regular (str_dict : gmap pystr pyval → pystr)
    (regular : list pystr)
    (r : result) (row0 : gmap pystr pystr) (f : pystr) :
  foldl (λ row field,
           if decide (field = lit "filename") then row
           else <[field := regular_cell str_dict (r_metadata r !! field)]> row)
        row0 regular !! f
  = if decide (f ∈ regular ∧ f ≠ lit "filename")
    then Some (regular_cell str_dict (r_metadata r !! f))
    else row0 !! f.
Proof.
  revert row0. induction regular as [|g regular IH]; intros row0;
    cbn [foldl].
  - rewrite decide_False; [done|]. intros [?%elem_of_nil _]. done.
  - rewrite IH. destruct (decide (f ∈ regular ∧ f ≠ lit "filename"))
      as [[Hin Hne]|Hnot].
    + rewrite decide_True; [done|]. split; [by right|done].
    + destruct (decide (g = lit "filename")) as [->|Hg].
      * rewrite decide_False; [done|].
        intros [[->|Hin]%elem_of_cons Hne]; [done|]. by apply Hnot.
      * destruct (decide (f = g)) as [->|Hfg].
        -- rewrite lookup_insert_eq, decide_True; [done|].
           split; [by left|done].
        -- rewrite lookup_insert_ne by done. rewrite decide_False; [done|].
           intros [[->|Hin]%elem_of_cons Hne]; [done|]. by apply Hnot.
Qed.

(** X28. The columns of the CSV export.  The regular columns are sorted
    by code points and without repetition; a name is a regular column
    exactly when it is not [reading_materials] and it is [filename] or a
    key of the metadata of some record.  Without records the result is
    the text [No data available]; otherwise the field names are the
    regular columns followed by the four reading-materials columns and
    the three library columns, there is one row for each record, and
    every row has one cell for each field name. *)
Theorem csv_columns (str_dict : gmap pystr pyval → pystr)
    (results : list result) :
  StronglySorted str_le (regular_fields results)
  ∧ NoDup (regular_fields results)
  ∧ (∀ f, f ∈ regular_fields results
          ↔ f ≠ lit "reading_materials"
            ∧ (f = lit "filename"
               ∨ ∃ r, r ∈ results ∧ f ∈ dom (r_metadata r)))
  ∧ match csv_table str_dict results with
    | inl text => results = [] ∧ text = lit "No data available"
    | inr (header, rows) =>
        results ≠ []
        ∧ header
          = regular_fields results ++ reading_materials_fields
              ++ library_fields
        ∧ length rows = length results
        ∧ Forall (λ row, length row = length header) rows
    end.
Proof.
  split_and!.
  - apply StronglySorted_filter, StronglySorted_merge_sort; apply _.
  - apply NoDup_filter. unfold sorted. rewrite merge_sort_Permutation.
    apply NoDup_elements.
  - intros f. unfold regular_fields.
    rewrite list_elem_of_filter, elem_of_sorted, elem_of_all_fields. done.
  - destruct results as [|r results]; [done|]. cbn [csv_table].
    split_and!; [done|done|by rewrite length_fmap|].
    apply Forall_fmap, Forall_forall. intros r' _. cbn.
    by rewrite length_fmap.
Qed.

(** X29. The cells of a row.  The cell [filename] is the name of the
    record, also when its metadata has a key [filename].  The cell of
    any other regular column is the metadata value of that name: the
    text itself, the elements of a list joined with [; ], and the empty
    text when the record has no such key; this holds unless the column
    has the name of one of the seven computed columns, whose cells are
    always the computed ones. *)
Theorem csv_row_cells (str_dict : gmap pystr pyval → pystr)
    (regular : list pystr)
    (r : result) :
  csv_row str_dict regular r !! lit "filename" = Some (r_filename r)
  ∧ (∀ f, f ∈ regular → f ≠ lit "filename" →
          f ∉ reading_materials_fields ++ library_fields →
          csv_row str_dict regular r !! f
          = Some (regular_cell str_dict (r_metadata r !! f)))
  ∧ csv_row str_dict regular r !! lit "reading_materials_count"
    = Some (str_nat (reading_materials_count (reading_materials_columns r)))
  ∧ csv_row str_dict regular r !! lit "required_materials"
    = Some (required_materials (reading_materials_columns r))
  ∧ csv_row str_dict regular r !! lit "optional_materials"
    = Some (optional_materials (reading_materials_columns r))
  ∧ csv_row str_dict regular r !! lit "reading_materials_list"
    = Some (reading_materials_list (reading_materials_columns r))
  ∧ csv_row str_dict regular r !! lit "library_matches_count"
    = Some (str_nat (library_matches_count (library_matching_columns r)))
  ∧ csv_row str_dict regular r !! lit "available_resources"
    = Some (available_resources (library_matching_columns r))
  ∧ csv_row str_dict regular r !! lit "unavailable_resources"
    = Some (unavailable_resources (library_matching_columns r)).
Proof.
  assert (∀ a b : string, a ≠ b → lit a ≠ lit b) as Hlit.
  { intros a b Hab Heq. by apply lit_inj in Heq. }
  unfold csv_row. cbv zeta. split_and!.
  - rewrite !lookup_insert_ne by (apply Hlit; discriminate).
    rewrite csv_row_regular, decide_False by (by intros [_ ?]).
    by rewrite lookup_insert_eq.
  - intros f Hin Hne Hnot.
    rewrite !elem_of_app in Hnot. unfold reading_materials_fields,
      library_fields in Hnot. rewrite !elem_of_cons in Hnot.
    rewrite !lookup_insert_ne by (intros <-; apply Hnot; tauto).
    by rewrite csv_row_regular, decide_True.
  - by rewrite !lookup_insert_ne, lookup_insert_eq
      by (apply Hlit; discriminate).
  - by rewrite !lookup_insert_ne, lookup_insert_eq
      by (apply Hlit; discriminate).
  - by rewrite !lookup_insert_ne, lookup_insert_eq
      by (apply Hlit; discriminate).
  - by rewrite !lookup_insert_ne, lookup_insert_eq
      by (apply Hlit; discriminate).
  - by rewrite !lookup_insert_ne, lookup_insert_eq
      by (apply Hlit; discriminate).
  - by rewrite !lookup_insert_ne, lookup_insert_eq
      by (apply Hlit; discriminate).
  - by rewrite lookup_insert_eq.
Qed.

(** ** The progress a task reports never goes back *)

Section Climbing.
Context {L : Type} (base : list Z) (k : list job_entry).

Lemma Sorted_snoc (l : list Z) (x : Z) :
  Sorted Z.le l → (∀ y, last l = Some y → (y ≤ x)%Z) →
  Sorted Z.le (l ++ [x]).
Proof.
  induction 1 as [|a l Hl IH Hhd]; intros Hlast; simpl.
  - by repeat constructor.
  - constructor.
    + apply IH. intros y Hy. apply Hlast. rewrite last_cons. by rewrite Hy.
    + destruct Hhd as [|c l' Hac]; simpl.
      * constructor. apply Hlast. done.
      * by constructor.
Qed.

Lemma rising_weaken b b' (s : stage_state L) :
  (b ≤ b')%Z → rising base k b s → rising base k b' s.
Proof.
  intros Hb (new & ? & ? & ? & ?). exists new. split_and!; try done. lia.
Qed.


Lemma climbs_ret {A} b b' (a : A) :
  (b ≤ b')%Z → climbs (L := L) base k b b' (mret a).
Proof. intros Hb s Hs. by eapply rising_weaken. Qed.

Lemma climbs_bind {A B} b b1 b' (m : M L A) (f : A → M L B) :
  (b1 ≤ b')%Z →
  climbs base k b b1 m → (∀ a, climbs base k b1 b' (f a)) →
  climbs base k b b' (m ≫= f).
Proof.
  intros Hb Hm Hf s Hs. specialize (Hm s Hs).
  unfold mbind, M_bind, bind. destruct (m s) as [[e|a] s1]; cbn [snd] in *.
  - by eapply rising_weaken.
  - by apply Hf.
Qed.

Lemma climbs_try {A} b b1 b' (body : M L A) (handler : exn → M L A) :
  (b1 ≤ b')%Z →
  climbs base k b b1 body → (∀ e, climbs base k b1 b' (handler e)) →
  climbs base k b b' (try_except body handler).
Proof.
  intros Hb Hm Hh s Hs. specialize (Hm s Hs).
  unfold try_except. destruct (body s) as [[e|a] s1]; cbn [snd] in *.
  - by apply Hh.
  - by eapply rising_weaken.
Qed.

(** A write that does not lower the progress. *)
Lemma climbs_write b b' (f : job_entry → job_entry) :
  (∀ e, (progress e ≤ b)%Z →
        (progress e ≤ progress (f e))%Z ∧ (progress (f e) ≤ b')%Z) →
  climbs (L := L) base k b b' (write f).
Proof.
  intros Hf s (new & Hw & Hsorted & Hlast & Hb).
  destruct (Hf (entry s) Hb) as [Hup Hb'].
  exists (new ++ [f (entry s)]). unfold write. cbn [snd entry written].
  rewrite Hw, fmap_app, !app_assoc. cbn [fmap list_fmap]. split_and!.
  - done.
  - apply Sorted_snoc; [done|]. intros y Hy. rewrite Hlast in Hy.
    by simplify_eq.
  - by rewrite last_snoc.
  - done.
Qed.

Lemma climbs_write_status b (v : Status) :
  climbs (L := L) base k b b (write (set_status v)).
Proof. apply climbs_write. intros e He. simpl. lia. Qed.

Lemma climbs_write_message b (v : pystr) :
  climbs (L := L) base k b b (write (set_message v)).
Proof. apply climbs_write. intros e He. simpl. lia. Qed.

Lemma climbs_write_files_found b (v : nat) :
  climbs (L := L) base k b b (write (set_files_found v)).
Proof. apply climbs_write. intros e He. simpl. lia. Qed.

Lemma climbs_write_files_downloaded b (v : nat) :
  climbs (L := L) base k b b (write (set_files_downloaded v)).
Proof. apply climbs_write. intros e He. simpl. lia. Qed.




Lemma climbs_write_progress b (p : Z) :
  (b ≤ p)%Z → climbs (L := L) base k b p (write (set_progress p)).
Proof. intros Hp. apply climbs_write. intros e He. simpl. lia. Qed.

Lemma climbs_progress_callback b (msg : pystr) (p : Z) :
  (b ≤ p)%Z → climbs (L := L) base k b p (progress_callback msg p).
Proof.
  intros Hp. unfold progress_callback. apply climbs_write.
  intros e He. simpl. lia.
Qed.

(** Computations that do not write to the entry. *)
Lemma climbs_silent {A} b (m : M L A) :
  (∀ s, entry (m s).2 = entry s ∧ written (m s).2 = written s) →
  climbs base k b b m.
Proof.
  intros Hm s (new & Hnew & Hsorted & Hlast & Hb).
  destruct (Hm s) as [He Hw].
  exists new. by rewrite He, Hw.
Qed.

Lemma climbs_get b : climbs (L := L) base k b b get.
Proof. by apply climbs_silent. Qed.

Lemma climbs_modify b (f : L → L) : climbs (L := L) base k b b (modify f).
Proof. by apply climbs_silent. Qed.



Lemma climbs_raise {A} b (e : exn) :
  climbs (L := L) (A := A) base k b b (raise e).
Proof. by apply climbs_silent. Qed.

(** A loop whose rounds take the bound from [lo i] to [lo (S i)]. *)
Lemma climbs_for_each {X} (lo : nat → Z) (n : nat)
    (body : nat → X → M L unit) :
  (∀ i, i < n → (lo i ≤ lo (S i))%Z) →
  (∀ i x, i < n → climbs base k (lo i) (lo (S i)) (body i x)) →
  ∀ xs i, i + length xs ≤ n →
    climbs base k (lo i) (lo (i + length xs)) (for_each body i xs).
Proof.
  intros Hlo Hbody xs. induction xs as [|x xs IH]; intros i Hlen;
    cbn [for_each length].
  - rewrite Nat.add_0_r. by apply climbs_ret.
  - cbn [length] in Hlen.
    assert (∀ j m, j + m ≤ n → (lo j ≤ lo (j + m)%nat)%Z) as Hmono.
    { intros j m. revert j. induction m as [|m IHm]; intros j Hj.
      - by rewrite Nat.add_0_r.
      - etrans; [apply Hlo; lia|]. replace (j + S m) with (S j + m) by lia.
        apply IHm. lia. }
    eapply climbs_bind; [|apply Hbody; lia|].
    + replace (i + S (length xs)) with (S i + length xs) by lia.
      apply Hmono. lia.
    + intros []. replace (i + S (length xs)) with (S i + length xs) by lia.
      apply IH. lia.
Qed.

End Climbing.

(** In a history that never decreases every value is at most the last
    one. *)
Lemma Sorted_le_100 (x : Z) (l : list Z) (y b : Z) :
  Sorted Z.le (x :: l) → last (x :: l) = Some y → (y ≤ b)%Z →
  Forall (λ p, (p ≤ b)%Z) l.
Proof.
  intros Hs Hlast Hy.
  apply Sorted_StronglySorted in Hs; [|intros ? ? ?; lia].
  assert (Forall (λ p, (p ≤ b)%Z) (x :: l)) as Hall;
    [|by apply Forall_cons_1 in Hall as [_ ?]].
  revert Hs Hlast. generalize (x :: l). clear x l.
  induction l as [|a l IH]; intros Hs Hlast; [done|].
  apply StronglySorted_inv in Hs as [Hs Ha].
  destruct l as [|c l].
  - simpl in Hlast. simplify_eq. by repeat constructor.
  - assert (Forall (λ p, (p ≤ b)%Z) (c :: l)) as Hcl.
    { apply IH; [done|]. by rewrite last_cons_cons in Hlast. }
    constructor; [|done].
    apply Forall_cons_1 in Ha as [Hac _].
    apply Forall_cons_1 in Hcl as [Hcb _]. lia.
Qed.

(** *** The arithmetic of the progress values *)

Section ProgressArithmetic.
Local Open Scope Q_scope.

Lemma py_int_floor (q : Q) : 0 <= q → py_int q = Qfloor q.
Proof.
  destruct q as [a d]. unfold Qle, py_int, Qfloor. simpl. intros Ha.
  apply Z.quot_div_nonneg; lia.
Qed.

Lemma py_int_mono (q1 q2 : Q) :
  0 <= q1 → q1 <= q2 → (py_int q1 ≤ py_int q2)%Z.
Proof.
  intros H1 H2. rewrite !py_int_floor; [|lra|done].
  by apply Qfloor_resp_le.
Qed.

Lemma py_int_Z (q : Q) (z : Z) : q == inject_Z z → (0 ≤ z)%Z → py_int q = z.
Proof.
  intros Hq Hz. rewrite py_int_floor.
  - by rewrite (Qfloor_comp _ _ Hq), Qfloor_Z.
  - rewrite Hq. change 0 with (inject_Z 0). by rewrite <- Zle_Qle.
Qed.

Lemma Qnat_succ (i : nat) : Qnat (i + 1) == Qnat i + 1.
Proof.
  unfold Qnat. rewrite Nat2Z.inj_add, inject_Z_plus. reflexivity.
Qed.

Lemma Qnat_nonneg (i : nat) : 0 <= Qnat i.
Proof.
  unfold Qnat. change 0 with (inject_Z 0). rewrite <- Zle_Qle. lia.
Qed.

Lemma Qnat_inv_nonneg (n : nat) : 0 <= / Qnat n.
Proof. apply Qinv_le_0_compat, Qnat_nonneg. Qed.

Lemma Qnat_ratio_nonneg (i n : nat) : 0 <= Qnat i * / Qnat n.
Proof. apply Qmult_le_0_compat; [apply Qnat_nonneg|apply Qnat_inv_nonneg]. Qed.

Lemma Qnat_ratio_one (n : nat) : (0 < n)%nat → Qnat n * / Qnat n == 1.
Proof.
  intros Hn. apply Qmult_inv_r. unfold Qnat, Qeq. simpl. lia.
Qed.


(** The bounds of the download loop. *)
Lemma download_progress_start (i n : nat) :
  py_int (50 + 40 * Qnat i / Qnat n
          + (50 + 40 * Qnat (i + 1) / Qnat n - (50 + 40 * Qnat i / Qnat n))
            * Qnat 0 / 3)
  = py_int (50 + 40 * Qnat i / Qnat n).
Proof.
  pose proof (Qnat_ratio_nonneg i n).
  rewrite !py_int_floor.
  - apply Qfloor_comp. change (Qnat 0) with 0. unfold Qdiv. ring.
  - unfold Qdiv. set (x := Qnat i * / Qnat n) in *.
    rewrite <- Qmult_assoc. fold x. clearbody x. lra.
  - change (Qnat 0) with 0. unfold Qdiv. change (/ 3) with (1 # 3).
    set (a := Qnat i) in *. set (a1 := Qnat (i + 1)) in *.
    set (u := / Qnat n) in *. clearbody a a1 u. lra.
Qed.

Lemma download_progress_middle (i n : nat) :
  (py_int (50 + 40 * Qnat i / Qnat n)
   ≤ py_int (50 + 40 * Qnat i / Qnat n
             + (50 + 40 * Qnat (i + 1) / Qnat n
                - (50 + 40 * Qnat i / Qnat n)) * Qnat 1 / 3))%Z
  ∧ (py_int (50 + 40 * Qnat i / Qnat n
             + (50 + 40 * Qnat (i + 1) / Qnat n
                - (50 + 40 * Qnat i / Qnat n)) * Qnat 1 / 3)
     ≤ py_int (50 + 40 * Qnat (i + 1) / Qnat n))%Z.
Proof.
  pose proof (Qnat_ratio_nonneg i n).
  pose proof (Qnat_inv_nonneg n).
  assert (Qnat (i + 1) * / Qnat n == Qnat i * / Qnat n + / Qnat n) as Hs.
  { rewrite Qnat_succ. ring. }
  change (Qnat 1) with 1. unfold Qdiv. change (/ 3) with (1 # 3).
  set (a := Qnat i) in *. set (a1 := Qnat (i + 1)) in *.
  set (u := / Qnat n) in *. clearbody a a1 u.
  split; apply py_int_mono; lra.
Qed.

Lemma download_progress_first (n : nat) :
  py_int (50 + 40 * Qnat 0 / Qnat n) = 50%Z.
Proof.
  apply py_int_Z; [|lia]. change (Qnat 0) with 0.
  unfold Qdiv. change (inject_Z 50) with 50. ring.
Qed.

Lemma download_progress_last (n : nat) :
  (0 < n)%nat → py_int (50 + 40 * Qnat n / Qnat n) = 90%Z.
Proof.
  intros Hn. apply py_int_Z; [|lia].
  pose proof (Qnat_ratio_one n Hn) as Hone.
  unfold Qdiv. change (inject_Z 90) with 90.
  set (a := Qnat n) in *. set (u := / a) in *. clearbody u a. lra.
Qed.

(** The bounds of the scan of the pages. *)
Lemma scan_progress_step (i n : nat) :
  (py_int (20 + 30 * Qnat i / Qnat n)
   ≤ py_int (20 + 30 * Qnat (i + 1) / Qnat n))%Z.
Proof.
  pose proof (Qnat_ratio_nonneg i n).
  pose proof (Qnat_inv_nonneg n).
  assert (Qnat (i + 1) * / Qnat n == Qnat i * / Qnat n + / Qnat n) as Hs.
  { rewrite Qnat_succ. ring. }
  unfold Qdiv.
  set (a := Qnat i) in *. set (a1 := Qnat (i + 1)) in *.
  set (u := / Qnat n) in *. clearbody a a1 u.
  apply py_int_mono; lra.
Qed.

Lemma scan_progress_first (n : nat) :
  py_int (20 + 30 * Qnat 0 / Qnat n) = 20%Z.
Proof.
  apply py_int_Z; [|lia]. change (Qnat 0) with 0.
  unfold Qdiv. change (inject_Z 20) with 20. ring.
Qed.

Lemma scan_progress_last (n : nat) :
  (0 < n)%nat → py_int (20 + 30 * Qnat n / Qnat n) = 50%Z.
Proof.
  intros Hn. apply py_int_Z; [|lia].
  pose proof (Qnat_ratio_one n Hn) as Hone.
  unfold Qdiv. change (inject_Z 50) with 50.
  set (a := Qnat n) in *. set (u := / a) in *. clearbody u a. lra.
Qed.





End ProgressArithmetic.

(** *** Acquisition *)

Section ClimbingDiscover.
Context {D : Type} (ops : downloader_ops D) (base : list Z)
  (k : list job_entry).

Lemma climbs_method {A} b (op : D → (exn + A) * D) :
  climbs base k b b (method op).
Proof.
  apply climbs_silent. intros s. unfold method.
  by destruct (op (downloader (locals s))).
Qed.

Lemma climbs_download_one n i pdf_info :
  i < n →
  climbs base k (download_bound n i) (download_bound n (S i))
    (download_one ops n i pdf_info).
Proof.
  intros Hi. unfold download_one, download_bound. cbv zeta beta.
  rewrite <- (Nat.add_1_r i).
  pose proof (download_progress_start i n) as H0.
  pose proof (download_progress_middle i n) as [H1 H2].
  revert H0 H1 H2.
  generalize (py_int (50 + 40 * Qnat i / Qnat n
                      + (50 + 40 * Qnat (i + 1) / Qnat n
                         - (50 + 40 * Qnat i / Qnat n)) * Qnat 0 / 3)).
  generalize (py_int (50 + 40 * Qnat i / Qnat n
                      + (50 + 40 * Qnat (i + 1) / Qnat n
                         - (50 + 40 * Qnat i / Qnat n)) * Qnat 1 / 3)).
  generalize (py_int (50 + 40 * Qnat (i + 1) / Qnat n)).
  generalize (py_int (50 + 40 * Qnat i / Qnat n)).
  intros lo hi c1 c0 H0 H1 H2.
  apply (climbs_try _ _ lo hi hi); [lia| |].
  - apply (climbs_bind _ _ lo c0 hi); [lia| |intros _].
    { apply climbs_progress_callback. lia. }
    apply (climbs_bind _ _ c0 c1 hi); [lia| |intros _].
    { apply climbs_progress_callback. lia. }
    apply (climbs_bind _ _ c1 c1 hi); [lia| |intros success].
    { unfold call_download_pdf.
      apply (climbs_bind _ _ c1 c1 c1); [lia| |intros _].
      - apply climbs_modify.
      - apply climbs_method. }
    apply (climbs_bind _ _ c1 c1 hi); [lia|apply climbs_get|intros l].
    apply (climbs_bind _ _ c1 c1 hi); [lia| |intros _].
    { destruct success; [apply climbs_modify|by apply climbs_ret]. }
    apply (climbs_bind _ _ c1 c1 hi); [lia|apply climbs_get|intros l'].
    apply (climbs_bind _ _ c1 c1 hi); [lia| |intros _].
    { apply climbs_write_files_downloaded. }
    apply climbs_progress_callback. lia.
  - intros e.
    apply (climbs_bind _ _ hi hi hi); [lia|apply climbs_get|intros l].
    apply (climbs_bind _ _ hi hi hi); [lia| |intros _].
    { apply climbs_write_files_downloaded. }
    apply climbs_progress_callback. lia.
Qed.

Lemma download_bound_step n i :
  (download_bound n i ≤ download_bound n (S i))%Z.
Proof.
  unfold download_bound. rewrite <- (Nat.add_1_r i).
  pose proof (download_progress_middle i n) as [H1 H2]. lia.
Qed.

Lemma climbs_download_loop (refs : list pdf_info) :
  climbs base k 50 90
    (for_each (download_one ops (length refs)) 0 refs).
Proof.
  destruct refs as [|r refs].
  { apply climbs_ret. lia. }
  set (n := length (r :: refs)).
  pose proof (climbs_for_each base k (download_bound n) n
                (download_one ops n)) as Hloop.
  specialize (Hloop (λ i _, download_bound_step n i)
                (λ i x Hi, climbs_download_one n i x Hi) (r :: refs) 0).
  unfold download_bound at 1 2 in Hloop.
  rewrite download_progress_first in Hloop.
  change (0 + length (r :: refs)) with n in Hloop.
  rewrite download_progress_last in Hloop by (unfold n; simpl; lia).
  apply Hloop. done.
Qed.

Lemma climbs_scan_page n i semester_url :
  climbs base k (scan_bound n i) (scan_bound n (S i))
    (scan_page ops n i semester_url).
Proof.
  unfold scan_page, scan_bound. cbv zeta beta.
  rewrite <- (Nat.add_1_r i).
  pose proof (scan_progress_step i n) as Hstep. revert Hstep.
  generalize (py_int (20 + 30 * Qnat (i + 1) / Qnat n)).
  generalize (py_int (20 + 30 * Qnat i / Qnat n)).
  intros lo hi Hstep.
  apply (climbs_bind _ _ lo lo hi); [lia|apply climbs_method|intros links].
  apply (climbs_bind _ _ lo lo hi); [lia|apply climbs_get|intros l].
  apply (climbs_bind _ _ lo lo hi); [lia|apply climbs_modify|intros _].
  apply climbs_progress_callback. lia.
Qed.

Lemma climbs_scan_loop (urls : list pystr) :
  urls ≠ [] →
  climbs base k 20 50 (for_each (scan_page ops (length urls)) 0 urls).
Proof.
  intros Hne. set (n := length urls).
  pose proof (climbs_for_each base k (scan_bound n) n
                (scan_page ops n)) as Hloop.
  specialize (Hloop
    (λ i _, eq_ind _ (λ j, (scan_bound n i ≤ scan_bound n j)%Z)
              (scan_progress_step i n) _ (Nat.add_1_r i))
    (λ i x _, climbs_scan_page n i x) urls 0).
  unfold scan_bound at 1 2 in Hloop.
  rewrite scan_progress_first in Hloop.
  change (0 + length urls) with n in Hloop.
  rewrite scan_progress_last in Hloop by (unfold n; destruct urls; simpl; [done|lia]).
  apply Hloop. done.
Qed.

Lemma climbs_discover_try (is_polisci : bool) url :
  climbs base k 10 100 (discover_try ops is_polisci url).
Proof.
  unfold discover_try.
  apply (climbs_bind _ _ 10 10 100); [lia|apply climbs_write_status|intros _].
  apply (climbs_bind _ _ 10 10 100); [lia|apply climbs_write_message|intros _].
  apply (climbs_bind _ _ 10 10 100);
    [lia|by apply climbs_write_progress|intros _].
  apply (climbs_bind _ _ 10 50 100); [lia| |intros _].
  { destruct is_polisci.
    - apply (climbs_bind _ _ 10 10 50); [lia|apply climbs_method|intros links].
      apply (climbs_bind _ _ 10 10 50); [lia|apply climbs_modify|intros _].
      apply climbs_progress_callback. lia.
    - apply (climbs_bind _ _ 10 10 50); [lia|apply climbs_method|intros links].
      apply (climbs_bind _ _ 10 10 50); [lia|apply climbs_modify|intros _].
      apply (climbs_bind _ _ 10 20 50); [lia| |intros _].
      { apply climbs_progress_callback. lia. }
      apply (climbs_bind _ _ 20 50 50); [lia| |intros _].
      { apply climbs_scan_loop. by destruct links. }
      apply (climbs_bind _ _ 50 50 50); [lia|apply climbs_get|intros l].
      apply climbs_modify. }
  apply (climbs_bind _ _ 50 50 100); [lia|apply climbs_get|intros l].
  cbv zeta.
  apply (climbs_bind _ _ 50 50 100);
    [lia|apply climbs_write_files_found|intros _].
  apply (climbs_bind _ _ 50 50 100); [lia| |intros _].
  { by apply climbs_progress_callback. }
  apply (climbs_bind _ _ 50 50 100); [lia| |intros _].
  { by apply climbs_progress_callback. }
  apply (climbs_bind _ _ 50 50 100); [lia|apply climbs_modify|intros _].
  apply (climbs_bind _ _ 50 90 100); [lia|apply climbs_download_loop|intros _].
  apply (climbs_bind _ _ 90 90 100); [lia|apply climbs_get|intros l'].
  apply (climbs_bind _ _ 90 90 100);
    [lia|apply climbs_write_files_downloaded|intros _].
  apply (climbs_bind _ _ 90 90 100); [lia|apply climbs_write_status|intros _].
  apply (climbs_bind _ _ 90 100 100);
    [lia|by apply climbs_write_progress|intros _].
  apply climbs_write_message.
Qed.

End ClimbingDiscover.

(** X23. The progress of an acquisition never goes back while the task
    is at work.  For a job whose progress is at most 10 when the task
    starts (a new job has 0), the values the task writes never
    decrease, from the value the job had up to 100, whatever the pages
    and the downloads do.  The one exception is the end of a failed
    task: its handler makes three more writes, the last of which sets
    the progress to 0. *)
Theorem acquisition_progress_rises {D} (ops : downloader_ops D)
    (is_polisci : bool) url e d :
  (progress e ≤ 10)%Z →
  ∃ s' hist tail,
    discover_task ops is_polisci url (start_discover e d) = (inr tt, s')
    ∧ written s' = hist ++ tail
    ∧ Sorted Z.le (progress e :: (progress <$> hist))
    ∧ Forall (λ p, (p ≤ 100)%Z) (progress <$> hist)
    ∧ (tail = []
       ∨ (status (entry s') = error ∧ progress (entry s') = 0%Z
          ∧ length tail = 3)).
Proof.
  intros He.
  pose proof (climbs_discover_try ops [progress e] [] is_polisci url
                (start_discover e d)) as Hrise.
  destruct Hrise as (new & Hnew & Hsorted & Hlast & Hbound).
  { exists []. unfold start_discover. simpl. split_and!; try done.
    repeat constructor. }
  cbn [app] in Hnew, Hsorted, Hlast. rewrite <- Hnew in Hsorted, Hlast.
  clear Hnew new.
  unfold discover_task, try_except.
  destruct (discover_try ops is_polisci url (start_discover e d))
    as [[err|[]] s1]; cbn [snd] in *.
  - run_stage. eexists _, (written s1), [_; _; _]. split; [done|].
    cbn. rewrite <- !app_assoc. split_and!; try done.
    + eapply Sorted_le_100; done.
    + right. done.
  - exists s1, (written s1), []. rewrite app_nil_r. split_and!; try done.
    + eapply Sorted_le_100; done.
    + by left.
Qed.

(** *** Extraction *)

Section ClimbingExtraction.
Variable extract_text_func : pystr → exn + pystr.
Variable llm_extract_func : pystr → exn + gmap pystr mvalue.
Variable heuristic_func : pystr → exn + gmap pystr mvalue.
Variable extract_tables_func : pystr → exn + list pystr.
Variable save_json : pystr → list result → exn + unit.






End ClimbingExtraction.

(** *** Cross-reference *)

Section ClimbingPrimo.
Variable check_metadata_availability : gmap pystr mvalue → exn + primo_result.
Variable save_json : pystr → list result → exn + unit.





End ClimbingPrimo.

End MoreApp.

Section MoreAppExamples.
Import Downloader App More Examples.

Lemma csv_reading_materials_cells_witness :
  reading_materials_columns (H := ascii_runtime) stored
  = {| reading_materials_count := 2;
       required_materials := lit "The Prince by Machiavelli (book)";
       optional_materials := lit "Notes (article)";
       reading_materials_list :=
         lit "The Prince by Machiavelli (book); Notes (article)" |}.
Proof.
  destruct (csv_reading_materials_cells (H := ascii_runtime) stored
              [MDict a_book; MDict an_article]) as [Hcells _].
  - vm_compute. reflexivity.
  - discriminate.
  - rewrite Hcells. vm_compute. reflexivity.
Defined.

Lemma csv_reading_materials_text_witness :
  reading_materials_columns (H := ascii_runtime)
    {| r_filename := name_one;
       r_metadata := {[ lit "reading_materials" := unknown ]};
       r_primo_check := None; r_library_matches := None |}
  = {| reading_materials_count := 7;
       required_materials := [];
       optional_materials := lit "U; n; k; n; o; w; n";
       reading_materials_list := lit "U; n; k; n; o; w; n" |}.
Proof.
  rewrite (csv_reading_materials_text (H := ascii_runtime) _ (lit "Unknown")).
  - vm_compute. reflexivity.
  - vm_compute. reflexivity.
  - discriminate.
Defined.

Lemma extraction_without_text_witness :
  ∃ s',
    extract_metadata_background (λ _, inr []) llm_ok heuristic_down
      tables_none save_ok job fields [name_one]
      (StageState extracting [] [] []) = (inr tt, s')
    ∧ status (entry s') = completed
    ∧ message (entry s')
      = lit "Metadata extraction complete! Processed 0 files".
Proof.
  destruct (extraction_without_text (H := ascii_runtime) (λ _, inr [])
              llm_ok heuristic_down tables_none save_ok job fields
              [name_one] (StageState extracting [] [] []))
    as (s' & Hrun & _ & Hst & Hmsg & _).
  - discriminate.
  - repeat constructor.
  - reflexivity.
  - reflexivity.
  - exists s'. auto.
Defined.

Lemma cross_reference_outcome_witness :
  ∃ s',
    check_primo_background catalogue save_ok job (Some (Records [stored]))
      (StageState extracted_entry [] [] (PrimoLocals [] 0 0)) = (inr tt, s')
    ∧ processed_files (locals s') = 1
    ∧ successful_matches (locals s') = 1
    ∧ length (visible s') = 1.
Proof.
  destruct (cross_reference_outcome catalogue save_ok job [stored]
              (StageState extracted_entry [] [] (PrimoLocals [] 0 0)))
    as (s' & Hrun & _ & Hp & Hm & _ & _ & Hv & _).
  - discriminate.
  - exists s'. split; [exact Hrun|]. rewrite Hp, Hm, Hv.
    vm_compute. auto.
Defined.

Lemma acquisition_progress_rises_witness :
  ∃ s' hist tail,
    discover_task
      (polisci_ops (H := ascii_runtime) serves_pdf (λ _, Some [ref_one]))
      true [] (start_discover (set_progress 0 acquired) fresh) = (inr tt, s')
    ∧ written s' = hist ++ tail
    ∧ Sorted Z.le (0%Z :: (progress <$> hist)).
Proof.
  destruct (acquisition_progress_rises
              (polisci_ops (H := ascii_runtime) serves_pdf
                 (λ _, Some [ref_one]))
              true [] (set_progress 0 acquired) fresh)
    as (s' & hist & tail & Hrun & Hw & Hs & _).
  - simpl. lia.
  - exists s', hist, tail. auto.
Defined.


Lemma extraction_then_cross_reference_witness :
  let s1 :=
    (extract_metadata_background text_ok llm_ok heuristic_down tables_none
       save_ok job fields [name_one] (StageState extracting [] [] [])).2 in
  let sv :=
    {| jobs_status := {[ job := entry s1 ]};
       background_tasks := [];
       downloads_dir := {[ job := [name_one] ]};
       results_dir := {[ metadata_file job := Records (locals s1) ]} |} in
  (check_primo_resources (H := ascii_runtime) job sv).1
  = Reply (lit "started")
          (lit "Library resource matching started successfully")
  ∧ background_tasks (check_primo_resources (H := ascii_runtime) job sv).2
    = [PrimoTask job].
Proof.
  intros s1 sv.
  destruct (extraction_then_cross_reference (H := ascii_runtime) text_ok
              llm_ok heuristic_down tables_none save_ok save_ok catalogue
              job fields [name_one] extracting [] s1 sv (PrimoLocals [] 0 0))
    as [Hreq _].
  - vm_compute. reflexivity.
  - vm_compute. reflexivity.
  - vm_compute. discriminate.
  - vm_compute. reflexivity.
  - vm_compute. reflexivity.
  - rewrite Hreq. split; reflexivity.
Defined.

End MoreAppExamples.
